(** * resume_generator: a shallow embedding of the security and domain
    packages, and the properties checked against them.

    Layout:
    - Part I   the Go runtime and standard library, as far as the code
               under study calls into it (strings, strconv, fmt.Sscanf,
               encoding/base64, crypto/sha256, crypto/hmac, time.Parse,
               net/http helpers);
    - Part II  the repository's own functions, one module per source file;
    - Part III lemmas and the theorems for the claims C1..C10.

    Go strings and byte slices are sequences of bytes: [list ascii].
    Machine integers are [Z] with their range written out where it matters. *)

From Stdlib Require Import ZArith NArith Lia List Ascii String Bool.
From Stdlib Require Import DecimalString DecimalN SpecFloat.
From stdpp Require Import base list gmap strings.
Import ListNotations.
Open Scope Z_scope.
Open Scope list_scope.

(* ===================================================================== *)
(** * Part I: the Go side *)
(* ===================================================================== *)

Abbreviation bytes := (list ascii).

(** A string literal of the source, as bytes. *)
Definition lit (s : string) : bytes := list_ascii_of_string s.

(** The numeric value of a byte and back (the conversion [byte(x)] wraps). *)
Definition byteZ (c : ascii) : Z := Z.of_N (N_of_ascii c).
Definition Zbyte (z : Z) : ascii := ascii_of_N (Z.to_N (z mod 256)).

Definition byte_in (lo hi : Z) (c : ascii) : bool :=
  (lo <=? byteZ c) && (byteZ c <=? hi).

(** Results of calls that can fail or crash: a value, a returned [error],
    or a run-time panic. *)
Inductive outcome (E A : Type) : Type :=
| Ok (a : A)
| Err (e : E)
| Panic.
Arguments Ok {E A} a.
Arguments Err {E A} e.
Arguments Panic {E A}.

(** An error monad on [outcome], in stdpp's notation [x ← m; k]. *)
Global Instance outcome_bind {E} : MBind (outcome E) := fun A B k m =>
  match m with
  | Ok a => k a
  | Err e => Err e
  | Panic => Panic
  end.

(** The error of an inner call, wrapped into the caller's error type. *)
Definition wrapErr {E E' A} (f : E -> E') (m : outcome E A) : outcome E' A :=
  match m with
  | Ok a => Ok a
  | Err e => Err (f e)
  | Panic => Panic
  end.

(** [s[i]], which panics out of range. *)
Definition index {E A} (s : list A) (i : nat) : outcome E A :=
  match s !! i with
  | Some x => Ok x
  | None => Panic
  end.

(* --------------------------------------------------------------------- *)
(** ** package crypto/rand *)

(** The random source of one call: [None] when [rand.Read] fails, else the
    bytes it will deliver, by position. *)
Definition randSource : Type := option (nat -> ascii).

(** [b := make([]byte, n); rand.Read(b)]. *)
Definition randRead (src : randSource) (n : nat) : option bytes :=
  match src with
  | Some f => Some (map f (seq 0 n))
  | None => None
  end.

(* --------------------------------------------------------------------- *)
(** ** package strings *)

(** [strings.Split(s, sep)] for a one-byte separator, the only form the
    sources use ("|", "$", ","). [Split "" c] is [[""]]. *)
Fixpoint Split (s : bytes) (sep : ascii) : list bytes :=
  match s with
  | [] => [[]]
  | x :: t =>
      if bool_decide (x = sep) then [] :: Split t sep
      else match Split t sep with
           | h :: r => (x :: h) :: r
           | [] => [[x]]
           end
  end.

(** [strings.Join(elems, sep)]. *)
Fixpoint Join (elems : list bytes) (sep : bytes) : bytes :=
  match elems with
  | [] => []
  | [e] => e
  | e :: rest => e ++ sep ++ Join rest sep
  end.

(** [unicode.IsSpace] on a code point. *)
Definition IsSpace (r : Z) : bool :=
  ((0x09 <=? r) && (r <=? 0x0D)) || (r =? 0x20) || (r =? 0x85) || (r =? 0xA0)
  || (r =? 0x1680) || ((0x2000 <=? r) && (r <=? 0x200A))
  || (r =? 0x2028) || (r =? 0x2029) || (r =? 0x202F) || (r =? 0x205F)
  || (r =? 0x3000).

(** UTF-8 decoding of a two- and a three-byte sequence, as
    [utf8.DecodeRuneInString] accepts them (shortest form, no surrogates);
    [None] is the decoder's RuneError. No space has a four-byte encoding. *)
Definition isCont (c : ascii) : bool := byte_in 0x80 0xBF c.

Definition rune2 (a b : ascii) : option Z :=
  if byte_in 0xC2 0xDF a && isCont b
  then Some (Z.lor (Z.shiftl (Z.land (byteZ a) 0x1F) 6) (Z.land (byteZ b) 0x3F))
  else None.

Definition rune3 (a b c : ascii) : option Z :=
  let lo := if byteZ a =? 0xE0 then 0xA0 else 0x80 in
  let hi := if byteZ a =? 0xED then 0x9F else 0xBF in
  if byte_in 0xE0 0xEF a && byte_in lo hi b && isCont c
  then Some (Z.lor (Z.lor (Z.shiftl (Z.land (byteZ a) 0x0F) 12)
                          (Z.shiftl (Z.land (byteZ b) 0x3F) 6))
                   (Z.land (byteZ c) 0x3F))
  else None.

Definition space1 (a : ascii) : bool := (byteZ a <? 0x80) && IsSpace (byteZ a).
Definition space2 (a b : ascii) : bool :=
  match rune2 a b with Some r => IsSpace r | None => false end.
Definition space3 (a b c : ascii) : bool :=
  match rune3 a b c with Some r => IsSpace r | None => false end.

(** [strings.TrimLeftFunc(s, unicode.IsSpace)]: runes are decoded from the
    front; an undecodable byte is RuneError, which is no space. *)
Fixpoint trimLeft (s : bytes) : bytes :=
  match s with
  | [] => []
  | a :: t1 =>
      if space1 a then trimLeft t1
      else match t1 with
           | [] => s
           | b :: t2 =>
               if space2 a b then trimLeft t2
               else match t2 with
                    | [] => s
                    | c :: t3 => if space3 a b c then trimLeft t3 else s
                    end
           end
  end.

(** The same from the back, on the reversed string: the last rune is found
    by [utf8.DecodeLastRuneInString]. *)
Fixpoint trimLeftRev (s : bytes) : bytes :=
  match s with
  | [] => []
  | c :: t1 =>
      if space1 c then trimLeftRev t1
      else match t1 with
           | [] => s
           | b :: t2 =>
               if space2 b c then trimLeftRev t2
               else match t2 with
                    | [] => s
                    | a :: t3 => if space3 a b c then trimLeftRev t3 else s
                    end
           end
  end.

Definition trimRight (s : bytes) : bytes := rev (trimLeftRev (rev s)).

(** [strings.TrimSpace]. *)
Definition TrimSpace (s : bytes) : bytes := trimRight (trimLeft s).

(** Whether a string begins with an encoded space, and whether a reversed
    string does (that is, the string ends with one). *)
Definition startsWithSpace (s : bytes) : bool :=
  match s with
  | [] => false
  | a :: t1 =>
      space1 a
      || match t1 with
         | [] => false
         | b :: t2 =>
             space2 a b
             || match t2 with [] => false | c :: _ => space3 a b c end
         end
  end.

Definition startsWithSpaceRev (s : bytes) : bool :=
  match s with
  | [] => false
  | c :: t1 =>
      space1 c
      || match t1 with
         | [] => false
         | b :: t2 =>
             space2 b c
             || match t2 with [] => false | a :: _ => space3 a b c end
         end
  end.


(* --------------------------------------------------------------------- *)
(** ** package time: parsing the layout "2006-01-02" *)

Definition isDigit (c : ascii) : bool := byte_in 48 57 c.
Definition digitVal (c : ascii) : Z := byteZ c - 48.

Definition isLeap (year : Z) : bool :=
  (year mod 4 =? 0) && (negb (year mod 100 =? 0) || (year mod 400 =? 0)).

Definition daysIn (month year : Z) : Z :=
  if month =? 2 then (if isLeap year then 29 else 28)
  else if (month =? 4) || (month =? 6) || (month =? 9) || (month =? 11) then 30
  else 31.

(** Days before the first of a month in a common year ([daysBefore]). *)
Definition daysBefore (month : Z) : Z :=
  match month with
  | 1 => 0 | 2 => 31 | 3 => 59 | 4 => 90 | 5 => 120 | 6 => 151
  | 7 => 181 | 8 => 212 | 9 => 243 | 10 => 273 | 11 => 304 | _ => 334
  end.

(** Leap days in the years 1..n of the proleptic Gregorian calendar. *)
Definition leapsThrough (n : Z) : Z := n / 4 - n / 100 + n / 400.

(** A [time.Time] in UTC at second resolution: seconds since the Unix
    epoch. [unixDate y m d] is [time.Date(y, m, d, 0, 0, 0, 0, time.UTC)]. *)
Definition unixDate (year month day : Z) : Z :=
  (365 * (year - 1970) + (leapsThrough (year - 1) - leapsThrough 1969)
   + daysBefore month + (if isLeap year && (3 <=? month) then 1 else 0)
   + (day - 1)) * 86400.

Definition Before (t u : Z) : bool := t <? u.
Definition After (t u : Z) : bool := u <? t.

(** [time.Parse("2006-01-02", value)]: four digits, '-', two digits, '-',
    two digits and nothing else; the month is 1..12 and the day exists in
    that month. [None] stands for any parse error. *)
Definition ParseDate (value : bytes) : option Z :=
  match value with
  | [y1; y2; y3; y4; s1; m1; m2; s2; d1; d2] =>
      if forallb isDigit [y1; y2; y3; y4; m1; m2; d1; d2]
         && bool_decide (s1 = "-"%char) && bool_decide (s2 = "-"%char)
      then
        let year := ((digitVal y1 * 10 + digitVal y2) * 10 + digitVal y3) * 10 + digitVal y4 in
        let month := digitVal m1 * 10 + digitVal m2 in
        let day := digitVal d1 * 10 + digitVal d2 in
        if (month <=? 0) || (12 <? month) then None
        else if (day <? 1) || (daysIn month year <? day) then None
        else Some (unixDate year month day)
      else None
  | _ => None
  end.

(* --------------------------------------------------------------------- *)
(** ** package net/http: status texts and header keys *)

(** [http.StatusText]: the reason phrase of a known status code, and the
    empty string for every other number. *)
Definition StatusText (code : Z) : bytes :=
  lit (match code with
       | 100 => "Continue" | 101 => "Switching Protocols"
       | 102 => "Processing" | 103 => "Early Hints"
       | 200 => "OK" | 201 => "Created" | 202 => "Accepted"
       | 203 => "Non-Authoritative Information" | 204 => "No Content"
       | 205 => "Reset Content" | 206 => "Partial Content"
       | 207 => "Multi-Status" | 208 => "Already Reported" | 226 => "IM Used"
       | 300 => "Multiple Choices" | 301 => "Moved Permanently"
       | 302 => "Found" | 303 => "See Other" | 304 => "Not Modified"
       | 305 => "Use Proxy" | 307 => "Temporary Redirect"
       | 308 => "Permanent Redirect"
       | 400 => "Bad Request" | 401 => "Unauthorized"
       | 402 => "Payment Required" | 403 => "Forbidden" | 404 => "Not Found"
       | 405 => "Method Not Allowed" | 406 => "Not Acceptable"
       | 407 => "Proxy Authentication Required" | 408 => "Request Timeout"
       | 409 => "Conflict" | 410 => "Gone" | 411 => "Length Required"
       | 412 => "Precondition Failed" | 413 => "Request Entity Too Large"
       | 414 => "Request URI Too Long" | 415 => "Unsupported Media Type"
       | 416 => "Requested Range Not Satisfiable"
       | 417 => "Expectation Failed" | 418 => "I'm a teapot"
       | 421 => "Misdirected Request" | 422 => "Unprocessable Entity"
       | 423 => "Locked" | 424 => "Failed Dependency" | 425 => "Too Early"
       | 426 => "Upgrade Required" | 428 => "Precondition Required"
       | 429 => "Too Many Requests"
       | 431 => "Request Header Fields Too Large"
       | 451 => "Unavailable For Legal Reasons"
       | 500 => "Internal Server Error" | 501 => "Not Implemented"
       | 502 => "Bad Gateway" | 503 => "Service Unavailable"
       | 504 => "Gateway Timeout" | 505 => "HTTP Version Not Supported"
       | 506 => "Variant Also Negotiates" | 507 => "Insufficient Storage"
       | 508 => "Loop Detected" | 510 => "Not Extended"
       | 511 => "Network Authentication Required"
       | _ => ""
       end)%string.

(** Header field bytes (RFC 7230 token characters). *)
Definition validHeaderFieldByte (c : ascii) : bool :=
  byte_in 48 57 c || byte_in 65 90 c || byte_in 97 122 c
  || bool_decide (c ∈ lit "!#$%&'*+-.^_`|~").

Fixpoint canonLoop (upper : bool) (s : bytes) : bytes :=
  match s with
  | [] => []
  | c :: t =>
      let c' := if upper && byte_in 97 122 c then Zbyte (byteZ c - 32)
                else if negb upper && byte_in 65 90 c then Zbyte (byteZ c + 32)
                else c in
      c' :: canonLoop (bool_decide (c' = "-"%char)) t
  end.

(** [textproto.CanonicalMIMEHeaderKey]: a key with a byte outside the token
    characters is left as it is. *)
Definition CanonicalMIMEHeaderKey (s : bytes) : bytes :=
  if forallb validHeaderFieldByte s then canonLoop true s else s.

(** An [http.Header]: canonical key to its list of values. *)
Abbreviation Header := (gmap (list ascii) (list (list ascii))).

Definition HeaderSet (h : Header) (key value : bytes) : Header :=
  <[CanonicalMIMEHeaderKey key := [value]]> h.

Definition HeaderGet (h : Header) (key : bytes) : bytes :=
  match h !! CanonicalMIMEHeaderKey key with
  | Some (v :: _) => v
  | _ => []
  end.

(** [h.Add(key, value)] and [h.Values(key)]. *)
Definition HeaderAdd (h : Header) (key value : bytes) : Header :=
  <[CanonicalMIMEHeaderKey key :=
      default [] (h !! CanonicalMIMEHeaderKey key) ++ [value]]> h.

Definition HeaderValues (h : Header) (key : bytes) : list bytes :=
  default [] (h !! CanonicalMIMEHeaderKey key).

(** An [http.ResponseWriter]: the header map the handler writes to, the
    status once [WriteHeader] was called, the header as it was at that
    moment, which is the one that is sent, and the body written. The
    Content-Type the server sniffs from the body when none was sent is left
    out. *)
Record ResponseWriter := {
  rwHeader : Header;
  rwStatus : option Z;
  rwSent : Header;
  rwBody : bytes
}.

Definition newResponseWriter : ResponseWriter :=
  {| rwHeader := ∅; rwStatus := None; rwSent := ∅; rwBody := [] |}.

(** [w.Header().Set(key, value)]. *)
Definition SetHeader (w : ResponseWriter) (key value : bytes) : ResponseWriter :=
  {| rwHeader := HeaderSet (rwHeader w) key value; rwStatus := rwStatus w;
     rwSent := rwSent w; rwBody := rwBody w |}.

(** [w.WriteHeader(code)]: the first call counts. *)
Definition WriteHeader (w : ResponseWriter) (code : Z) : ResponseWriter :=
  match rwStatus w with
  | Some _ => w
  | None => {| rwHeader := rwHeader w; rwStatus := Some code;
               rwSent := rwHeader w; rwBody := rwBody w |}
  end.

(** [w.Write(b)]: writes the header with status 200 first if none was. *)
Definition WriteBody (w : ResponseWriter) (b : bytes) : ResponseWriter :=
  let w := WriteHeader w 200 in
  {| rwHeader := rwHeader w; rwStatus := rwStatus w;
     rwSent := rwSent w; rwBody := rwBody w ++ b |}.


(* --------------------------------------------------------------------- *)
(** ** package encoding/base64 *)

Record Encoding := {
  alphabet : bytes;          (* the 64 characters *)
  padChar : option ascii     (* [None] is base64.NoPadding *)
}.

Definition encodeStd : bytes :=
  lit "ABCDEFGHIJKLMNOPQRSTUVWXYZabcdefghijklmnopqrstuvwxyz0123456789+/".
Definition encodeURL : bytes :=
  lit "ABCDEFGHIJKLMNOPQRSTUVWXYZabcdefghijklmnopqrstuvwxyz0123456789-_".

Definition StdEncoding : Encoding :=
  {| alphabet := encodeStd; padChar := Some "="%char |}.
Definition RawStdEncoding : Encoding :=
  {| alphabet := encodeStd; padChar := None |}.
Definition RawURLEncoding : Encoding :=
  {| alphabet := encodeURL; padChar := None |}.

(** [enc.encode[v]] for a six-bit value. *)
Definition enc6 (enc : Encoding) (v : Z) : ascii :=
  nth (Z.to_nat v) (alphabet enc) "A"%char.

Definition padding (enc : Encoding) (n : nat) : bytes :=
  match padChar enc with
  | Some p => repeat p n
  | None => []
  end.

(** [enc.EncodeToString]: three bytes give four characters; a remainder of
    one or two bytes gives two or three characters and the padding. *)
Fixpoint EncodeToString (enc : Encoding) (src : bytes) : bytes :=
  match src with
  | [] => []
  | [a] =>
      let val := Z.shiftl (byteZ a) 16 in
      [enc6 enc (Z.land (Z.shiftr val 18) 0x3F);
       enc6 enc (Z.land (Z.shiftr val 12) 0x3F)] ++ padding enc 2
  | [a; b] =>
      let val := Z.lor (Z.shiftl (byteZ a) 16) (Z.shiftl (byteZ b) 8) in
      [enc6 enc (Z.land (Z.shiftr val 18) 0x3F);
       enc6 enc (Z.land (Z.shiftr val 12) 0x3F);
       enc6 enc (Z.land (Z.shiftr val 6) 0x3F)] ++ padding enc 1
  | a :: b :: c :: rest =>
      let val := Z.lor (Z.lor (Z.shiftl (byteZ a) 16) (Z.shiftl (byteZ b) 8))
                       (byteZ c) in
      enc6 enc (Z.land (Z.shiftr val 18) 0x3F)
      :: enc6 enc (Z.land (Z.shiftr val 12) 0x3F)
      :: enc6 enc (Z.land (Z.shiftr val 6) 0x3F)
      :: enc6 enc (Z.land val 0x3F)
      :: EncodeToString enc rest
  end.

Fixpoint indexOf (c : ascii) (l : bytes) (i : Z) : option Z :=
  match l with
  | [] => None
  | x :: t => if bool_decide (x = c) then Some i else indexOf c t (i + 1)
  end.

(** [enc.decodeMap[c]]; [None] is the table's 0xff. *)
Definition decodeMap (enc : Encoding) (c : ascii) : option Z :=
  indexOf c (alphabet enc) 0.

Definition isNewline (c : ascii) : bool :=
  bool_decide (c = "010"%char) || bool_decide (c = "013"%char).

Fixpoint skipNewlines (s : bytes) : bytes :=
  match s with
  | c :: t => if isNewline c then skipNewlines t else s
  | [] => []
  end.

(** The bytes of a quantum of two, three or four six-bit values. *)
Definition quantumBytes (q : list Z) : bytes :=
  let val := Z.lor (Z.lor (Z.lor (Z.shiftl (nth 0 q 0) 18) (Z.shiftl (nth 1 q 0) 12))
                          (Z.shiftl (nth 2 q 0) 6)) (nth 3 q 0) in
  take (length q - 1)
    [Zbyte (Z.shiftr val 16); Zbyte (Z.shiftr val 8); Zbyte val].

(** [enc.DecodeString], quantum by quantum as [decodeQuantum] reads them;
    [q] holds the six-bit values of the quantum under way. Line breaks are
    skipped. [None] is a CorruptInputError. The encodings used here are not
    strict: stray bits of a last, partial quantum are dropped. *)
Fixpoint decodeLoop (enc : Encoding) (src : bytes) (q : list Z) : option bytes :=
  match src with
  | [] =>
      match q with
      | [] => Some []
      | [_] => None
      | _ => match padChar enc with
             | Some _ => None
             | None => Some (quantumBytes q)
             end
      end
  | c :: rest =>
      match decodeMap enc c with
      | Some v =>
          if (length q =? 3)%nat
          then match decodeLoop enc rest [] with
               | Some out => Some (quantumBytes (q ++ [v]) ++ out)
               | None => None
               end
          else decodeLoop enc rest (q ++ [v])
      | None =>
          if isNewline c then decodeLoop enc rest q
          else if bool_decide (padChar enc = Some c) then
            match q with
            | [_; _] =>
                match skipNewlines rest with
                | c2 :: rest2 =>
                    if bool_decide (c2 = c) && bool_decide (skipNewlines rest2 = [])
                    then Some (quantumBytes q) else None
                | [] => None
                end
            | [_; _; _] =>
                if bool_decide (skipNewlines rest = [])
                then Some (quantumBytes q) else None
            | _ => None
            end
          else None
      end
  end.

Definition DecodeString (enc : Encoding) (s : bytes) : option bytes :=
  decodeLoop enc s [].

(* --------------------------------------------------------------------- *)
(** ** package crypto/sha256 (FIPS 180-4) and crypto/hmac (RFC 2104) *)

Definition w32 (x : Z) : Z := Z.land x 0xFFFFFFFF.
Definition rotr (x n : Z) : Z :=
  Z.lor (Z.shiftr x n) (w32 (Z.shiftl x (32 - n))).
Definition Ch (x y z : Z) : Z :=
  Z.lxor (Z.land x y) (Z.land (Z.lxor x 0xFFFFFFFF) z).
Definition Maj (x y z : Z) : Z :=
  Z.lxor (Z.lxor (Z.land x y) (Z.land x z)) (Z.land y z).
Definition bsig0 (x : Z) : Z := Z.lxor (Z.lxor (rotr x 2) (rotr x 13)) (rotr x 22).
Definition bsig1 (x : Z) : Z := Z.lxor (Z.lxor (rotr x 6) (rotr x 11)) (rotr x 25).
Definition ssig0 (x : Z) : Z := Z.lxor (Z.lxor (rotr x 7) (rotr x 18)) (Z.shiftr x 3).
Definition ssig1 (x : Z) : Z := Z.lxor (Z.lxor (rotr x 17) (rotr x 19)) (Z.shiftr x 10).

(** The round constants are the first 32 bits of the fractional parts of
    the cube roots of the first 64 primes; the initial hash value takes the
    square roots of the first 8. Both are computed here. *)
Definition isPrime (n : Z) : bool :=
  forallb (fun d => negb (n mod d =? 0)) (seqZ 2 (n - 2)).

Definition primes64 : list Z := filter (fun n => isPrime n = true) (seqZ 2 310).

(** The largest [r] below [2 ^ bits] with [r ^ 3 <= n], bit by bit. *)
Fixpoint cubeRoot (bits : nat) (n r : Z) : Z :=
  match bits with
  | O => r
  | S b =>
      let r' := r + 2 ^ Z.of_nat b in
      if r' * r' * r' <=? n then cubeRoot b n r' else cubeRoot b n r
  end.

Definition K256 : list Z :=
  Eval vm_compute in
    map (fun p => Z.land (cubeRoot 35 (p * 2 ^ 96) 0) 0xFFFFFFFF) primes64.

(** The eight working words. *)
Record digest := Digest { dA : Z; dB : Z; dC : Z; dD : Z; dE : Z; dF : Z; dG : Z; dH : Z }.

Definition fracSqrt (p : Z) : Z := Z.land (Z.sqrt (p * 2 ^ 64)) 0xFFFFFFFF.

Definition initDigest : digest :=
  Eval vm_compute in
    Digest (fracSqrt 2) (fracSqrt 3) (fracSqrt 5) (fracSqrt 7)
           (fracSqrt 11) (fracSqrt 13) (fracSqrt 17) (fracSqrt 19).

(** The message schedule: [win] holds the last sixteen words, oldest
    first; [n] more words are produced. *)
Fixpoint expand (n : nat) (win : list Z) : list Z :=
  match n with
  | O => []
  | S n' =>
      let nw := w32 (ssig1 (nth 14 win 0) + nth 9 win 0
                     + ssig0 (nth 1 win 0) + nth 0 win 0) in
      nw :: expand n' (tl win ++ [nw])
  end.

Definition round (d : digest) (kw : Z * Z) : digest :=
  let t1 := dH d + bsig1 (dE d) + Ch (dE d) (dF d) (dG d) + fst kw + snd kw in
  let t2 := bsig0 (dA d) + Maj (dA d) (dB d) (dC d) in
  Digest (w32 (t1 + t2)) (dA d) (dB d) (dC d) (w32 (dD d + t1)) (dE d) (dF d) (dG d).

(** One block of sixteen words. *)
Definition compress (d : digest) (block : list Z) : digest :=
  let w := block ++ expand 48 block in
  let r := fold_left round (combine K256 w) d in
  Digest (w32 (dA d + dA r)) (w32 (dB d + dB r)) (w32 (dC d + dC r))
         (w32 (dD d + dD r)) (w32 (dE d + dE r)) (w32 (dF d + dF r))
         (w32 (dG d + dG r)) (w32 (dH d + dH r)).

(** Big-endian words of a byte string whose length is a multiple of four. *)
Fixpoint beWords (s : bytes) : list Z :=
  match s with
  | a :: b :: c :: d :: rest =>
      Z.lor (Z.lor (Z.lor (Z.shiftl (byteZ a) 24) (Z.shiftl (byteZ b) 16))
                   (Z.shiftl (byteZ c) 8)) (byteZ d)
      :: beWords rest
  | _ => []
  end.

Definition beBytes (nbytes : nat) (x : Z) : bytes :=
  map (fun i => Zbyte (Z.shiftr x (8 * Z.of_nat (nbytes - 1 - i)))) (seq 0 nbytes).

Definition sha256Pad (msg : bytes) : bytes :=
  let len := Z.of_nat (length msg) in
  msg ++ [Zbyte 0x80] ++ repeat (Zbyte 0) (Z.to_nat ((55 - len) mod 64))
      ++ beBytes 8 (8 * len).

(** [fuel] bounds the number of blocks. *)
Fixpoint blocksLoop (fuel : nat) (d : digest) (ws : list Z) : digest :=
  match fuel with
  | O => d
  | S fuel' =>
      match ws with
      | [] => d
      | _ => blocksLoop fuel' (compress d (take 16 ws)) (drop 16 ws)
      end
  end.

Definition digestBytes (d : digest) : bytes :=
  beBytes 4 (dA d) ++ beBytes 4 (dB d) ++ beBytes 4 (dC d) ++ beBytes 4 (dD d)
  ++ beBytes 4 (dE d) ++ beBytes 4 (dF d) ++ beBytes 4 (dG d) ++ beBytes 4 (dH d).

(** [sha256.Sum256]. *)
Definition Sum256 (msg : bytes) : bytes :=
  let ws := beWords (sha256Pad msg) in
  digestBytes (blocksLoop (length ws) initDigest ws).

Definition xorBytes (x : Z) (s : bytes) : bytes :=
  map (fun c => Zbyte (Z.lxor (byteZ c) x)) s.

(** The key as HMAC uses it: hashed when longer than a block, then filled
    up with zero bytes to the block size of 64. *)
Definition hmacKey (key : bytes) : bytes :=
  let k := if (64 <? length key)%nat then Sum256 key else key in
  k ++ repeat (Zbyte 0) (64 - length k).

(** [hmac.New(sha256.New, key)], [Write(msg)], [Sum(nil)]. *)
Definition HMAC_SHA256 (key msg : bytes) : bytes :=
  let k := hmacKey key in
  Sum256 (xorBytes 0x5c k ++ Sum256 (xorBytes 0x36 k ++ msg)).

(** [hmac.Equal], [subtle.ConstantTimeCompare(x, y) == 1]: same length and
    same bytes. *)
Definition bytesEqual (x y : bytes) : bool := bool_decide (x = y).

(** [hex.EncodeToString], to state test vectors. *)
Definition hexString (s : bytes) : bytes :=
  flat_map (fun c => [nth (Z.to_nat (byteZ c / 16)) (lit "0123456789abcdef") "0"%char;
                      nth (Z.to_nat (byteZ c mod 16)) (lit "0123456789abcdef") "0"%char]) s.


(* --------------------------------------------------------------------- *)
(** ** packages strconv and fmt: decimal numbers *)

(** The decimal digits of a non-negative number, most significant first;
    [fuel] bounds their count. *)
Fixpoint formatUintFuel (fuel : nat) (n : Z) : bytes :=
  match fuel with
  | O => []
  | S fuel' =>
      if n <? 10 then [Zbyte (48 + n)]
      else formatUintFuel fuel' (n / 10) ++ [Zbyte (48 + n mod 10)]
  end.

(** [strconv.FormatUint(n, 10)] and the verb [%d] on an unsigned value;
    twenty digits hold every 64-bit number. *)
Definition FormatUint (n : Z) : bytes := formatUintFuel 20 n.

(** [strconv.FormatInt(n, 10)], [strconv.Itoa] and [%d] on a signed value. *)
Definition FormatInt (n : Z) : bytes :=
  if n <? 0 then "-"%char :: FormatUint (- n) else FormatUint n.

(** Reading digits as [scanNumber] accepts them, the longest run, with the
    value they denote. *)
Fixpoint scanDigits (s : bytes) (acc : Z) : Z * bytes :=
  match s with
  | c :: t => if isDigit c then scanDigits t (acc * 10 + digitVal c) else (acc, s)
  | [] => (acc, [])
  end.

Definition startsWithDigit (s : bytes) : bool :=
  match s with c :: _ => isDigit c | [] => false end.

Inductive scanError :=
| ErrUnexpectedEOF      (* io.ErrUnexpectedEOF, io.EOF *)
| ErrInputMismatch      (* input does not match format *)
| ErrExpectedInteger    (* expected integer *)
| ErrUnexpectedNewline  (* unexpected newline *)
| ErrRange              (* strconv: value out of range *)
| ErrOverflow.          (* integer overflow on token *)

(** the scanner's [SkipSpace] of a scan without newline-as-space (Sscanf): spaces
    are skipped, a newline is an error. *)
Fixpoint SkipSpace (s : bytes) : outcome scanError bytes :=
  match s with
  | [] => Ok []
  | a :: t1 =>
      if bool_decide (a = "010"%char) then Err ErrUnexpectedNewline
      else if space1 a then SkipSpace t1
      else match t1 with
           | [] => Ok s
           | b :: t2 =>
               if space2 a b then SkipSpace t2
               else match t2 with
                    | [] => Ok s
                    | c :: t3 => if space3 a b c then SkipSpace t3 else Ok s
                    end
           end
  end.

(** Literal text of a format: the input must carry the same bytes. *)
Fixpoint matchLiteral (format input : bytes) : outcome scanError bytes :=
  match format with
  | [] => Ok input
  | f :: format' =>
      match input with
      | [] => Err ErrUnexpectedEOF
      | c :: input' =>
          if bool_decide (c = f) then matchLiteral format' input'
          else Err ErrInputMismatch
      end
  end.

(** The verb [%d] into an unsigned integer of [bitSize] bits
    (the scanner's [scanUint]): spaces, then at least one digit. The value and the
    rest of the input are returned. *)
Definition scanUint (bitSize : Z) (input : bytes) : outcome scanError (Z * bytes) :=
  match SkipSpace input with
  | Ok [] => Err ErrUnexpectedEOF
  | Ok s =>
      if startsWithDigit s then
        let '(v, rest) := scanDigits s 0 in
        if 2 ^ 64 <=? v then Err ErrRange
        else if 2 ^ bitSize <=? v then Err ErrOverflow
        else Ok (v, rest)
      else Err ErrExpectedInteger
  | Err e => Err e
  | Panic => Panic
  end.

(** The verb [%d] into an [int] (the scanner's [scanInt] at 64 bits): spaces, an
    optional sign, then at least one digit. *)
Definition scanInt (input : bytes) : outcome scanError (Z * bytes) :=
  match SkipSpace input with
  | Ok [] => Err ErrUnexpectedEOF
  | Ok ((c :: t) as s) =>
      let signed := bool_decide (c = "+"%char) || bool_decide (c = "-"%char) in
      let s' := if signed then t else s in
      match s' with
      | [] => Err ErrUnexpectedEOF
      | _ =>
          if startsWithDigit s' then
            let '(v, rest) := scanDigits s' 0 in
            let v := if bool_decide (c = "-"%char) then - v else v in
            if (v <? - 2 ^ 63) || (2 ^ 63 <=? v) then Err ErrRange
            else Ok (v, rest)
          else Err ErrExpectedInteger
      end
  | Err e => Err e
  | Panic => Panic
  end.

(* --------------------------------------------------------------------- *)
(** ** package golang.org/x/crypto/argon2 *)

(** [argon2.Version]. *)
Definition argon2Version : Z := 0x13.

(** The key derivation is kept abstract. [IDKey password salt time memory
    threads keyLen] is [None] when the library panics (it does for
    [time < 1] and [threads < 1]); a result has [keyLen] bytes, sound cost
    parameters give a result, and whether the call panics depends on the
    cost parameters alone. *)
Class Argon2 := {
  IDKey : bytes -> bytes -> Z -> Z -> Z -> Z -> option bytes;
  IDKey_length : forall password salt time memory threads keyLen out,
    IDKey password salt time memory threads keyLen = Some out ->
    Z.of_nat (length out) = keyLen;
  IDKey_runs : forall password salt time memory threads keyLen,
    1 <= time -> 0 <= memory -> 1 <= threads -> 1 <= keyLen ->
    IDKey password salt time memory threads keyLen <> None;
  IDKey_panics : forall password salt password' salt' time memory threads keyLen,
    IDKey password salt time memory threads keyLen = None ->
    IDKey password' salt' time memory threads keyLen = None
}.


(* --------------------------------------------------------------------- *)
(** ** package github.com/golang-jwt/jwt/v5 *)

(** Registered claims; a NumericDate is a number of whole seconds since
    the Unix epoch ([None]: the claim is absent). *)
Record RegisteredClaims := {
  ExpiresAt : option Z;
  IssuedAt : option Z;
  NotBefore : option Z;
  Issuer : bytes;
  Subject : bytes;
  Audience : list bytes
}.

(** The repository's claims type, which the library marshals ([JWTClaims]
    of pkg/auth/jwt.go). *)
Record JWTClaims := {
  UserID : bytes;
  Email : bytes;
  Role : bytes;
  TokenType : bytes;
  Registered : RegisteredClaims
}.

(** The two JSON segments of a token are kept abstract: the base64url text
    of a header naming an algorithm, and of a claims object. A segment
    holds no dot. Text comes back from JSON as [jsonText] of it (invalid
    UTF-8 is replaced, ASCII is kept); numbers and absent claims come back
    as they were. The MACs of HS384 and HS512 are abstract as well. *)
Class JWTCodec := {
  encodeHeader : bytes -> bytes;
  decodeHeader : bytes -> option bytes;
  encodeClaims : JWTClaims -> bytes;
  decodeClaims : bytes -> option JWTClaims;
  jsonText : bytes -> bytes;
  HMAC_SHA384 : bytes -> bytes -> bytes;
  HMAC_SHA512 : bytes -> bytes -> bytes;
  jsonText_ascii : forall s, Forall (fun c => byteZ c < 128) s -> jsonText s = s;
  decodeHeader_encodeHeader : forall alg,
    decodeHeader (encodeHeader alg) = Some (jsonText alg);
  decodeClaims_encodeClaims : forall c,
    decodeClaims (encodeClaims c) =
    Some {| UserID := jsonText (UserID c); Email := jsonText (Email c);
            Role := jsonText (Role c); TokenType := jsonText (TokenType c);
            Registered := {|
              ExpiresAt := ExpiresAt (Registered c);
              IssuedAt := IssuedAt (Registered c);
              NotBefore := NotBefore (Registered c);
              Issuer := jsonText (Issuer (Registered c));
              Subject := jsonText (Subject (Registered c));
              Audience := map jsonText (Audience (Registered c)) |} |};
  encodeHeader_no_dot : forall alg, "."%char ∉ encodeHeader alg;
  encodeClaims_no_dot : forall c, "."%char ∉ encodeClaims c
}.

(** Claims as they come back from their JSON. *)
Definition throughJSON `{JWTCodec} (c : JWTClaims) : JWTClaims := {|
  UserID := jsonText (UserID c); Email := jsonText (Email c);
  Role := jsonText (Role c); TokenType := jsonText (TokenType c);
  Registered := {|
    ExpiresAt := ExpiresAt (Registered c);
    IssuedAt := IssuedAt (Registered c);
    NotBefore := NotBefore (Registered c);
    Issuer := jsonText (Issuer (Registered c));
    Subject := jsonText (Subject (Registered c));
    Audience := map jsonText (Audience (Registered c)) |} |}.

(** The text that is signed. *)
Definition signingString `{JWTCodec} (claims : JWTClaims) : bytes :=
  encodeHeader (lit "HS256") ++ lit "." ++ encodeClaims claims.

(** The signing methods the library registers: the three HMAC methods with
    their MAC, and the others (RSA, ECDSA, EdDSA, none), which are no
    [*SigningMethodHMAC]. [None]: no method of that name. *)
Inductive signingMethod :=
| SigningMethodHMAC (mac : bytes -> bytes -> bytes)
| SigningMethodOther.

Definition GetSigningMethod `{JWTCodec} (alg : bytes) : option signingMethod :=
  if bool_decide (alg = lit "HS256") then Some (SigningMethodHMAC HMAC_SHA256)
  else if bool_decide (alg = lit "HS384") then Some (SigningMethodHMAC HMAC_SHA384)
  else if bool_decide (alg = lit "HS512") then Some (SigningMethodHMAC HMAC_SHA512)
  else if bool_decide (alg ∈ map lit ["RS256"; "RS384"; "RS512"; "ES256"; "ES384";
                                       "ES512"; "PS256"; "PS384"; "PS512"; "EdDSA";
                                       "none"]%string)
  then Some SigningMethodOther
  else None.

(** The errors of [ParseWithClaims]; for invalid claims, which of the
    checks failed. *)
Inductive parseError :=
| ErrTokenMalformed
| ErrTokenUnverifiable
| ErrTokenSignatureInvalid
| ErrTokenInvalidClaims (expired notValidYet : bool).

Definition Nanosecond : Z := 1.
Definition SecondNs : Z := 1000000000.

(** [jwt.NewNumericDate(t)]: the time cut to whole seconds. Times are
    nanoseconds since the Unix epoch. *)
Definition NewNumericDate (t : Z) : option Z := Some (t / SecondNs).

(** [jwt.NewWithClaims(jwt.SigningMethodHS256, claims).SignedString(key)]. *)
Definition SignedString `{JWTCodec} (key : bytes) (claims : JWTClaims) : bytes :=
  signingString claims ++ lit "."
  ++ EncodeToString RawURLEncoding (HMAC_SHA256 key (signingString claims)).

(** The validator's checks with no leeway: the expiry must lie after now,
    not-before must not. Issued-at is not checked by default. *)
Definition validateClaims (c : JWTClaims) (now : Z) : option parseError :=
  let expired :=
    match ExpiresAt (Registered c) with
    | Some exp => negb (now <? exp * SecondNs)
    | None => false
    end in
  let notValidYet :=
    match NotBefore (Registered c) with
    | Some nbf => now <? nbf * SecondNs
    | None => false
    end in
  if expired || notValidYet then Some (ErrTokenInvalidClaims expired notValidYet)
  else None.

(** [jwt.ParseWithClaims(tokenString, &JWTClaims{}, keyFunc)] at the time
    [now]. [keyFunc] sees the method of the token and returns the key or
    fails. The signature is checked before the claims are. *)
Definition ParseWithClaims `{JWTCodec} (tokenString : bytes)
    (keyFunc : signingMethod -> option bytes) (now : Z)
  : outcome parseError JWTClaims :=
  match Split tokenString "."%char with
  | [headerPart; claimsPart; signaturePart] =>
      match decodeHeader headerPart, decodeClaims claimsPart with
      | Some alg, Some claims =>
          match GetSigningMethod alg with
          | None => Err ErrTokenUnverifiable
          | Some method =>
              match DecodeString RawURLEncoding signaturePart with
              | None => Err ErrTokenMalformed
              | Some sig =>
                  match keyFunc method with
                  | None => Err ErrTokenUnverifiable
                  | Some key =>
                      match method with
                      | SigningMethodOther => Err ErrTokenSignatureInvalid
                      | SigningMethodHMAC mac =>
                          if bytesEqual sig (mac key (headerPart ++ lit "." ++ claimsPart))
                          then match validateClaims claims now with
                               | Some e => Err e
                               | None => Ok claims
                               end
                          else Err ErrTokenSignatureInvalid
                      end
                  end
              end
          end
      | _, _ => Err ErrTokenMalformed
      end
  | _ => Err ErrTokenMalformed
  end.

(* --------------------------------------------------------------------- *)
(** ** A serialisation to run examples with *)

(** Where a library is taken by its contract, the examples need some
    function that meets it. For the serialisers that is the binary digits
    of a number that codes the value. *)
Fixpoint posBytes (p : positive) : bytes :=
  match p with
  | xH => []
  | xO q => "0"%char :: posBytes q
  | xI q => "1"%char :: posBytes q
  end.

Fixpoint bytesPos (s : bytes) : option positive :=
  match s with
  | [] => Some xH
  | c :: t =>
      if bool_decide (c = "0"%char) then xO <$> bytesPos t
      else if bool_decide (c = "1"%char) then xI <$> bytesPos t
      else None
  end.

(* --------------------------------------------------------------------- *)
(** ** package time: instants at nanosecond resolution *)

(** Where the nanoseconds matter a [time.Time] is its instant, in
    nanoseconds since the Unix epoch. The zero value is January 1 of the
    year 1, 00:00 UTC. *)
Definition zeroTime : Z := unixDate 1 1 1 * SecondNs.
Definition IsZero (t : Z) : bool := bool_decide (t = zeroTime).

(** int64 arithmetic wraps around. *)
Definition wrap64 (x : Z) : Z := (x + 2 ^ 63) mod 2 ^ 64 - 2 ^ 63.

(** [time.Duration(n) * time.Second]. *)
Definition secondsDuration (n : Z) : Z := wrap64 (n * SecondNs).

(* --------------------------------------------------------------------- *)
(** ** crypto/aes and crypto/cipher: AES in Galois counter mode *)

(** [aes.NewCipher] takes keys of 16, 24 or 32 bytes. *)
Definition validKeySize (n : nat) : bool :=
  (n =? 16)%nat || (n =? 24)%nat || (n =? 32)%nat.

Definition gcmNonceSize : nat := 12.

(** The cipher itself is taken by its contract. [gcmSeal key nonce
    plaintext] is what [Seal] appends to its first argument, with no
    additional data: the ciphertext and its tag. [gcmOpen] is [Open]
    likewise, [None] when the authentication fails. *)
Class AESGCM := {
  gcmSeal : bytes -> bytes -> bytes -> bytes;
  gcmOpen : bytes -> bytes -> bytes -> option bytes;
  gcmOpen_gcmSeal : forall key nonce plaintext,
    validKeySize (length key) = true -> length nonce = gcmNonceSize ->
    gcmOpen key nonce (gcmSeal key nonce plaintext) = Some plaintext
}.

(* --------------------------------------------------------------------- *)
(** ** unicode/utf8 and encoding/json: what a value is after a round trip *)

(** The width of the well-formed encoding at the head of [s], as
    [utf8.DecodeRune] finds it; [None] where it reports RuneError with
    width 1. *)
Definition runeWidth (s : bytes) : option nat :=
  match s with
  | [] => None
  | a :: t =>
      if byteZ a <? 0x80 then Some 1%nat
      else if byte_in 0xC2 0xDF a then
        match t with
        | b :: _ => if isCont b then Some 2%nat else None
        | _ => None
        end
      else if byte_in 0xE0 0xEF a then
        let lo := if byteZ a =? 0xE0 then 0xA0 else 0x80 in
        let hi := if byteZ a =? 0xED then 0x9F else 0xBF in
        match t with
        | b :: c :: _ =>
            if byte_in lo hi b && isCont c then Some 3%nat else None
        | _ => None
        end
      else if byte_in 0xF0 0xF4 a then
        let lo := if byteZ a =? 0xF0 then 0x90 else 0x80 in
        let hi := if byteZ a =? 0xF4 then 0x8F else 0xBF in
        match t with
        | b :: c :: d :: _ =>
            if byte_in lo hi b && isCont c && isCont d then Some 4%nat else None
        | _ => None
        end
      else None
  end.

(** U+FFFD in UTF-8. *)
Definition replacementChar : bytes := [Zbyte 0xEF; Zbyte 0xBF; Zbyte 0xBD].

(** A string as JSON carries it: the encoder writes U+FFFD for every byte
    that starts no well-formed encoding. [skip] counts the bytes still to
    copy of the encoding at hand. *)
Fixpoint coerceLoop (skip : nat) (s : bytes) : bytes :=
  match s with
  | [] => []
  | c :: t =>
      match skip with
      | S k => c :: coerceLoop k t
      | O =>
          match runeWidth s with
          | Some n => c :: coerceLoop (n - 1) t
          | None => replacementChar ++ coerceLoop 0 t
          end
      end
  end.

Definition coerceUTF8 (s : bytes) : bytes := coerceLoop 0 s.

(** Values of type [any] as the custom data of a session can hold them:
    nil, booleans, integers, floating-point numbers, strings, slices and
    string-keyed maps of such values. *)
#[warnings="-register-all"]
Inductive any : Type :=
| Nil
| Bool (b : bool)
| Int (n : Z)
| Float64 (f : spec_float)
| Str (s : bytes)
| Slice (l : list any)
| Map (m : gmap bytes any).

(** [float64(n)]: the nearest binary64 number, ties to even. It is also
    what the decoder makes of the decimal digits of [n]. *)
Definition float64OfInt (n : Z) : spec_float := binary_normalize 53 1024 n 0 false.

(** A value after [json.Marshal] and [json.Unmarshal] into an [any]: every
    number comes back as a float64, every string coerced to UTF-8. *)
Fixpoint anyThroughJSON (v : any) : any :=
  match v with
  | Nil => Nil
  | Bool b => Bool b
  | Int n => Float64 (float64OfInt n)
  | Float64 f => Float64 f
  | Str s => Str (coerceUTF8 s)
  | Slice l => Slice (map anyThroughJSON l)
  | Map m => Map (anyThroughJSON <$> m)
  end.

Definition validUTF8 (s : bytes) : Prop := coerceUTF8 s = s.

(** The keys of every map inside are UTF-8: none is changed on the way, and
    no two fall together. *)
Inductive plainKeys : any -> Prop :=
| plainKeys_Nil : plainKeys Nil
| plainKeys_Bool b : plainKeys (Bool b)
| plainKeys_Int n : plainKeys (Int n)
| plainKeys_Float64 f : plainKeys (Float64 f)
| plainKeys_Str s : plainKeys (Str s)
| plainKeys_Slice l : (forall x, x ∈ l -> plainKeys x) -> plainKeys (Slice l)
| plainKeys_Map m :
    (forall k x, m !! k = Some x -> validUTF8 k) ->
    (forall k x, m !! k = Some x -> plainKeys x) ->
    plainKeys (Map m).

(** The values JSON has itself: no integers, strings and keys in UTF-8. *)
Inductive jsonValue : any -> Prop :=
| jsonValue_Nil : jsonValue Nil
| jsonValue_Bool b : jsonValue (Bool b)
| jsonValue_Float64 f : jsonValue (Float64 f)
| jsonValue_Str s : validUTF8 s -> jsonValue (Str s)
| jsonValue_Slice l : (forall x, x ∈ l -> jsonValue x) -> jsonValue (Slice l)
| jsonValue_Map m :
    (forall k x, m !! k = Some x -> validUTF8 k) ->
    (forall k x, m !! k = Some x -> jsonValue x) ->
    jsonValue (Map m).

(* --------------------------------------------------------------------- *)
(** ** net/http: the value of a cookie on the wire *)

Definition doubleQuote : ascii := Zbyte 34.

(** A text between double quotes: a JSON string, for a text of letters,
    digits, spaces and underscores, which needs no escape. *)
Definition quoted (s : string) : bytes := doubleQuote :: lit s ++ [doubleQuote].

Definition validCookieValueByte (c : ascii) : bool :=
  (0x20 <=? byteZ c) && (byteZ c <? 0x7f)
  && negb (bool_decide (c = doubleQuote)) && negb (bool_decide (c = ";"%char))
  && negb (bool_decide (c = "\"%char)).

(** [sanitizeCookieValue(v, false)]: bytes that may not appear are dropped,
    and a value with a space or a comma is put in double quotes. *)
Definition sanitizeCookieValue (v : bytes) : bytes :=
  let v := filter (fun c => validCookieValueByte c = true) v in
  if existsb (fun c => bool_decide (c = " "%char) || bool_decide (c = ","%char)) v
  then doubleQuote :: v ++ [doubleQuote]
  else v.

(* ===================================================================== *)
(** * Part II: the repository *)
(* ===================================================================== *)

(* --------------------------------------------------------------------- *)
(** ** pkg/security/headers.go *)

Module headers.

Record HeadersConfig := {
  HSTS : bool;
  HSTSMaxAge : Z;
  HSTSIncludeSubdomains : bool;
  HSTSPreload : bool;
  ContentSecurityPolicy : bytes;
  XFrameOptions : bytes;
  XContentTypeOptions : bytes
}.

Definition DefaultHeadersConfig : HeadersConfig := {|
  HSTS := true;
  HSTSMaxAge := 31536000;
  HSTSIncludeSubdomains := true;
  HSTSPreload := true;
  ContentSecurityPolicy :=
    lit "default-src 'self'; script-src 'self'; img-src 'self' data:; style-src 'self' 'unsafe-inline'; connect-src 'self'; frame-ancestors 'none'; form-action 'self'; base-uri 'self'; object-src 'none'";
  XFrameOptions := lit "DENY";
  XContentTypeOptions := lit "nosniff"
|}.

(** The value computed for Strict-Transport-Security (lines 44-53). *)
Definition hstsValue (config : HeadersConfig) : bytes :=
  if 0 <? HSTSMaxAge config then
    let value := lit "max-age=" ++ StatusText (HSTSMaxAge config) in
    let value := if HSTSIncludeSubdomains config
                 then value ++ lit "; includeSubDomains" else value in
    if HSTSPreload config then value ++ lit "; preload" else value
  else [].

Definition setIfNonEmpty (key value : bytes) (w : Header) : Header :=
  if bool_decide (value = []) then w else HeaderSet w key value.

(** [SecurityHeaders(config)]: the headers written on the response before
    the next handler runs. *)
Definition SecurityHeaders (config : HeadersConfig) (w : Header) : Header :=
  let w := if HSTS config
           then setIfNonEmpty (lit "Strict-Transport-Security") (hstsValue config) w
           else w in
  let w := setIfNonEmpty (lit "Content-Security-Policy") (ContentSecurityPolicy config) w in
  let w := setIfNonEmpty (lit "X-Frame-Options") (XFrameOptions config) w in
  let w := setIfNonEmpty (lit "X-Content-Type-Options") (XContentTypeOptions config) w in
  let w := HeaderSet w (lit "Referrer-Policy") (lit "strict-origin-when-cross-origin") in
  let w := HeaderSet w (lit "X-XSS-Protection") (lit "1; mode=block") in
  let w := HeaderSet w (lit "Permissions-Policy")
             (lit "accelerometer=(), camera=(), geolocation=(), gyroscope=(), magnetometer=(), microphone=(), payment=(), usb=()") in
  let w := HeaderSet w (lit "Cache-Control") (lit "no-store, max-age=0") in
  let w := HeaderSet w (lit "Pragma") (lit "no-cache") in
  HeaderSet w (lit "X-Permitted-Cross-Domain-Policies") (lit "none").

End headers.


(* --------------------------------------------------------------------- *)
(** ** internal/domain: resume_models_errors.go, education.go, skill.go,
       certification.go *)

Module domain.

Inductive modelError := ErrInvalidField | ErrDateRange.

Record ValidationError := NewValidationError {
  Field : bytes;
  Message : bytes;
  Err_ : modelError
}.

(** [net/url.ParseRequestURI], kept abstract: whether it accepts a string. *)
Class URLParser := { ParseRequestURI : bytes -> bool }.

Module Education.

Record t := {
  Institution : bytes;
  Location : bytes;
  Degree : bytes;
  Field_ : bytes;
  StartDate : bytes;
  EndDate : bytes;
  Description : bytes
}.

(** [nil] is [None]. *)
Definition Validate (e : t) : option ValidationError :=
  if bool_decide (TrimSpace (Institution e) = []) then
    Some (NewValidationError (lit "institution") (lit "Institution is required") ErrInvalidField)
  else if bool_decide (TrimSpace (Degree e) = []) then
    Some (NewValidationError (lit "degree") (lit "Degree is required") ErrInvalidField)
  else if bool_decide (TrimSpace (StartDate e) = []) then
    Some (NewValidationError (lit "start_date") (lit "Start date is required") ErrInvalidField)
  else if bool_decide (StartDate e = []) then None
  else
    match ParseDate (StartDate e) with
    | None =>
        Some (NewValidationError (lit "start_date")
                (lit "Invalid start date format (must be YYYY-MM-DD)") ErrInvalidField)
    | Some startDate =>
        if bool_decide (EndDate e <> []) && bool_decide (EndDate e <> lit "Present") then
          match ParseDate (EndDate e) with
          | None =>
              Some (NewValidationError (lit "end_date")
                      (lit "Invalid end date format (must be YYYY-MM-DD or 'Present')")
                      ErrInvalidField)
          | Some endDate =>
              if Before endDate startDate then
                Some (NewValidationError (lit "end_date")
                        (lit "End date must be after start date") ErrDateRange)
              else None
          end
        else None
    end.

Definition BeforeSave (e : t) : t := {|
  Institution := TrimSpace (Institution e);
  Location := TrimSpace (Location e);
  Degree := TrimSpace (Degree e);
  Field_ := TrimSpace (Field_ e);
  StartDate := TrimSpace (StartDate e);
  EndDate := TrimSpace (EndDate e);
  Description := TrimSpace (Description e)
|}.

End Education.

Module Skill.

Definition SkillCategoryOther : bytes := lit "other".

Record t := {
  Name : bytes;
  Category : bytes;
  Proficiency : Z
}.

Definition BeforeSave (s : t) : t :=
  let name := TrimSpace (Name s) in
  let category := TrimSpace (Category s) in
  {| Name := name;
     Category := if bool_decide (category = []) then SkillCategoryOther else category;
     Proficiency := Proficiency s |}.

Definition SkillCategoryLanguage : bytes := lit "language".
Definition SkillCategoryFramework : bytes := lit "framework".
Definition SkillCategoryTool : bytes := lit "tool".
Definition SkillCategoryDatabase : bytes := lit "database".

Definition ValidSkillCategories : gmap bytes bool :=
  list_to_map [(SkillCategoryLanguage, true); (SkillCategoryFramework, true);
               (SkillCategoryTool, true); (SkillCategoryDatabase, true);
               (SkillCategoryOther, true)].

(** [ValidSkillCategories[c]]: a key that is not there reads as false. *)
Definition validCategory (c : bytes) : bool := default false (ValidSkillCategories !! c).

(** [Validate]. The message for a wrong category lists the keys of the
    map in the order the runtime happens to range over it: [keys] is that
    order, what [getSkillCategoryKeys] returned. *)
Definition Validate (keys : list bytes) (s : t) : option ValidationError :=
  if bool_decide (TrimSpace (Name s) = []) then
    Some (NewValidationError (lit "name") (lit "Skill name is required") ErrInvalidField)
  else if bool_decide (Category s <> []) && negb (validCategory (Category s)) then
    Some (NewValidationError (lit "category")
            (lit "Invalid category, must be one of: " ++ Join keys (lit ", "))
            ErrInvalidField)
  else if negb (Proficiency s =? 0)
          && ((Proficiency s <? 1) || (5 <? Proficiency s)) then
    Some (NewValidationError (lit "proficiency")
            (lit "Proficiency must be between 1 and 5") ErrInvalidField)
  else None.

End Skill.

Module Certification.

Record t := {
  Name : bytes;
  Issuer : bytes;
  IssueDate : bytes;
  ExpiryDate : bytes;
  CredentialID : bytes;
  URL : bytes
}.

Definition validateURL `{URLParser} (c : t) : option ValidationError :=
  if bool_decide (URL c <> []) && negb (ParseRequestURI (URL c)) then
    Some (NewValidationError (lit "url") (lit "Invalid URL") ErrInvalidField)
  else None.

Definition Validate `{URLParser} (c : t) : option ValidationError :=
  if bool_decide (TrimSpace (Name c) = []) then
    Some (NewValidationError (lit "name") (lit "Certification name is required") ErrInvalidField)
  else if bool_decide (TrimSpace (Issuer c) = []) then
    Some (NewValidationError (lit "issuer") (lit "Issuer is required") ErrInvalidField)
  else if bool_decide (TrimSpace (IssueDate c) = []) then
    Some (NewValidationError (lit "issue_date") (lit "Issue date is required") ErrInvalidField)
  else if bool_decide (IssueDate c = []) then validateURL c
  else
    match ParseDate (IssueDate c) with
    | None =>
        Some (NewValidationError (lit "issue_date")
                (lit "Invalid issue date format (must be YYYY-MM-DD)") ErrInvalidField)
    | Some issueDate =>
        if bool_decide (ExpiryDate c <> []) && bool_decide (ExpiryDate c <> lit "No Expiration") then
          match ParseDate (ExpiryDate c) with
          | None =>
              Some (NewValidationError (lit "expiry_date")
                      (lit "Invalid expiry date format (must be YYYY-MM-DD or 'No Expiration')")
                      ErrInvalidField)
          | Some expiryDate =>
              if Before expiryDate issueDate then
                Some (NewValidationError (lit "expiry_date")
                        (lit "Expiry date must be after issue date") ErrDateRange)
              else validateURL c
          end
        else validateURL c
    end.

Definition BeforeSave (c : t) : t := {|
  Name := TrimSpace (Name c);
  Issuer := TrimSpace (Issuer c);
  IssueDate := TrimSpace (IssueDate c);
  ExpiryDate := TrimSpace (ExpiryDate c);
  CredentialID := TrimSpace (CredentialID c);
  URL := TrimSpace (URL c)
|}.

End Certification.








End domain.


(* --------------------------------------------------------------------- *)
(** ** pkg/security/csrf.go *)

(** A cookie as [http.SetCookie] receives it. *)
Record Cookie := {
  Name : bytes;
  Value : bytes;
  Path : bytes;
  Domain : bytes;
  MaxAge : Z;
  Secure : bool;
  HttpOnly : bool;
  SameSite : Z
}.

(** The parts of an [http.Request] the middlewares read: the method, the
    cookies sent (name and value, in order), the header, the parsed form
    values (what [FormValue] looks into), the peer address and the path of
    the URL. *)
Record Request := {
  Method : bytes;
  Cookies : list (bytes * bytes);
  ReqHeader : Header;
  Form : list (bytes * bytes);
  RemoteAddr : bytes;
  URLPath : bytes
}.

Fixpoint lookupFirst (name : bytes) (l : list (bytes * bytes)) : option bytes :=
  match l with
  | [] => None
  | (k, v) :: t => if bool_decide (k = name) then Some v else lookupFirst name t
  end.

(** [r.Cookie(name)]: [None] is http.ErrNoCookie. *)
Definition RequestCookie (r : Request) (name : bytes) : option bytes :=
  lookupFirst name (Cookies r).

(** [r.FormValue(key)]: the first value, or the empty string. *)
Definition FormValue (r : Request) (key : bytes) : bytes :=
  match lookupFirst key (Form r) with Some v => v | None => [] end.

(** What a middleware does with a request: it hands it to the next handler,
    after setting the given cookies, or it answers itself with
    [http.Error(w, body, status)]. *)
Inductive handled :=
| CallNext (cookies : list Cookie)
| Reply (status : Z) (body : bytes).

Definition StatusForbidden : Z := 403.
Definition StatusInternalServerError : Z := 500.
Definition SameSiteLaxMode : Z := 2.
Definition SameSiteStrictMode : Z := 3.

Module csrf.

Definition CSRFTokenLength : nat := 32.
Definition CSRFCookieName : bytes := lit "csrf_token".
Definition CSRFHeaderName : bytes := lit "X-CSRF-Token".
Definition CSRFFormField : bytes := lit "csrf_token".

Inductive csrfError := ErrInvalidCSRFToken | ErrMissingCSRFToken.

Record CSRFConfig := {
  Key : bytes;
  CookieSecure : bool;
  CookiePath : bytes;
  CookieDomain : bytes;
  CookieMaxAge : Z;
  CookieSameSite : Z
}.

(** [NewCSRFProtection]: panics on an empty key, fills in the defaults. *)
Definition NewCSRFProtection (config : CSRFConfig) : outcome unit CSRFConfig :=
  if bool_decide (Key config = []) then Panic
  else Ok {|
    Key := Key config;
    CookieSecure := CookieSecure config;
    CookiePath := if bool_decide (CookiePath config = []) then lit "/" else CookiePath config;
    CookieDomain := CookieDomain config;
    CookieMaxAge := if CookieMaxAge config =? 0 then 86400 else CookieMaxAge config;
    CookieSameSite := if CookieSameSite config =? 0 then SameSiteStrictMode
                      else CookieSameSite config |}.

(** The signature of a payload: base64 of its HMAC-SHA256 under the key. *)
Definition signature (key payload : bytes) : bytes :=
  EncodeToString StdEncoding (HMAC_SHA256 key payload).

(** [generateToken]; [None] is the error of [rand.Read]. [now] is
    [time.Now().Unix()]. *)
Definition generateToken (c : CSRFConfig) (random : randSource) (now : Z)
  : option bytes :=
  match randRead random CSRFTokenLength with
  | None => None
  | Some randomBytes =>
      let randomString := EncodeToString StdEncoding randomBytes in
      let payload := randomString ++ lit "|" ++ FormatInt now in
      Some (payload ++ lit "|" ++ signature (Key c) payload)
  end.

(** [validateToken]; [None] is the nil error. *)
Definition validateToken (c : CSRFConfig) (token : bytes) : option csrfError :=
  if bool_decide (token = []) then Some ErrMissingCSRFToken
  else match Split token "|"%char with
       | [randomStr; timestampStr; receivedSignature] =>
           let payload := randomStr ++ lit "|" ++ timestampStr in
           if bytesEqual receivedSignature (signature (Key c) payload)
           then None else Some ErrInvalidCSRFToken
       | _ => Some ErrInvalidCSRFToken
       end.

Definition safeMethod (m : bytes) : bool :=
  bool_decide (m = lit "GET") || bool_decide (m = lit "HEAD")
  || bool_decide (m = lit "OPTIONS") || bool_decide (m = lit "TRACE").

Definition cookiePresent (r : Request) : bool :=
  match RequestCookie r CSRFCookieName with
  | Some v => negb (bool_decide (v = []))
  | None => false
  end.

(** [Middleware]. *)
Definition Middleware (c : CSRFConfig) (random : randSource) (now : Z)
    (r : Request) : handled :=
  if safeMethod (Method r) then
    if cookiePresent r then CallNext []
    else match generateToken c random now with
         | None => Reply StatusInternalServerError (lit "Failed to generate CSRF token")
         | Some token =>
             CallNext [{| Name := CSRFCookieName; Value := token;
                          Path := CookiePath c; Domain := CookieDomain c;
                          MaxAge := CookieMaxAge c; Secure := CookieSecure c;
                          HttpOnly := true; SameSite := CookieSameSite c |}]
         end
  else if negb (cookiePresent r) then Reply StatusForbidden (lit "CSRF token missing")
  else
    let headerToken := HeaderGet (ReqHeader r) CSRFHeaderName in
    let formToken := FormValue r CSRFFormField in
    if negb (bool_decide (headerToken = [])) then
      match validateToken c headerToken with
      | Some _ => Reply StatusForbidden (lit "Invalid CSRF token")
      | None => CallNext []
      end
    else if negb (bool_decide (formToken = [])) then
      match validateToken c formToken with
      | Some _ => Reply StatusForbidden (lit "Invalid CSRF token")
      | None => CallNext []
      end
    else Reply StatusForbidden (lit "CSRF token missing").

(** Sample values: a configuration, a token signed under its key at the
    Unix time 0 from 32 zero bytes, and a POST that carries another value
    in the cookie than in the header. *)
Definition sampleConfig : CSRFConfig := {|
  Key := lit "test-csrf-key-must-be-32-bytes-long!";
  CookieSecure := false; CookiePath := lit "/"; CookieDomain := [];
  CookieMaxAge := 86400; CookieSameSite := SameSiteStrictMode |}.

Definition sampleToken : bytes :=
  lit "AAAAAAAAAAAAAAAAAAAAAAAAAAAAAAAAAAAAAAAAAAA=|0|"
  ++ signature (Key sampleConfig) (lit "AAAAAAAAAAAAAAAAAAAAAAAAAAAAAAAAAAAAAAAAAAA=|0").

Definition samplePost (cookie header : bytes) : Request := {|
  Method := lit "POST";
  Cookies := [(CSRFCookieName, cookie)];
  ReqHeader := HeaderSet ∅ CSRFHeaderName header;
  Form := []; RemoteAddr := lit "203.0.113.7:51234"; URLPath := lit "/" |}.

End csrf.


(* --------------------------------------------------------------------- *)
(** ** pkg/security/password.go *)

Module password.

Inductive hashError :=
| ErrInvalidHash
| ErrIncompatibleVersion
| ErrScan (e : scanError)   (* an error of fmt.Sscanf, returned as it is *)
| ErrBase64                 (* a base64.CorruptInputError, returned as it is *)
| ErrRand.                  (* an error of rand.Read, returned as it is *)

(** Memory, Iterations, SaltLength and KeyLength are uint32, Parallelism is
    uint8. *)
Record Argon2Params := {
  Memory : Z;
  Iterations : Z;
  Parallelism : Z;
  SaltLength : Z;
  KeyLength : Z
}.

Definition wellTyped (p : Argon2Params) : Prop :=
  0 <= Memory p < 2 ^ 32 /\ 0 <= Iterations p < 2 ^ 32
  /\ 0 <= Parallelism p < 2 ^ 8
  /\ 0 <= SaltLength p < 2 ^ 32 /\ 0 <= KeyLength p < 2 ^ 32.

Definition DefaultArgon2Params : Argon2Params := {|
  Memory := 64 * 1024;
  Iterations := 3;
  Parallelism := 4;
  SaltLength := 16;
  KeyLength := 32
|}.

(** [params] of a call, the defaults standing in for nil. *)
Definition orDefault (params : option Argon2Params) : Argon2Params :=
  match params with
  | Some p => p
  | None => DefaultArgon2Params
  end.

(** The format ["$argon2id$v=%d$m=%d,t=%d,p=%d$%s$%s"]. *)
Definition encodeHash (params : Argon2Params) (salt hash : bytes) : bytes :=
  lit "$argon2id$v=" ++ FormatInt argon2Version
  ++ lit "$m=" ++ FormatUint (Memory params)
  ++ lit ",t=" ++ FormatUint (Iterations params)
  ++ lit ",p=" ++ FormatUint (Parallelism params)
  ++ lit "$" ++ EncodeToString RawStdEncoding salt
  ++ lit "$" ++ EncodeToString RawStdEncoding hash.

(** The part of an encoded hash that carries the cost parameters. *)
Definition costPart (p : Argon2Params) : bytes :=
  lit "m=" ++ FormatUint (Memory p) ++ lit ",t=" ++ FormatUint (Iterations p)
  ++ lit ",p=" ++ FormatUint (Parallelism p).

(** The salt a call draws. *)
Definition drawSalt (params : option Argon2Params) (random : randSource)
  : option bytes :=
  randRead random (Z.to_nat (SaltLength (orDefault params))).

Definition HashPassword `{Argon2} (password : bytes)
    (params : option Argon2Params) (random : randSource)
  : outcome hashError bytes :=
  let params' := orDefault params in
  match drawSalt params random with
  | None => Err ErrRand
  | Some salt =>
      match IDKey password salt (Iterations params') (Memory params')
              (Parallelism params') (KeyLength params') with
      | None => Panic
      | Some hash => Ok (encodeHash params' salt hash)
      end
  end.

(** [fmt.Sscanf(s, "v=%d", &version)] with [version] an int. *)
Definition scanVersion (s : bytes) : outcome scanError Z :=
  rest ← matchLiteral (lit "v=") s;
  '(version, _) ← scanInt rest;
  Ok version.

(** [fmt.Sscanf(s, "m=%d,t=%d,p=%d", &memory, &iterations, &parallelism)]
    with two uint32 and a uint8. *)
Definition scanCosts (s : bytes) : outcome scanError (Z * Z * Z) :=
  rest ← matchLiteral (lit "m=") s;
  '(memory, rest) ← scanUint 32 rest;
  rest ← matchLiteral (lit ",t=") rest;
  '(iterations, rest) ← scanUint 32 rest;
  rest ← matchLiteral (lit ",p=") rest;
  '(parallelism, _) ← scanUint 8 rest;
  Ok (memory, iterations, parallelism).

Definition decodeBase64 (s : bytes) : outcome hashError bytes :=
  match DecodeString RawStdEncoding s with
  | Some b => Ok b
  | None => Err ErrBase64
  end.

Definition decodeHash (encodedHash : bytes)
  : outcome hashError (Argon2Params * bytes * bytes) :=
  let parts := Split encodedHash "$"%char in
  if negb (length parts =? 6)%nat then Err ErrInvalidHash
  else
    algorithm ← index parts 1;
    if negb (bool_decide (algorithm = lit "argon2id")) then Err ErrInvalidHash
    else
      versionPart ← index parts 2;
      version ← wrapErr ErrScan (scanVersion versionPart);
      if negb (version =? argon2Version) then Err ErrIncompatibleVersion
      else
        costPart ← index parts 3;
        '(memory, iterations, parallelism) ← wrapErr ErrScan (scanCosts costPart);
        saltPart ← index parts 4;
        salt ← decodeBase64 saltPart;
        hashPart ← index parts 5;
        hash ← decodeBase64 hashPart;
        Ok ({| Memory := memory;
               Iterations := iterations;
               Parallelism := parallelism;
               SaltLength := Z.of_nat (length salt) mod 2 ^ 32;
               KeyLength := Z.of_nat (length hash) mod 2 ^ 32 |},
            salt, hash).

Definition VerifyPassword `{Argon2} (password encodedHash : bytes)
  : outcome hashError bool :=
  '(params, salt, hash) ← decodeHash encodedHash;
  match IDKey password salt (Iterations params) (Memory params)
          (Parallelism params) (KeyLength params) with
  | None => Panic
  | Some computedHash => Ok (bytesEqual hash computedHash)
  end.

(** Sample values. Parameters without a salt, and a stand-in for the key
    derivation for running examples: it repeats one byte that depends on
    the password and the salt. *)
Definition noSaltParams : Argon2Params := {|
  Memory := 64 * 1024; Iterations := 3; Parallelism := 4;
  SaltLength := 0; KeyLength := 32 |}.

Definition customParams : Argon2Params := {|
  Memory := 32 * 1024; Iterations := 2; Parallelism := 2;
  SaltLength := 16; KeyLength := 32 |}.

Definition sampleKey (password salt : bytes) (time memory threads keyLen : Z)
  : option bytes :=
  if (1 <=? time) && (1 <=? threads) && (1 <=? keyLen)
  then Some (repeat (Zbyte (fold_right (fun c acc => byteZ c + 31 * acc) 7
                              (password ++ salt)))
                    (Z.to_nat keyLen))
  else None.

Definition zeroSource : randSource := Some (fun _ => Zbyte 0).
Definition countSource : randSource := Some (fun i => Zbyte (Z.of_nat i)).

End password.


(* --------------------------------------------------------------------- *)
(** ** pkg/security/ratelimit.go *)

(** The Redis server as the limiter uses it: sorted sets (per key, the
    members with their scores) and the time to live set on a key. Scores
    are whole numbers here: the limiter only stores Unix seconds, which
    float64 holds exactly. *)
Record Redis := {
  zsets : gmap (list ascii) (gmap (list ascii) Z);
  ttl : gmap (list ascii) Z
}.

Definition emptyRedis : Redis := {| zsets := ∅; ttl := ∅ |}.

Definition zset (st : Redis) (key : bytes) : gmap (list ascii) Z :=
  default ∅ (zsets st !! key).

(** ZREMRANGEBYSCORE key lo hi: members with [lo <= score <= hi] go; a set
    left empty is deleted with its key. *)
Definition ZRemRangeByScore (st : Redis) (key : bytes) (lo hi : Z) : Redis :=
  let kept := filter (fun kv => negb ((lo <=? snd kv) && (snd kv <=? hi)) = true)
                     (zset st key) in
  if bool_decide (kept = ∅)
  then {| zsets := delete key (zsets st); ttl := delete key (ttl st) |}
  else {| zsets := <[key := kept]> (zsets st); ttl := ttl st |}.

(** ZCARD key. *)
Definition ZCard (st : Redis) (key : bytes) : Z := Z.of_nat (size (zset st key)).

(** ZADD key score member: a member already in the set keeps its place in
    the count and takes the new score. *)
Definition ZAdd (st : Redis) (key : bytes) (score : Z) (member : bytes) : Redis :=
  {| zsets := <[key := <[member := score]> (zset st key)]> (zsets st);
     ttl := ttl st |}.

(** EXPIRE key d, on an existing key. *)
Definition Expire (st : Redis) (key : bytes) (d : Z) : Redis :=
  match zsets st !! key with
  | Some _ => {| zsets := zsets st; ttl := <[key := d]> (ttl st) |}
  | None => st
  end.

(** The four commands [CheckRateLimit] sends; a run says for each whether
    the exchange with the server breaks down. A command that breaks down
    leaves the server as it was. *)
Inductive command := ZRemRangeByScoreCmd | ZCardCmd | ZAddCmd | ExpireCmd.

Definition connected : command -> bool := fun _ => false.

(** [net.SplitHostPort], kept abstract: the host, or [None] for an error. *)
Class NetAddr := { SplitHostPort : bytes -> option bytes }.

Module ratelimit.

Definition Second : Z := 1000000000.
Definition Minute : Z := 60 * Second.

Definition DefaultRateLimit : Z := 100.
Definition DefaultRateInterval : Z := Minute.

Inductive rateError := ErrRateLimitExceeded.

(** [interval] is a time.Duration, in nanoseconds. *)
Record RateLimiter := {
  limit : Z;
  interval : Z
}.

(** [NewRateLimiter], given a Redis client. *)
Definition NewRateLimiter (configLimit configInterval : Z) : RateLimiter := {|
  limit := if configLimit <=? 0 then DefaultRateLimit else configLimit;
  interval := if configInterval <=? 0 then DefaultRateInterval else configInterval
|}.

(** [int64(d.Seconds())]: the whole seconds of a duration. *)
Definition Seconds (d : Z) : Z := Z.quot d Second.

Definition getIPAddress `{NetAddr} (r : Request) : bytes :=
  let xff := HeaderGet (ReqHeader r) (lit "X-Forwarded-For") in
  if negb (bool_decide (xff = [])) then
    match Split xff ","%char with
    | first :: _ => TrimSpace first
    | [] => []
    end
  else
    let xrip := HeaderGet (ReqHeader r) (lit "X-Real-IP") in
    if negb (bool_decide (xrip = [])) then xrip
    else match SplitHostPort (RemoteAddr r) with
         | Some ip => ip
         | None => RemoteAddr r
         end.

Definition getLimitKey `{NetAddr} (r : Request) : bytes :=
  lit "ratelimit:" ++ getIPAddress r ++ lit ":" ++ URLPath r.

(** [CheckRateLimit]: the count and error returned, and the server after
    the call. [now] is [time.Now().Unix()]. *)
Definition CheckRateLimit `{NetAddr} (rl : RateLimiter) (down : command -> bool)
    (st : Redis) (r : Request) (now : Z) : (Z * option rateError) * Redis :=
  let key := getLimitKey r in
  let windowStart := now - Seconds (interval rl) in
  if down ZRemRangeByScoreCmd then ((0, None), st)
  else
    let st := ZRemRangeByScore st key 0 windowStart in
    if down ZCardCmd then ((0, None), st)
    else
      let count := ZCard st key in
      if limit rl <=? count then ((count, Some ErrRateLimitExceeded), st)
      else
        let st := if down ZAddCmd then st else ZAdd st key now (FormatInt now) in
        let st := if down ExpireCmd then st
                  else Expire st key (interval rl + Minute) in
        ((count + 1, None), st).

Definition StatusTooManyRequests : Z := 429.

(** The body of the 429 answer: an object with the members "error" and
    "status". *)
Definition tooManyRequestsBody : bytes :=
  lit "{" ++ quoted "error" ++ lit ":" ++ quoted "Rate limit exceeded"
  ++ lit "," ++ quoted "status" ++ lit ":429}".

(** [Middleware]: the response after it, whether the next handler runs,
    and the server. [now] is the clock of [CheckRateLimit], in seconds;
    [nowNs] is the clock read for the reset header, in nanoseconds. *)
Definition Middleware `{NetAddr} (rl : RateLimiter) (down : command -> bool)
    (st : Redis) (w : ResponseWriter) (r : Request) (now nowNs : Z)
  : (ResponseWriter * bool) * Redis :=
  if bool_decide (Method r = lit "OPTIONS") then ((w, true), st)
  else
    let '((count, err), st) := CheckRateLimit rl down st r now in
    let reset := FormatInt ((nowNs + interval rl) / Second) in
    match err with
    | Some ErrRateLimitExceeded =>
        let w := SetHeader w (lit "X-RateLimit-Limit") (FormatInt (limit rl)) in
        let w := SetHeader w (lit "X-RateLimit-Remaining") (lit "0") in
        let w := SetHeader w (lit "X-RateLimit-Reset") reset in
        let w := SetHeader w (lit "Retry-After") (FormatInt (Seconds (interval rl))) in
        let w := WriteHeader w StatusTooManyRequests in
        let w := SetHeader w (lit "Content-Type") (lit "application/json") in
        let w := WriteBody w tooManyRequestsBody in
        ((w, false), st)
    | None =>
        let w := SetHeader w (lit "X-RateLimit-Limit") (FormatInt (limit rl)) in
        let w := SetHeader w (lit "X-RateLimit-Remaining")
                   (FormatInt (limit rl - count)) in
        let w := SetHeader w (lit "X-RateLimit-Reset") reset in
        ((w, true), st)
    end.

(** Sample values: the default limiter, a request, and an address parser
    that cuts at the first colon, for running examples. *)
Definition defaultLimiter : RateLimiter := NewRateLimiter 0 0.

Definition sampleRequest : Request := {|
  Method := lit "POST"; Cookies := []; ReqHeader := ∅; Form := [];
  RemoteAddr := lit "203.0.113.7:51234"; URLPath := lit "/api/login" |}.

Definition firstColon : NetAddr := {|
  SplitHostPort := fun addr =>
    match Split addr ":"%char with
    | [host; _] => Some host
    | _ => None
    end |}.

Definition sampleKey : bytes := getLimitKey (H := firstColon) sampleRequest.

(** The sample request at the time [t1] on an empty store, and once more at
    the time [t2]. *)
Definition firstCall (t1 : Z) : (Z * option rateError) * Redis :=
  CheckRateLimit (H := firstColon) defaultLimiter connected emptyRedis sampleRequest t1.

Definition secondCall (t1 t2 : Z) : (Z * option rateError) * Redis :=
  CheckRateLimit (H := firstColon) defaultLimiter connected (snd (firstCall t1))
    sampleRequest t2.

(** A sequence of calls for one request, each with its time and its
    network conditions: the answers, in order. *)
Fixpoint serve `{NetAddr} (rl : RateLimiter) (st : Redis) (r : Request)
    (calls : list (Z * (command -> bool))) : list (Z * option rateError) :=
  match calls with
  | [] => []
  | (now, down) :: rest =>
      let '(res, st') := CheckRateLimit rl down st r now in
      res :: serve rl st' r rest
  end.

(** A sequence of calls, each with its own request: the answers, in
    order. *)
Fixpoint serveEach `{NetAddr} (rl : RateLimiter) (st : Redis)
    (calls : list (Request * Z * (command -> bool))) : list (Z * option rateError) :=
  match calls with
  | [] => []
  | (r, now, down) :: rest =>
      let '(res, st') := CheckRateLimit rl down st r now in
      res :: serveEach rl st' rest
  end.

(** [sampleRequest] with the header X-Forwarded-For set. *)
Definition forwardedRequest (xff : bytes) : Request := {|
  Method := Method sampleRequest; Cookies := Cookies sampleRequest;
  ReqHeader := HeaderSet (ReqHeader sampleRequest) (lit "X-Forwarded-For") xff;
  Form := Form sampleRequest; RemoteAddr := RemoteAddr sampleRequest;
  URLPath := URLPath sampleRequest |}.

(** Times that do not go back, from [lo] on. *)
Fixpoint ascending (lo : Z) (times : list Z) : Prop :=
  match times with
  | [] => True
  | t :: rest => lo <= t /\ ascending t rest
  end.

(** The members of a sorted set are the decimals of their scores, which
    lie between 0 and [hi]. *)
Definition ownTimestamps (z : gmap (list ascii) Z) (hi : Z) : Prop :=
  forall member score,
    z !! member = Some score -> member = FormatInt score /\ 0 <= score <= hi.

End ratelimit.


(* --------------------------------------------------------------------- *)
(** ** pkg/auth/jwt.go *)

Module jwt.

Definition TokenTypeAccess : bytes := lit "access".
Definition TokenTypeRefresh : bytes := lit "refresh".
Definition TokenTypeReset : bytes := lit "reset".

Inductive jwtError :=
| ErrTokenExpired
| ErrInvalidToken     (* also the errors that wrap it *)
| ErrWrongTokenType.

(** The durations are in nanoseconds. *)
Record JWTConfig := {
  Secret : bytes;
  AccessTokenExpiry : Z;
  RefreshTokenExpiry : Z;
  ResetTokenExpiry : Z;
  ConfigIssuer : bytes;
  ConfigAudience : bytes
}.

Definition MinuteNs : Z := 60 * SecondNs.
Definition HourNs : Z := 60 * MinuteNs.

Definition DefaultJWTConfig : JWTConfig := {|
  Secret := [];
  AccessTokenExpiry := 15 * MinuteNs;
  RefreshTokenExpiry := 7 * 24 * HourNs;
  ResetTokenExpiry := 1 * HourNs;
  ConfigIssuer := lit "resume_generator";
  ConfigAudience := lit "resume_generator_users"
|}.

(** [NewJWT]: panics without a secret, fills in the defaults. *)
Definition NewJWT (config : JWTConfig) : outcome unit JWTConfig :=
  if bool_decide (Secret config = []) then Panic
  else Ok {|
    Secret := Secret config;
    AccessTokenExpiry :=
      if AccessTokenExpiry config =? 0 then AccessTokenExpiry DefaultJWTConfig
      else AccessTokenExpiry config;
    RefreshTokenExpiry :=
      if RefreshTokenExpiry config =? 0 then RefreshTokenExpiry DefaultJWTConfig
      else RefreshTokenExpiry config;
    ResetTokenExpiry :=
      if ResetTokenExpiry config =? 0 then ResetTokenExpiry DefaultJWTConfig
      else ResetTokenExpiry config;
    ConfigIssuer :=
      if bool_decide (ConfigIssuer config = []) then ConfigIssuer DefaultJWTConfig
      else ConfigIssuer config;
    ConfigAudience :=
      if bool_decide (ConfigAudience config = []) then ConfigAudience DefaultJWTConfig
      else ConfigAudience config |}.

(** The claims [generateToken] signs at the time [now]. *)
Definition newClaims (j : JWTConfig) (now : Z)
    (userID email role tokenType : bytes) (expiry : Z) : JWTClaims := {|
  UserID := userID;
  Email := email;
  Role := role;
  TokenType := tokenType;
  Registered := {|
    ExpiresAt := NewNumericDate (now + expiry);
    IssuedAt := NewNumericDate now;
    NotBefore := NewNumericDate now;
    Issuer := ConfigIssuer j;
    Subject := userID;
    Audience := [ConfigAudience j] |}
|}.

Section with_codec.
Context `{JWTCodec}.

Definition generateToken (j : JWTConfig) (now : Z)
    (userID email role tokenType : bytes) (expiry : Z) : bytes :=
  SignedString (Secret j) (newClaims j now userID email role tokenType expiry).

Definition GenerateAccessToken (j : JWTConfig) (now : Z) (userID email role : bytes)
  : bytes :=
  generateToken j now userID email role TokenTypeAccess (AccessTokenExpiry j).

Definition GenerateRefreshToken (j : JWTConfig) (now : Z) (userID email role : bytes)
  : bytes :=
  generateToken j now userID email role TokenTypeRefresh (RefreshTokenExpiry j).

Definition GenerateResetToken (j : JWTConfig) (now : Z) (userID email : bytes)
  : bytes :=
  generateToken j now userID email [] TokenTypeReset (ResetTokenExpiry j).

(** The key function of [ParseToken]. *)
Definition keyFunc (j : JWTConfig) (method : signingMethod) : option bytes :=
  match method with
  | SigningMethodHMAC _ => Some (Secret j)
  | SigningMethodOther => None
  end.

Definition ParseToken (j : JWTConfig) (now : Z) (tokenString : bytes)
  : outcome jwtError JWTClaims :=
  match ParseWithClaims tokenString (keyFunc j) now with
  | Ok claims => Ok claims
  | Err (ErrTokenInvalidClaims true _) => Err ErrTokenExpired
  | Err _ => Err ErrInvalidToken
  | Panic => Panic
  end.

Definition validateType (tokenType : bytes) (j : JWTConfig) (now : Z)
    (tokenString : bytes) : outcome jwtError JWTClaims :=
  claims ← ParseToken j now tokenString;
  if negb (bool_decide (TokenType claims = tokenType)) then Err ErrWrongTokenType
  else Ok claims.

Definition ValidateAccessToken := validateType TokenTypeAccess.
Definition ValidateRefreshToken := validateType TokenTypeRefresh.
Definition ValidateResetToken := validateType TokenTypeReset.

End with_codec.

(** Sample values: two configurations whose secrets differ by a trailing
    zero byte. *)
Definition sampleJWT : JWTConfig := {|
  Secret := lit "test-secret";
  AccessTokenExpiry := 15 * MinuteNs;
  RefreshTokenExpiry := 7 * 24 * HourNs;
  ResetTokenExpiry := 1 * HourNs;
  ConfigIssuer := lit "resume_generator";
  ConfigAudience := lit "resume_generator_users" |}.


(** A stand-in for the JSON segments, for running examples: the value is
    coded as a number and written with [posBytes]. Text goes through
    unchanged. *)
Definition claimsTuple (c : JWTClaims) :=
  (UserID c, Email c, Role c, TokenType c,
   (ExpiresAt (Registered c), IssuedAt (Registered c), NotBefore (Registered c),
    Issuer (Registered c), Subject (Registered c), Audience (Registered c))).

Definition tupleClaims
    (t : bytes * bytes * bytes * bytes
         * (option Z * option Z * option Z * bytes * bytes * list bytes))
  : JWTClaims :=
  let '(userID, email, role, tokenType, (exp, iat, nbf, iss, sub, aud)) := t in
  {| UserID := userID; Email := email; Role := role; TokenType := tokenType;
     Registered := {| ExpiresAt := exp; IssuedAt := iat; NotBefore := nbf;
                      Issuer := iss; Subject := sub; Audience := aud |} |}.

Definition sampleEncodeHeader (alg : bytes) : bytes := posBytes (encode alg).
Definition sampleDecodeHeader (s : bytes) : option bytes :=
  bytesPos s ≫= decode.
Definition sampleEncodeClaims (c : JWTClaims) : bytes :=
  posBytes (encode (claimsTuple c)).
Definition sampleDecodeClaims (s : bytes) : option JWTClaims :=
  tupleClaims <$> (bytesPos s ≫= decode).

End jwt.

(* --------------------------------------------------------------------- *)
(** ** backend/pkg/security/session.go *)

Module session.

Definition SessionCookieName : bytes := lit "session".

(** The errors of the file, and those of the libraries it passes on. *)
Inductive sessionError :=
| ErrSessionDecryption
| ErrInvalidSession
| ErrSessionExpired
| ErrKeyLength
| ErrNoCookie
| KeySizeError
| ErrRandom
| ErrMarshal
| CorruptInputError
| ErrCiphertextTooShort
| ErrAuthentication.

Definition errorText (e : sessionError) : bytes :=
  match e with
  | ErrSessionDecryption => lit "session decryption failed"
  | ErrInvalidSession => lit "invalid session"
  | ErrSessionExpired => lit "session expired"
  | ErrKeyLength => lit "session encryption key must be 32 bytes"
  | ErrNoCookie => lit "http: named cookie not present"
  | KeySizeError => lit "crypto/aes: invalid key size"
  | ErrRandom => lit "crypto/rand: read failed"
  | ErrMarshal => lit "json: unsupported value"
  | CorruptInputError => lit "illegal base64 data"
  | ErrCiphertextTooShort => lit "ciphertext too short"
  | ErrAuthentication => lit "cipher: message authentication failed"
  end.

Record SessionConfig := {
  Key : bytes;
  CookieSecure : bool;
  CookiePath : bytes;
  CookieDomain : bytes;
  CookieMaxAge : Z;
  CookieSameSite : Z
}.

Record SessionData := {
  UserID : bytes;
  Role : bytes;
  ExpiresAt : Z;
  Data : gmap bytes any
}.

(** A [Session] holds its configuration and nothing else. *)
Abbreviation Session := SessionConfig.

(** [json.Marshal] and [json.Unmarshal] at the type [SessionData], by
    their contract: what was written is read back as JSON carries it. The
    expiry keeps its instant. *)
Definition throughJSON (d : SessionData) : SessionData := {|
  UserID := coerceUTF8 (UserID d);
  Role := coerceUTF8 (Role d);
  ExpiresAt := ExpiresAt d;
  Data := anyThroughJSON <$> Data d |}.

Class JSON := {
  Marshal : SessionData -> option bytes;
  Unmarshal : bytes -> option SessionData;
  Unmarshal_Marshal : forall d j,
    Marshal d = Some j -> plainKeys (Map (Data d)) ->
    Unmarshal j = Some (throughJSON d)
}.

Definition NewSession (config : SessionConfig) : outcome sessionError Session :=
  if negb (length (Key config) =? 32)%nat then Err ErrKeyLength
  else
    let config :=
      if bool_decide (CookiePath config = [])
      then {| Key := Key config; CookieSecure := CookieSecure config;
              CookiePath := lit "/"; CookieDomain := CookieDomain config;
              CookieMaxAge := CookieMaxAge config;
              CookieSameSite := CookieSameSite config |}
      else config in
    let config :=
      if CookieMaxAge config =? 0
      then {| Key := Key config; CookieSecure := CookieSecure config;
              CookiePath := CookiePath config; CookieDomain := CookieDomain config;
              CookieMaxAge := 86400;
              CookieSameSite := CookieSameSite config |}
      else config in
    let config :=
      if CookieSameSite config =? 0
      then {| Key := Key config; CookieSecure := CookieSecure config;
              CookiePath := CookiePath config; CookieDomain := CookieDomain config;
              CookieMaxAge := CookieMaxAge config;
              CookieSameSite := SameSiteLaxMode |}
      else config in
    Ok config.

Section with_libraries.
Context `{AESGCM} `{JSON}.

Definition encrypt (s : Session) (random : randSource) (plaintext : bytes)
  : outcome sessionError bytes :=
  if negb (validKeySize (length (Key s))) then Err KeySizeError
  else
    match randRead random gcmNonceSize with
    | None => Err ErrRandom
    | Some nonce =>
        let ciphertext := nonce ++ gcmSeal (Key s) nonce plaintext in
        Ok (EncodeToString StdEncoding ciphertext)
    end.

Definition decrypt (s : Session) (encryptedData : bytes)
  : outcome sessionError bytes :=
  match DecodeString StdEncoding encryptedData with
  | None => Err CorruptInputError
  | Some ciphertext =>
      if negb (validKeySize (length (Key s))) then Err KeySizeError
      else
        let nonceSize := gcmNonceSize in
        if (length ciphertext <? nonceSize)%nat then Err ErrCiphertextTooShort
        else
          let nonce := take nonceSize ciphertext in
          let ciphertext := drop nonceSize ciphertext in
          match gcmOpen (Key s) nonce ciphertext with
          | None => Err ErrAuthentication
          | Some plaintext => Ok plaintext
          end
  end.

(** [Create]: the cookie handed to [http.SetCookie], or the error. [now]
    is what [time.Now()] returns. *)
Definition Create (s : Session) (random : randSource) (now : Z)
    (sessionData : SessionData) : outcome sessionError Cookie :=
  let sessionData :=
    if IsZero (ExpiresAt sessionData)
    then {| UserID := UserID sessionData; Role := Role sessionData;
            ExpiresAt := now + secondsDuration (CookieMaxAge s);
            Data := Data sessionData |}
    else sessionData in
  match Marshal sessionData with
  | None => Err ErrMarshal
  | Some jsonData =>
      encryptedData ← encrypt s random jsonData;
      Ok {| Name := SessionCookieName;
            Value := encryptedData;
            Path := CookiePath s;
            Domain := CookieDomain s;
            MaxAge := CookieMaxAge s;
            Secure := CookieSecure s;
            HttpOnly := true;
            SameSite := CookieSameSite s |}
  end.

(** [Get]: the session data, or the error. The data returned along with
    an error is not kept. *)
Definition Get (s : Session) (now : Z) (r : Request)
  : outcome sessionError SessionData :=
  match RequestCookie r SessionCookieName with
  | None => Err ErrNoCookie
  | Some value =>
      match decrypt s value with
      | Ok jsonData =>
          match Unmarshal jsonData with
          | None => Err ErrInvalidSession
          | Some sessionData =>
              if After now (ExpiresAt sessionData) then Err ErrSessionExpired
              else Ok sessionData
          end
      | Err _ => Err ErrSessionDecryption
      | Panic => Panic
      end
  end.

End with_libraries.

Definition Clear (s : Session) : Cookie := {|
  Name := SessionCookieName;
  Value := [];
  Path := CookiePath s;
  Domain := CookieDomain s;
  MaxAge := -1;
  Secure := CookieSecure s;
  HttpOnly := true;
  SameSite := CookieSameSite s |}.

(** session_context.go. Of a [context.Context] the session functions see
    the value under their own key: [None] when there is none. *)
Abbreviation Context := (option SessionData).

Definition SetSessionContext (ctx : Context) (sessionData : SessionData) : Context :=
  Some sessionData.

Definition zeroSessionData : SessionData :=
  {| UserID := []; Role := []; ExpiresAt := zeroTime; Data := ∅ |}.

Definition GetSessionFromContext (ctx : Context) : SessionData * bool :=
  match ctx with
  | Some sessionData => (sessionData, true)
  | None => (zeroSessionData, false)
  end.

Definition IsAuthenticated (ctx : Context) : bool :=
  let '(sessionData, ok) := GetSessionFromContext ctx in
  ok && negb (bool_decide (UserID sessionData = [])).

Definition GetUserID (ctx : Context) : bytes :=
  let '(sessionData, ok) := GetSessionFromContext ctx in
  if negb ok then [] else UserID sessionData.

Definition GetUserRole (ctx : Context) : bytes :=
  let '(sessionData, ok) := GetSessionFromContext ctx in
  if negb ok then [] else Role sessionData.

Definition HasRole (ctx : Context) (role : bytes) : bool :=
  let '(sessionData, ok) := GetSessionFromContext ctx in
  ok && bool_decide (Role sessionData = role).

(** [errors.Is] on these errors is equality. *)
#[global] Instance sessionError_eq_dec : EqDecision sessionError.
Proof. solve_decision. Defined.

(** [Middleware]: the next handler always runs; what it is handed is the
    cookies set on the response before and the context of the request. *)
Definition Middleware `{AESGCM} `{JSON} (s : Session) (now : Z) (ctx : Context)
    (r : Request) : outcome unit (list Cookie * Context) :=
  match Get s now r with
  | Err err =>
      if bool_decide (err = ErrSessionDecryption)
         || bool_decide (err = ErrInvalidSession)
         || bool_decide (errorText err = lit "session expired")
      then Ok ([Clear s], ctx)
      else Ok ([], ctx)
  | Ok sessionData => Ok ([], SetSessionContext ctx sessionData)
  | Panic => Panic
  end.

(** Stand-ins for the two libraries, for running examples. The cipher
    puts sixteen bytes of key and nonce in front of the text and checks
    them on opening. The serialiser takes custom data without slices, maps
    and floating-point numbers, and reads back as JSON would. *)
Definition sampleSeal (key nonce plaintext : bytes) : bytes :=
  take 16 (key ++ nonce) ++ plaintext.

Definition sampleOpen (key nonce ciphertext : bytes) : option bytes :=
  if bool_decide (take 16 ciphertext = take 16 (key ++ nonce))
  then Some (drop 16 ciphertext)
  else None.

Definition toScalar (v : any) : option (option (bool + (Z + bytes))) :=
  match v with
  | Nil => Some None
  | Bool b => Some (Some (inl b))
  | Int n => Some (Some (inr (inl n)))
  | Str s => Some (Some (inr (inr s)))
  | _ => None
  end.

Definition ofScalar (x : option (bool + (Z + bytes))) : any :=
  match x with
  | None => Nil
  | Some (inl b) => Bool b
  | Some (inr (inl n)) => Int n
  | Some (inr (inr s)) => Str s
  end.

Definition sampleMarshal (d : SessionData) : option bytes :=
  l ← mapM (fun kv => pair (fst kv) <$> toScalar (snd kv)) (map_to_list (Data d));
  Some (posBytes (encode (UserID d, Role d, ExpiresAt d, l))).

Definition sampleUnmarshal (j : bytes) : option SessionData :=
  t ← bytesPos j ≫= decode;
  let '(userID, role, expiresAt, l) := t in
  Some (throughJSON {|
    UserID := userID; Role := role; ExpiresAt := expiresAt;
    Data := list_to_map (prod_map id ofScalar <$> l) |}).

(** The request a client sends after it was handed the cookie. *)
Definition requestWith (c : Cookie) : Request := {|
  Method := lit "GET";
  Cookies := [(Name c, sanitizeCookieValue (Value c))];
  ReqHeader := ∅;
  Form := [];
  RemoteAddr := lit "192.0.2.1:1234";
  URLPath := lit "/" |}.

(** Sample values: a 32-byte key and the payload of the tests, once with
    strings only and once with a counter among the custom data. *)
Definition sampleKey : bytes := lit "0123456789abcdef0123456789abcdef".

Definition sampleSession : Session := {|
  Key := sampleKey; CookieSecure := true; CookiePath := lit "/";
  CookieDomain := []; CookieMaxAge := 3600; CookieSameSite := SameSiteStrictMode |}.

Definition sampleData (expiresAt : Z) : SessionData := {|
  UserID := lit "user123"; Role := lit "admin"; ExpiresAt := expiresAt;
  Data := {[ lit "key" := Str (lit "value") ]} |}.

Definition counterData (expiresAt : Z) : SessionData := {|
  UserID := lit "user123"; Role := lit "admin"; ExpiresAt := expiresAt;
  Data := {[ lit "visits" := Int 3 ]} |}.

End session.

(* --------------------------------------------------------------------- *)
(** ** pkg/security/cors.go *)

Module cors.

Definition StatusNoContent : Z := 204.

Record CORSConfig := {
  AllowedOrigins : list bytes;
  AllowedMethods : list bytes;
  AllowedHeaders : list bytes;
  AllowCredentials : bool;
  MaxAge : Z
}.

Definition DefaultCORSConfig : CORSConfig := {|
  AllowedOrigins := [lit "http://localhost:5173"];
  AllowedMethods := map lit ["GET"; "POST"; "PUT"; "DELETE"; "OPTIONS"; "PATCH"]%string;
  AllowedHeaders := map lit ["Content-Type"; "Authorization"; "X-CSRF-Token";
                             "X-Requested-With"]%string;
  AllowCredentials := true;
  MaxAge := 86400
|}.

Definition joinStrings (strings : list bytes) (separator : bytes) : bytes :=
  match strings with
  | [] => []
  | first :: rest => fold_left (fun result s => result ++ separator ++ s) rest first
  end.

(** The loop over the allowed origins. *)
Definition originAllowed (config : CORSConfig) (origin : bytes) : bool :=
  existsb (fun allowedOrigin =>
             bool_decide (allowedOrigin = lit "*") || bool_decide (allowedOrigin = origin))
          (AllowedOrigins config).

(** [CORSMiddleware(config)]: the response header after it, and the status
    it answers with itself ([None]: the next handler runs). *)
Definition CORSMiddleware (config : CORSConfig) (w : Header) (r : Request)
  : Header * option Z :=
  let origin := HeaderGet (ReqHeader r) (lit "Origin") in
  let w := if originAllowed config origin
           then HeaderSet w (lit "Access-Control-Allow-Origin") origin else w in
  let w := if AllowCredentials config
           then HeaderSet w (lit "Access-Control-Allow-Credentials") (lit "true")
           else w in
  let w := if (0 <? length (AllowedHeaders config))%nat
           then HeaderSet w (lit "Access-Control-Allow-Headers")
                  (joinStrings (AllowedHeaders config) (lit ", "))
           else w in
  let w := if (0 <? length (AllowedMethods config))%nat
           then HeaderSet w (lit "Access-Control-Allow-Methods")
                  (joinStrings (AllowedMethods config) (lit ", "))
           else w in
  let w := if 0 <? MaxAge config
           then HeaderSet w (lit "Access-Control-Max-Age") (FormatInt (MaxAge config))
           else w in
  if bool_decide (Method r = lit "OPTIONS") then
    let w := HeaderAdd w (lit "Vary") (lit "Origin") in
    let w := HeaderAdd w (lit "Vary") (lit "Access-Control-Request-Method") in
    let w := HeaderAdd w (lit "Vary") (lit "Access-Control-Request-Headers") in
    (w, Some StatusNoContent)
  else (w, None).

(** A sample request from a given origin. *)
Definition requestFrom (method origin : bytes) : Request := {|
  Method := method; Cookies := [];
  ReqHeader := HeaderSet ∅ (lit "Origin") origin;
  Form := []; RemoteAddr := lit "203.0.113.7:51234"; URLPath := lit "/api" |}.

End cors.


(* --------------------------------------------------------------------- *)
(** ** internal/service/auth.go: the access token of a request *)

Module service.

Inductive serviceError := ErrExpiredToken | ErrInvalidToken.

(** [AuthService.ValidateAccessToken]: the errors of pkg/auth are mapped
    to the two of the service. *)
Definition ValidateAccessToken `{JWTCodec} (j : jwt.JWTConfig) (now : Z)
    (accessToken : bytes) : outcome serviceError JWTClaims :=
  match jwt.ValidateAccessToken j now accessToken with
  | Ok claims => Ok claims
  | Err jwt.ErrTokenExpired => Err ErrExpiredToken
  | Err _ => Err ErrInvalidToken
  | Panic => Panic
  end.

End service.


(* --------------------------------------------------------------------- *)
(** ** internal/handler: response.go and the authentication middleware *)

Module handler.

Definition StatusUnauthorized : Z := 401.
Definition StatusForbidden : Z := 403.

(** An [ErrorResponse] without details as encoding/json writes it: the
    status is left out (tag "-"), the details are omitted when empty. The
    messages and codes are the literals of the callers. *)
Definition errorBody (message code : string) : bytes :=
  lit "{" ++ quoted "error" ++ lit ":" ++ quoted message
  ++ lit "," ++ quoted "code" ++ lit ":" ++ quoted code ++ lit "}".

(** [respondWithError] through [respondWithJSON]; marshalling an
    [ErrorResponse] of two strings does not fail. *)
Definition respondWithError (w : ResponseWriter) (status : Z) (message code : string)
  : ResponseWriter :=
  let w := SetHeader w (lit "Content-Type") (lit "application/json") in
  let w := WriteHeader w status in
  WriteBody w (errorBody message code).

Inductive headerError := NoAuthorizationHeader | InvalidAuthorizationFormat.

(** [extractTokenFromHeader]: the error, or the token. *)
Definition extractTokenFromHeader (r : Request) : headerError + bytes :=
  let authHeader := HeaderGet (ReqHeader r) (lit "Authorization") in
  if bool_decide (authHeader = []) then inl NoAuthorizationHeader
  else
    let parts := Split authHeader " "%char in
    if negb (length parts =? 2)%nat
       || negb (bool_decide (nth 0 parts [] = lit "Bearer"))
    then inl InvalidAuthorizationFormat
    else inr (nth 1 parts []).

(** The request context as the middleware uses it: the claims stored under
    [claimsContextKey], if any. *)
Abbreviation Context := (option JWTClaims).

(** [AuthRequired]: the response after it and, when the next handler runs,
    the context it runs with. *)
Definition AuthRequired `{JWTCodec} (j : jwt.JWTConfig) (now : Z)
    (w : ResponseWriter) (r : Request) (ctx : Context)
  : outcome unit (ResponseWriter * option Context) :=
  match extractTokenFromHeader r with
  | inl _ =>
      Ok (respondWithError w StatusUnauthorized "Unauthorized" "INVALID_TOKEN", None)
  | inr token =>
      match service.ValidateAccessToken j now token with
      | Err service.ErrExpiredToken =>
          Ok (respondWithError w StatusUnauthorized "Token expired" "TOKEN_EXPIRED",
              None)
      | Err _ =>
          Ok (respondWithError w StatusUnauthorized "Invalid token" "INVALID_TOKEN",
              None)
      | Ok claims => Ok (w, Some (Some claims))
      | Panic => Panic
      end
  end.

(** [RequireRole role]: the response after it, and whether the next handler
    runs. *)
Definition RequireRole (role : bytes) (w : ResponseWriter) (ctx : Context)
  : ResponseWriter * bool :=
  match ctx with
  | None => (respondWithError w StatusUnauthorized "Unauthorized" "UNAUTHORIZED", false)
  | Some claims =>
      if negb (bool_decide (Role claims = role))
      then (respondWithError w StatusForbidden "Forbidden" "FORBIDDEN", false)
      else (w, true)
  end.

(** A request with an Authorization header, for running examples. *)
Definition authorized (value : bytes) : Request := {|
  Method := lit "GET"; Cookies := [];
  ReqHeader := HeaderSet ∅ (lit "Authorization") value; Form := [];
  RemoteAddr := lit "203.0.113.7:51234"; URLPath := lit "/api/resumes" |}.

End handler.

(* ===================================================================== *)
(** * Part III: lemmas and theorems *)
(* ===================================================================== *)

(* --------------------------------------------------------------------- *)
(** ** Test vectors for the library models *)

Section test_vectors.

(** FIPS 180-4, one-block and two-block messages. *)
Example Sum256_abc :
  hexString (Sum256 (lit "abc"))
  = lit "ba7816bf8f01cfea414140de5dae2223b00361a396177a9cb410ff61f20015ad".
Proof. vm_compute. reflexivity. Qed.

Example Sum256_empty :
  hexString (Sum256 [])
  = lit "e3b0c44298fc1c149afbf4c8996fb92427ae41e4649b934ca495991b7852b855".
Proof. vm_compute. reflexivity. Qed.

Example Sum256_two_blocks :
  hexString (Sum256 (lit "abcdbcdecdefdefgefghfghighijhijkijkljklmklmnlmnomnopnopq"))
  = lit "248d6a61d20638b8e5c026930c3e6039a33ce45964ff2167f6ecedd419db06c1".
Proof. vm_compute. reflexivity. Qed.

(** RFC 4231, test case 2. *)
Example HMAC_SHA256_rfc4231 :
  hexString (HMAC_SHA256 (lit "Jefe") (lit "what do ya want for nothing?"))
  = lit "5bdcc146bf60754e6a042426089575c75a003f089d2739839dec58b964ec3843".
Proof. vm_compute. reflexivity. Qed.

(** RFC 4648, section 10. *)
Example base64_rfc4648 :
  EncodeToString StdEncoding (lit "foobar") = lit "Zm9vYmFy"
  /\ EncodeToString StdEncoding (lit "fooba") = lit "Zm9vYmE="
  /\ EncodeToString StdEncoding (lit "foob") = lit "Zm9vYg=="
  /\ EncodeToString RawStdEncoding (lit "foob") = lit "Zm9vYg"
  /\ DecodeString StdEncoding (lit "Zm9vYg==") = Some (lit "foob")
  /\ DecodeString StdEncoding (lit "Zm9vYg=") = None
  /\ DecodeString RawStdEncoding (lit "Zm9vYmE=") = None
  /\ DecodeString RawStdEncoding (lit "Z") = None.
Proof. repeat split. Qed.

Example ParseDate_examples :
  ParseDate (lit "1970-01-01") = Some 0
  /\ ParseDate (lit "2000-03-01") = Some (11017 * 86400)
  /\ ParseDate (lit "2024-02-29") = Some (19782 * 86400)
  /\ ParseDate (lit "2023-02-29") = None
  /\ ParseDate (lit "2023-1-01") = None
  /\ ParseDate (lit "Present") = None.
Proof. repeat split. Qed.

Example TrimSpace_examples :
  TrimSpace (lit "  a b  ") = lit "a b"
  /\ TrimSpace [" "%char; Zbyte 0xC2; Zbyte 0xA0; "x"%char; Zbyte 0xE3; Zbyte 0x80; Zbyte 0x80]
     = ["x"%char].
Proof. split; vm_compute; reflexivity. Qed.

Example scan_examples :
  scanInt (lit "19") = Ok (19, [])
  /\ scanInt (lit " -19abc") = Ok (-19, lit "abc")
  /\ scanInt (lit "9223372036854775808") = Err ErrRange
  /\ scanUint 8 (lit "256") = Err ErrOverflow
  /\ scanUint 32 (lit "-1") = Err ErrExpectedInteger
  /\ FormatInt (-42) = lit "-42"
  /\ FormatUint (2 ^ 64 - 1) = lit "18446744073709551615".
Proof. repeat split. Qed.

End test_vectors.

Module headers_facts.
Import headers.

Lemma StatusText_unknown code :
  code < 100 \/ 511 < code -> StatusText code = [].
Proof.
  intros H. unfold StatusText.
  destruct code as [|p|p]; try reflexivity.
  do 10 (destruct p as [p|p|]; try reflexivity; try lia).
Qed.

(** C2 on the code. With the default configuration the header is written,
    but its max-age is empty: the number goes through [http.StatusText],
    which knows no status 31536000, and not through a decimal conversion.
    The value the claim expects is not what the response carries. *)
Theorem hsts_default_header :
  HeaderGet (SecurityHeaders DefaultHeadersConfig ∅) (lit "Strict-Transport-Security")
  = lit "max-age=; includeSubDomains; preload"
  /\ HeaderGet (SecurityHeaders DefaultHeadersConfig ∅) (lit "Strict-Transport-Security")
     <> lit "max-age=31536000; includeSubDomains; preload".
Proof. split; [vm_compute; reflexivity | vm_compute; discriminate]. Qed.

(** The same for any header map and any max-age above the status codes. *)
Lemma hsts_value_large (config : HeadersConfig) :
  HSTS config = true -> 511 < HSTSMaxAge config ->
  HSTSIncludeSubdomains config = true -> HSTSPreload config = true ->
  hstsValue config = lit "max-age=; includeSubDomains; preload".
Proof.
  intros _ Hm Hs Hp. unfold hstsValue.
  rewrite Hs, Hp, StatusText_unknown by lia.
  replace (0 <? HSTSMaxAge config) with true by (symmetry; apply Z.ltb_lt; lia).
  reflexivity.
Qed.

End headers_facts.

(* --------------------------------------------------------------------- *)
(** ** strings.TrimSpace *)

Section trim_facts.

(** Induction on the length of a string, for functions that peel off one
    to three bytes at a time. *)
Lemma bytes_length_ind (P : bytes -> Prop) :
  (forall s, (forall t, (length t < length s)%nat -> P t) -> P s) ->
  forall s, P s.
Proof.
  intros IH s.
  assert (H : forall n t, (length t < n)%nat -> P t).
  { induction n as [|n IHn]; intros t Ht; [lia|].
    apply IH. intros u Hu. apply IHn. lia. }
  apply (H (S (length s))). lia.
Qed.

Lemma trimLeft_eq a t1 :
  trimLeft (a :: t1) =
  if space1 a then trimLeft t1
  else match t1 with
       | [] => a :: t1
       | b :: t2 =>
           if space2 a b then trimLeft t2
           else match t2 with
                | [] => a :: t1
                | c :: t3 => if space3 a b c then trimLeft t3 else a :: t1
                end
       end.
Proof. reflexivity. Qed.

Lemma trimLeftRev_eq c t1 :
  trimLeftRev (c :: t1) =
  if space1 c then trimLeftRev t1
  else match t1 with
       | [] => c :: t1
       | b :: t2 =>
           if space2 b c then trimLeftRev t2
           else match t2 with
                | [] => c :: t1
                | a :: t3 => if space3 a b c then trimLeftRev t3 else c :: t1
                end
       end.
Proof. reflexivity. Qed.

Lemma trimLeft_fixed s : startsWithSpace s = false -> trimLeft s = s.
Proof.
  destruct s as [|a [|b [|c t]]]; simpl; intros H;
    repeat (apply orb_false_iff in H; destruct H as [? H]);
    repeat match goal with E : _ = false |- _ => rewrite E; clear E end;
    try rewrite H; reflexivity.
Qed.

Lemma trimLeft_head s : startsWithSpace (trimLeft s) = false.
Proof.
  induction s as [s IH] using bytes_length_ind.
  destruct s as [|a [|b [|c t]]];
    [reflexivity | rewrite trimLeft_eq; cbv beta iota ..].
  - destruct (space1 a) eqn:E1; simpl; [reflexivity | now rewrite E1].
  - destruct (space1 a) eqn:E1; [apply IH; simpl; lia|].
    destruct (space2 a b) eqn:E2; [reflexivity|].
    simpl. now rewrite E1, E2.
  - destruct (space1 a) eqn:E1; [apply IH; simpl; lia|].
    destruct (space2 a b) eqn:E2; [apply IH; simpl; lia|].
    destruct (space3 a b c) eqn:E3; [apply IH; simpl; lia|].
    simpl. now rewrite E1, E2, E3.
Qed.

Lemma trimLeft_suffix s : exists d, s = d ++ trimLeft s.
Proof.
  induction s as [s IH] using bytes_length_ind.
  destruct s as [|a [|b [|c t]]];
    [now exists [] | rewrite trimLeft_eq; cbv beta iota ..].
  - destruct (space1 a); [now exists [a] | now exists []].
  - destruct (space1 a).
    { destruct (IH [b]) as [d Hd]; [simpl; lia|].
      exists (a :: d). rewrite <- !app_comm_cons. now rewrite <- Hd. }
    destruct (space2 a b); [now exists [a; b] | now exists []].
  - destruct (space1 a).
    { destruct (IH (b :: c :: t)) as [d Hd]; [simpl; lia|].
      exists (a :: d). rewrite <- !app_comm_cons. now rewrite <- Hd. }
    destruct (space2 a b).
    { destruct (IH (c :: t)) as [d Hd]; [simpl; lia|].
      exists (a :: b :: d). rewrite <- !app_comm_cons. now rewrite <- Hd. }
    destruct (space3 a b c); [|now exists []].
    destruct (IH t) as [d Hd]; [simpl; lia|].
    exists (a :: b :: c :: d). rewrite <- !app_comm_cons. now rewrite <- Hd.
Qed.

Lemma startsWithSpace_prefix p q :
  startsWithSpace (p ++ q) = false -> startsWithSpace p = false.
Proof.
  destruct p as [|a [|b [|c p]]]; simpl; try reflexivity; try tauto.
  - destruct q as [|b [|c q]]; simpl; intros H;
      repeat (apply orb_false_iff in H; destruct H as [? H]);
      now rewrite orb_false_r.
  - destruct q as [|c q]; simpl; intros H;
      repeat (apply orb_false_iff in H; destruct H as [? H]);
      repeat match goal with E : _ = false |- _ => rewrite E; clear E end;
      reflexivity.
Qed.

Lemma trimLeftRev_fixed s : startsWithSpaceRev s = false -> trimLeftRev s = s.
Proof.
  destruct s as [|a [|b [|c t]]]; simpl; intros H;
    repeat (apply orb_false_iff in H; destruct H as [? H]);
    repeat match goal with E : _ = false |- _ => rewrite E; clear E end;
    try rewrite H; reflexivity.
Qed.

Lemma trimLeftRev_head s : startsWithSpaceRev (trimLeftRev s) = false.
Proof.
  induction s as [s IH] using bytes_length_ind.
  destruct s as [|c [|b [|a t]]];
    [reflexivity | rewrite trimLeftRev_eq; cbv beta iota ..].
  - destruct (space1 c) eqn:E1; simpl; [reflexivity | now rewrite E1].
  - destruct (space1 c) eqn:E1; [apply IH; simpl; lia|].
    destruct (space2 b c) eqn:E2; [reflexivity|].
    simpl. now rewrite E1, E2.
  - destruct (space1 c) eqn:E1; [apply IH; simpl; lia|].
    destruct (space2 b c) eqn:E2; [apply IH; simpl; lia|].
    destruct (space3 a b c) eqn:E3; [apply IH; simpl; lia|].
    simpl. now rewrite E1, E2, E3.
Qed.

Lemma trimLeftRev_suffix s : exists d, s = d ++ trimLeftRev s.
Proof.
  induction s as [s IH] using bytes_length_ind.
  destruct s as [|c [|b [|a t]]];
    [now exists [] | rewrite trimLeftRev_eq; cbv beta iota ..].
  - destruct (space1 c); [now exists [c] | now exists []].
  - destruct (space1 c).
    { destruct (IH [b]) as [d Hd]; [simpl; lia|].
      exists (c :: d). rewrite <- !app_comm_cons. now rewrite <- Hd. }
    destruct (space2 b c); [now exists [c; b] | now exists []].
  - destruct (space1 c).
    { destruct (IH (b :: a :: t)) as [d Hd]; [simpl; lia|].
      exists (c :: d). rewrite <- !app_comm_cons. now rewrite <- Hd. }
    destruct (space2 b c).
    { destruct (IH (a :: t)) as [d Hd]; [simpl; lia|].
      exists (c :: b :: d). rewrite <- !app_comm_cons. now rewrite <- Hd. }
    destruct (space3 a b c); [|now exists []].
    destruct (IH t) as [d Hd]; [simpl; lia|].
    exists (c :: b :: a :: d). rewrite <- !app_comm_cons. now rewrite <- Hd.
Qed.

(** Trimming on the right returns a prefix. *)
Lemma trimRight_prefix s : exists d, s = trimRight s ++ d.
Proof.
  unfold trimRight. destruct (trimLeftRev_suffix (rev s)) as [d Hd].
  exists (rev d). rewrite <- rev_app_distr, <- Hd. now rewrite rev_involutive.
Qed.

Lemma trimRight_idem s : trimRight (trimRight s) = trimRight s.
Proof.
  unfold trimRight. rewrite rev_involutive.
  now rewrite (trimLeftRev_fixed _ (trimLeftRev_head _)).
Qed.

(** What [TrimSpace] returns neither begins nor ends with a space, and
    such a string is left alone. *)
Lemma TrimSpace_head s : startsWithSpace (TrimSpace s) = false.
Proof.
  unfold TrimSpace. destruct (trimRight_prefix (trimLeft s)) as [d Hd].
  apply startsWithSpace_prefix with d. rewrite <- Hd. apply trimLeft_head.
Qed.

Lemma TrimSpace_idem s : TrimSpace (TrimSpace s) = TrimSpace s.
Proof.
  unfold TrimSpace at 1.
  rewrite (trimLeft_fixed _ (TrimSpace_head s)).
  unfold TrimSpace. apply trimRight_idem.
Qed.

Lemma TrimSpace_fixed s :
  startsWithSpace s = false -> startsWithSpaceRev (rev s) = false ->
  TrimSpace s = s.
Proof.
  intros H1 H2. unfold TrimSpace, trimRight.
  rewrite (trimLeft_fixed _ H1), (trimLeftRev_fixed _ H2).
  apply rev_involutive.
Qed.

End trim_facts.

(* --------------------------------------------------------------------- *)
(** ** Comparisons on byte values *)

(** Decide every integer comparison of the goal from the hypotheses. *)
Ltac zcmp :=
  repeat match goal with
  | |- context [Z.leb ?a ?b] =>
      first [ replace (Z.leb a b) with true by (symmetry; apply Z.leb_le; lia)
            | replace (Z.leb a b) with false by (symmetry; apply Z.leb_gt; lia) ]
  | |- context [Z.ltb ?a ?b] =>
      first [ replace (Z.ltb a b) with true by (symmetry; apply Z.ltb_lt; lia)
            | replace (Z.ltb a b) with false by (symmetry; apply Z.ltb_ge; lia) ]
  | |- context [Z.eqb ?a ?b] =>
      first [ replace (Z.eqb a b) with true by (symmetry; apply Z.eqb_eq; lia)
            | replace (Z.eqb a b) with false by (symmetry; apply Z.eqb_neq; lia) ]
  end.

Lemma byte_in_spec lo hi c : byte_in lo hi c = true <-> lo <= byteZ c <= hi.
Proof. unfold byte_in. rewrite andb_true_iff, Z.leb_le, Z.leb_le. tauto. Qed.

Lemma byteZ_range c : 0 <= byteZ c < 256.
Proof.
  unfold byteZ. pose proof (N_ascii_bounded c) as H.
  split; [apply N2Z.is_nonneg|]. apply (N2Z.inj_lt _ 256%N) in H. exact H.
Qed.

Lemma byteZ_inj a b : byteZ a = byteZ b -> a = b.
Proof.
  unfold byteZ. intros H. apply N2Z.inj in H.
  rewrite <- (ascii_N_embedding a), <- (ascii_N_embedding b). now rewrite H.
Qed.

Lemma byteZ_Zbyte z : 0 <= z < 256 -> byteZ (Zbyte z) = z.
Proof.
  intros H. unfold byteZ, Zbyte. rewrite Z.mod_small by lia.
  rewrite N_ascii_embedding; [apply Z2N.id; lia|].
  apply (Z2N.inj_lt z 256); lia.
Qed.

(* --------------------------------------------------------------------- *)
(** ** Dates *)

Section date_facts.

Lemma digit_space1 c : isDigit c = true -> space1 c = false.
Proof.
  unfold isDigit. rewrite byte_in_spec. intros H.
  unfold space1, IsSpace. zcmp. reflexivity.
Qed.

Lemma digit_space2_l c b : isDigit c = true -> space2 c b = false.
Proof.
  unfold isDigit. rewrite byte_in_spec. intros H.
  unfold space2, rune2, byte_in. zcmp. reflexivity.
Qed.

Lemma digit_space2_r b c : isDigit c = true -> space2 b c = false.
Proof.
  unfold isDigit. rewrite byte_in_spec. intros H.
  unfold space2, rune2, isCont. unfold byte_in at 2. zcmp.
  now rewrite andb_false_r.
Qed.

Lemma digit_space3_l c a b : isDigit c = true -> space3 c a b = false.
Proof.
  unfold isDigit. rewrite byte_in_spec. intros H.
  unfold space3, rune3. unfold byte_in at 1. zcmp. reflexivity.
Qed.

Lemma digit_space3_r a b c : isDigit c = true -> space3 a b c = false.
Proof.
  unfold isDigit. rewrite byte_in_spec. intros H.
  unfold space3, rune3, isCont. unfold byte_in at 3. zcmp.
  now rewrite !andb_false_r.
Qed.

(** A string that parses as a date has ten bytes, the first and the last a
    digit. *)
Lemma ParseDate_shape v t :
  ParseDate v = Some t ->
  exists y1 mid d2, v = y1 :: mid ++ [d2] /\ length mid = 8%nat
                    /\ isDigit y1 = true /\ isDigit d2 = true.
Proof.
  unfold ParseDate.
  destruct v as [|y1 [|y2 [|y3 [|y4 [|s1 [|m1 [|m2 [|s2 [|d1 [|d2 [|? ?]]]]]]]]]]];
    try discriminate.
  destruct (forallb _ _ && _ && _) eqn:E; [|discriminate]. intros _.
  apply andb_true_iff in E as [E _]. apply andb_true_iff in E as [E _].
  simpl in E. repeat (apply andb_true_iff in E as [? E]).
  exists y1, [y2; y3; y4; s1; m1; m2; s2; d1], d2. auto.
Qed.

Lemma ParseDate_TrimSpace v t : ParseDate v = Some t -> TrimSpace v = v.
Proof.
  intros H. destruct (ParseDate_shape _ _ H) as (y1 & mid & d2 & -> & Hl & H1 & H2).
  apply TrimSpace_fixed.
  - destruct mid as [|a [|b mid]]; try discriminate. simpl.
    now rewrite digit_space1, digit_space2_l, digit_space3_l.
  - change (y1 :: mid ++ [d2]) with ((y1 :: mid) ++ [d2]).
    rewrite rev_app_distr. simpl.
    destruct (rev mid ++ [y1]) as [|b [|a r]] eqn:E.
    + destruct (rev mid); discriminate.
    + apply (f_equal length) in E. rewrite length_app, length_rev, Hl in E.
      discriminate.
    + now rewrite digit_space1, digit_space2_r, digit_space3_r.
Qed.

Lemma ParseDate_length v t : ParseDate v = Some t -> length v = 10%nat.
Proof.
  intros H. destruct (ParseDate_shape _ _ H) as (y1 & mid & d2 & -> & Hl & _).
  simpl. rewrite length_app, Hl. reflexivity.
Qed.

Lemma ParseDate_concrete v t :
  ParseDate v = Some t ->
  v <> [] /\ v <> lit "Present" /\ v <> lit "No Expiration" /\ TrimSpace v <> [].
Proof.
  intros H. pose proof (ParseDate_length _ _ H) as Hl.
  rewrite (ParseDate_TrimSpace _ _ H).
  repeat split; intros E; rewrite E in Hl; discriminate Hl.
Qed.

End date_facts.

(* --------------------------------------------------------------------- *)
(** ** internal/domain *)

Module domain_facts.
Import domain.



Section education.
Import Education.



End education.

Section certification.
Import Certification.
Context `{URLParser}.



End certification.




(** C10. [BeforeSave] is idempotent on Education, Skill and Certification
    values: a second application changes nothing. *)
Theorem BeforeSave_idempotent :
  (forall e, Education.BeforeSave (Education.BeforeSave e) = Education.BeforeSave e)
  /\ (forall s, Skill.BeforeSave (Skill.BeforeSave s) = Skill.BeforeSave s)
  /\ (forall c, Certification.BeforeSave (Certification.BeforeSave c)
                = Certification.BeforeSave c).
Proof.
  split; [|split].
  - intros e. unfold Education.BeforeSave. simpl.
    now rewrite !TrimSpace_idem.
  - intros s. unfold Skill.BeforeSave. simpl. rewrite TrimSpace_idem.
    f_equal. destruct (bool_decide (TrimSpace (Skill.Category s) = [])) eqn:E.
    + reflexivity.
    + now rewrite TrimSpace_idem, E.
  - intros c. unfold Certification.BeforeSave. simpl.
    now rewrite !TrimSpace_idem.
Qed.

End domain_facts.

(* --------------------------------------------------------------------- *)
(** ** strings.Split *)

Section split_facts.

(** [strings.Join(parts, sep)] for a one-byte separator. *)
Fixpoint joinWith (sep : ascii) (parts : list bytes) : bytes :=
  match parts with
  | [] => []
  | [p] => p
  | p :: rest => p ++ sep :: joinWith sep rest
  end.

Lemma Split_nonempty s sep : Split s sep <> [].
Proof.
  destruct s as [|x t]; simpl; [discriminate|].
  destruct (bool_decide (x = sep)); [discriminate|].
  destruct (Split t sep); discriminate.
Qed.

Lemma Split_no_sep s sep : sep ∉ s -> Split s sep = [s].
Proof.
  induction s as [|x t IH]; intros H; [reflexivity|].
  apply not_elem_of_cons in H as [Hx Ht]. simpl.
  rewrite bool_decide_eq_false_2 by congruence. now rewrite (IH Ht).
Qed.

Lemma Split_app a b sep :
  sep ∉ a -> Split (a ++ sep :: b) sep = a :: Split b sep.
Proof.
  induction a as [|x t IH]; intros H; simpl.
  - now rewrite bool_decide_eq_true_2.
  - apply not_elem_of_cons in H as [Hx Ht].
    rewrite bool_decide_eq_false_2 by congruence. now rewrite (IH Ht).
Qed.

(** Joining the parts gives the string back, and no part holds the
    separator. *)
Lemma Split_join s sep :
  joinWith sep (Split s sep) = s /\ Forall (fun p => sep ∉ p) (Split s sep).
Proof.
  induction s as [|x t [IHj IHf]]; simpl.
  - split; [reflexivity|]. repeat constructor. apply not_elem_of_nil.
  - destruct (bool_decide (x = sep)) eqn:E.
    + apply bool_decide_eq_true in E as ->. split.
      * simpl. destruct (Split t sep) eqn:Et; [now apply Split_nonempty in Et|].
        now rewrite <- IHj.
      * constructor; [apply not_elem_of_nil | assumption].
    + apply bool_decide_eq_false in E.
      destruct (Split t sep) as [|h r] eqn:Et; [now apply Split_nonempty in Et|].
      apply Forall_cons in IHf as [Hh Hr]. split.
      * rewrite <- IHj. simpl. now destruct r.
      * constructor; [|assumption]. apply not_elem_of_cons. split; congruence.
Qed.

Lemma Split_three s sep a b c :
  Split s sep = [a; b; c] ->
  s = a ++ sep :: (b ++ sep :: c) /\ (sep ∉ a) /\ (sep ∉ b) /\ (sep ∉ c).
Proof.
  intros H. destruct (Split_join s sep) as [Hj Hf]. rewrite H in Hj, Hf.
  simpl in Hj. apply Forall_cons in Hf as [Ha Hf].
  apply Forall_cons in Hf as [Hb Hf]. apply Forall_cons in Hf as [Hc _].
  now rewrite <- Hj.
Qed.

End split_facts.

(* --------------------------------------------------------------------- *)
(** ** encoding/base64: the characters of an encoding *)

Section base64_chars.

Lemma bytes_ind3 (P : bytes -> Prop) :
  P [] -> (forall a, P [a]) -> (forall a b, P [a; b]) ->
  (forall a b c rest, P rest -> P (a :: b :: c :: rest)) ->
  forall s, P s.
Proof.
  intros H0 H1 H2 H3 s. induction s as [s IH] using bytes_length_ind.
  destruct s as [|a [|b [|c rest]]]; auto.
  apply H3, IH. simpl. lia.
Qed.

Lemma land_0x3F x : 0 <= Z.land x 0x3F < 64.
Proof.
  change 0x3F with (Z.ones 6). rewrite Z.land_ones by lia.
  apply Z.mod_pos_bound. reflexivity.
Qed.

Definition fullAlphabet (enc : Encoding) : Prop := length (alphabet enc) = 64%nat.

Lemma enc6_in enc v : fullAlphabet enc -> 0 <= v < 64 -> enc6 enc v ∈ alphabet enc.
Proof.
  intros Hl Hv. unfold enc6. apply list_elem_of_In, nth_In.
  rewrite Hl. lia.
Qed.

Definition encChar (enc : Encoding) (c : ascii) : Prop :=
  c ∈ alphabet enc \/ padChar enc = Some c.

Lemma padding_chars enc n : Forall (encChar enc) (padding enc n).
Proof.
  unfold padding. destruct (padChar enc) as [p|] eqn:E; [|constructor].
  apply Forall_forall. intros x Hx. apply list_elem_of_In, repeat_spec in Hx.
  subst. now right.
Qed.

Lemma EncodeToString_chars enc s :
  fullAlphabet enc -> Forall (encChar enc) (EncodeToString enc s).
Proof.
  intros Hl. induction s as [|a|a b|a b c rest IH] using bytes_ind3.
  - constructor.
  - cbn [EncodeToString app].
    repeat (constructor; [left; apply enc6_in, land_0x3F; assumption|]).
    apply padding_chars.
  - cbn [EncodeToString app].
    repeat (constructor; [left; apply enc6_in, land_0x3F; assumption|]).
    apply padding_chars.
  - cbn [EncodeToString].
    repeat (constructor; [left; apply enc6_in, land_0x3F; assumption|]).
    exact IH.
Qed.

Lemma EncodeToString_avoids enc s c :
  fullAlphabet enc -> c ∉ alphabet enc -> padChar enc <> Some c ->
  c ∉ EncodeToString enc s.
Proof.
  intros Hl Ha Hp Hin.
  pose proof (EncodeToString_chars enc s Hl) as H.
  rewrite Forall_forall in H. destruct (H c Hin); contradiction.
Qed.

Lemma full_Std : fullAlphabet StdEncoding. Proof. reflexivity. Qed.
Lemma full_RawStd : fullAlphabet RawStdEncoding. Proof. reflexivity. Qed.
Lemma full_RawURL : fullAlphabet RawURLEncoding. Proof. reflexivity. Qed.

Lemma not_in_encodeStd c :
  bool_decide (c ∈ encodeStd) = false -> c ∉ encodeStd.
Proof. apply bool_decide_eq_false. Qed.

End base64_chars.

(* --------------------------------------------------------------------- *)
(** ** strconv: the characters of a decimal number *)

Section decimal_chars.

Definition decimalChar (c : ascii) : Prop := isDigit c = true \/ c = "-"%char.

Lemma isDigit_Zbyte d : 0 <= d < 10 -> isDigit (Zbyte (48 + d)) = true.
Proof.
  intros H. unfold isDigit. apply byte_in_spec. rewrite byteZ_Zbyte; lia.
Qed.

Lemma formatUintFuel_digits fuel n :
  0 <= n -> Forall (fun c => isDigit c = true) (formatUintFuel fuel n).
Proof.
  revert n. induction fuel as [|fuel IH]; intros n Hn; simpl; [constructor|].
  destruct (Z.ltb_spec n 10).
  - repeat constructor. apply isDigit_Zbyte. lia.
  - apply Forall_app. split.
    + apply IH. apply Z.div_pos; lia.
    + repeat constructor. apply isDigit_Zbyte. apply Z.mod_pos_bound. lia.
Qed.

Lemma FormatInt_chars n : Forall decimalChar (FormatInt n).
Proof.
  unfold FormatInt, FormatUint. destruct (Z.ltb_spec n 0).
  - constructor; [now right|].
    eapply Forall_impl; [apply formatUintFuel_digits; lia|]. intros c Hc. now left.
  - eapply Forall_impl; [apply formatUintFuel_digits; lia|]. intros c Hc. now left.
Qed.

Lemma FormatInt_avoids n c :
  isDigit c = false -> c <> "-"%char -> c ∉ FormatInt n.
Proof.
  intros Hd Hm Hin. pose proof (FormatInt_chars n) as H.
  rewrite Forall_forall in H. destruct (H c Hin) as [E|E]; congruence.
Qed.

End decimal_chars.

(* --------------------------------------------------------------------- *)
(** ** pkg/security/csrf.go *)

Module csrf_facts.
Import csrf.

Lemma bar_not_base64 s : "|"%char ∉ EncodeToString StdEncoding s.
Proof.
  apply EncodeToString_avoids; [apply full_Std | | discriminate].
  apply not_in_encodeStd. reflexivity.
Qed.

Lemma bar_not_decimal n : "|"%char ∉ FormatInt n.
Proof. apply FormatInt_avoids; [reflexivity | discriminate]. Qed.

(** A token is accepted exactly when it has the shape
    [random|timestamp|signature] with the signature of [random|timestamp]
    under the key; nothing else of it is looked at. *)
Lemma validateToken_accepts c token :
  validateToken c token = None <->
  exists randomStr timestampStr,
    ("|"%char ∉ randomStr) /\ ("|"%char ∉ timestampStr)
    /\ token = randomStr ++ "|"%char
               :: (timestampStr ++ "|"%char
                   :: signature (Key c) (randomStr ++ "|"%char :: timestampStr)).
Proof.
  unfold validateToken, bytesEqual. split.
  - destruct (bool_decide (token = [])); [discriminate|].
    destruct (Split token "|"%char) as [|a [|b [|sig [|? ?]]]] eqn:E; try discriminate.
    change (lit "|") with ["|"%char]. cbn [app].
    destruct (bool_decide (sig = _)) eqn:Es; [|discriminate]. intros _.
    apply bool_decide_eq_true in Es.
    apply Split_three in E as (-> & Ha & Hb & _).
    exists a, b. rewrite <- Es. auto.
  - intros (a & b & Ha & Hb & ->).
    rewrite bool_decide_eq_false_2 by (destruct a; discriminate).
    rewrite (Split_app _ _ _ Ha), (Split_app _ _ _ Hb).
    rewrite Split_no_sep by apply bar_not_base64.
    change (lit "|") with ["|"%char]. cbn [app].
    now rewrite bool_decide_eq_true_2.
Qed.

(** C9. A token whose signature part is the HMAC-SHA256 signature of its
    [random|timestamp] payload under the configured key is accepted,
    whatever the two payload parts are: [validateToken] takes no clock and
    never reads the timestamp. In particular a token made by
    [generateToken] at any time [now] is accepted, at any later time. *)
Theorem validateToken_ignores_timestamp (c : CSRFConfig) :
  (forall randomStr timestampStr,
      "|"%char ∉ randomStr -> "|"%char ∉ timestampStr ->
      validateToken c
        (randomStr ++ lit "|" ++ timestampStr ++ lit "|"
         ++ signature (Key c) (randomStr ++ lit "|" ++ timestampStr)) = None)
  /\ (forall random now token,
      generateToken c random now = Some token ->
      validateToken c token = None).
Proof.
  split.
  - intros a b Ha Hb. apply validateToken_accepts. exists a, b. auto.
  - intros random now token H. unfold generateToken in H.
    destruct (randRead random CSRFTokenLength) as [rb|]; [|discriminate].
    injection H as <-. apply validateToken_accepts.
    exists (EncodeToString StdEncoding rb), (FormatInt now).
    split; [apply bar_not_base64|]. split; [apply bar_not_decimal|].
    change (lit "|") with ["|"%char]. now rewrite <- !app_assoc.
Qed.

(** The theorem at a token stamped with the Unix time 0, and at one stamped
    with text that is no number at all. *)
Lemma validateToken_ignores_timestamp_witness :
  validateToken sampleConfig sampleToken = None
  /\ validateToken sampleConfig
       (lit "r|long ago|" ++ signature (Key sampleConfig) (lit "r|long ago")) = None.
Proof.
  destruct (validateToken_ignores_timestamp sampleConfig) as [H1 H2]. split.
  - apply (H2 (Some (fun _ => Zbyte 0)) 0). vm_compute. reflexivity.
  - apply (H1 (lit "r") (lit "long ago")); apply (bool_decide_unpack _); vm_compute; exact I.
Defined.

(** C1, as amended. On a request with an unsafe method that carries a
    non-empty csrf_token cookie and a non-empty X-CSRF-Token header, the
    middleware answers 403 when [validateToken] refuses the header value,
    and hands the request on when it accepts it, that is exactly when the
    header value is [random|timestamp|signature] signed under the
    configured key. The value of the cookie plays no part. *)
Theorem Middleware_checks_signature (c : CSRFConfig) (random : randSource)
    (now : Z) (r : Request) :
  safeMethod (Method r) = false ->
  cookiePresent r = true ->
  HeaderGet (ReqHeader r) CSRFHeaderName <> [] ->
  Middleware c random now r =
    (if bool_decide (validateToken c (HeaderGet (ReqHeader r) CSRFHeaderName) = None)
     then CallNext []
     else Reply StatusForbidden (lit "Invalid CSRF token"))
  /\ (Middleware c random now r = CallNext [] <->
      exists randomStr timestampStr,
        ("|"%char ∉ randomStr) /\ ("|"%char ∉ timestampStr)
        /\ HeaderGet (ReqHeader r) CSRFHeaderName
           = randomStr ++ "|"%char
             :: (timestampStr ++ "|"%char
                 :: signature (Key c) (randomStr ++ "|"%char :: timestampStr))).
Proof.
  intros Hm Hc Hh.
  assert (E : Middleware c random now r =
    (if bool_decide (validateToken c (HeaderGet (ReqHeader r) CSRFHeaderName) = None)
     then CallNext [] else Reply StatusForbidden (lit "Invalid CSRF token"))).
  { unfold Middleware. rewrite Hm, Hc. cbn [negb].
    rewrite (bool_decide_eq_false_2 _ Hh). cbn [negb].
    now destruct (validateToken c _). }
  split; [exact E|]. rewrite E, <- validateToken_accepts.
  destruct (validateToken c _); [rewrite bool_decide_eq_false_2 by discriminate
                                | rewrite bool_decide_eq_true_2 by reflexivity];
    split; congruence.
Qed.

(** The theorem on a POST whose header carries no signed token. *)
Lemma Middleware_checks_signature_witness :
  Middleware sampleConfig None 0 (samplePost sampleToken (lit "invalid-token"))
  = Reply StatusForbidden (lit "Invalid CSRF token").
Proof.
  destruct (Middleware_checks_signature sampleConfig None 0
              (samplePost sampleToken (lit "invalid-token"))) as [H _].
  - reflexivity.
  - vm_compute. reflexivity.
  - vm_compute. discriminate.
  - rewrite H. vm_compute. reflexivity.
Defined.

(** C1 as stated fails: this POST carries the cookie value "x" and another
    value in the header, a token signed under the key; the two do not
    match, and the request is handed on, not answered with 403. *)
Lemma Middleware_cookie_mismatch_passes :
  safeMethod (Method (samplePost (lit "x") sampleToken)) = false
  /\ RequestCookie (samplePost (lit "x") sampleToken) CSRFCookieName = Some (lit "x")
  /\ HeaderGet (ReqHeader (samplePost (lit "x") sampleToken)) CSRFHeaderName = sampleToken
  /\ sampleToken <> lit "x"
  /\ Middleware sampleConfig None 0 (samplePost (lit "x") sampleToken) = CallNext [].
Proof.
  split; [reflexivity|]. split; [reflexivity|].
  split; [vm_compute; reflexivity|]. split; [vm_compute; discriminate|].
  vm_compute. reflexivity.
Qed.

End csrf_facts.

(* --------------------------------------------------------------------- *)
(** ** encoding/base64: decoding what was encoded *)

Section base64_roundtrip.

Lemma lor_disjoint hi lo n :
  0 <= n -> hi mod 2 ^ n = 0 -> 0 <= lo < 2 ^ n -> Z.lor hi lo = hi + lo.
Proof.
  intros Hn Hhi Hlo.
  assert (Hland : Z.land hi lo = 0).
  { apply Z.bits_inj'. intros m Hm. rewrite Z.land_spec, Z.bits_0.
    destruct (Z.lt_ge_cases m n) as [Hlt|Hge].
    - rewrite <- (Z.mod_pow2_bits_low hi n m Hlt), Hhi, Z.bits_0. reflexivity.
    - rewrite <- (Z.mod_small lo (2 ^ n)) by lia.
      rewrite Z.mod_pow2_bits_high by lia. apply andb_false_r. }
  rewrite <- Z.lxor_lor by exact Hland. symmetry.
  apply Z.add_nocarry_lxor. exact Hland.
Qed.

Lemma Zbyte_eq a z : z mod 256 = byteZ a -> Zbyte z = a.
Proof.
  intros H. unfold Zbyte. rewrite H. unfold byteZ.
  rewrite N2Z.id. apply ascii_N_embedding.
Qed.

(** The three bytes of a full group, as one number. *)
Lemma group3_value A B C :
  0 <= A < 256 -> 0 <= B < 256 -> 0 <= C < 256 ->
  Z.lor (Z.lor (Z.shiftl A 16) (Z.shiftl B 8)) C = A * 65536 + B * 256 + C.
Proof.
  intros HA HB HC. rewrite !Z.shiftl_mul_pow2 by lia.
  rewrite (lor_disjoint (A * 2 ^ 16) (B * 2 ^ 8) 16) by (cbn; Z.div_mod_to_equations; lia).
  rewrite (lor_disjoint _ C 8) by (cbn; Z.div_mod_to_equations; lia). lia.
Qed.

Lemma group2_value A B :
  0 <= A < 256 -> 0 <= B < 256 ->
  Z.lor (Z.shiftl A 16) (Z.shiftl B 8) = A * 65536 + B * 256.
Proof.
  intros HA HB. rewrite !Z.shiftl_mul_pow2 by lia.
  rewrite (lor_disjoint (A * 2 ^ 16) (B * 2 ^ 8) 16) by (cbn; Z.div_mod_to_equations; lia). lia.
Qed.

Lemma sextet_value x n : 0 <= n -> Z.land (Z.shiftr x n) 0x3F = (x / 2 ^ n) mod 64.
Proof.
  intros Hn. rewrite Z.shiftr_div_pow2 by lia.
  change 0x3F with (Z.ones 6). now rewrite Z.land_ones by lia.
Qed.

Lemma sextets_value s0 s1 s2 s3 :
  0 <= s0 < 64 -> 0 <= s1 < 64 -> 0 <= s2 < 64 -> 0 <= s3 < 64 ->
  Z.lor (Z.lor (Z.lor (Z.shiftl s0 18) (Z.shiftl s1 12)) (Z.shiftl s2 6)) s3
  = s0 * 262144 + s1 * 4096 + s2 * 64 + s3.
Proof.
  intros H0 H1 H2 H3. rewrite !Z.shiftl_mul_pow2 by lia.
  rewrite (lor_disjoint (s0 * 2 ^ 18) (s1 * 2 ^ 12) 18) by (cbn; Z.div_mod_to_equations; lia).
  rewrite (lor_disjoint _ (s2 * 2 ^ 6) 12) by (cbn; Z.div_mod_to_equations; lia).
  rewrite (lor_disjoint _ s3 6) by (cbn; Z.div_mod_to_equations; lia). lia.
Qed.

Lemma land63 x : Z.land x 0x3F = x mod 64.
Proof. change 0x3F with (Z.ones 6). now rewrite Z.land_ones by lia. Qed.

Lemma nth_sextet (q : list Z) i :
  Forall (fun s => 0 <= s < 64) q -> 0 <= nth i q 0 < 64.
Proof.
  intros Hq. destruct (nth_in_or_default i q 0) as [Hin | ->]; [|lia].
  rewrite Forall_forall in Hq. apply Hq, list_elem_of_In, Hin.
Qed.

(** The bytes of a quantum, in arithmetic. *)
Lemma quantumBytes_value q :
  Forall (fun s => 0 <= s < 64) q ->
  quantumBytes q =
  let v := nth 0 q 0 * 262144 + nth 1 q 0 * 4096 + nth 2 q 0 * 64 + nth 3 q 0 in
  take (length q - 1) [Zbyte (v / 65536); Zbyte (v / 256); Zbyte v].
Proof.
  intros Hq. unfold quantumBytes.
  rewrite sextets_value by (apply nth_sextet, Hq).
  now rewrite !Z.shiftr_div_pow2 by lia.
Qed.

Ltac sextet_bounds :=
  repeat (constructor; [first [apply Z.mod_pos_bound; lia | lia]|]);
  try constructor.

Lemma quantum4 a b c :
  let val := Z.lor (Z.lor (Z.shiftl (byteZ a) 16) (Z.shiftl (byteZ b) 8)) (byteZ c) in
  quantumBytes [Z.land (Z.shiftr val 18) 0x3F; Z.land (Z.shiftr val 12) 0x3F;
                Z.land (Z.shiftr val 6) 0x3F; Z.land val 0x3F]
  = [a; b; c].
Proof.
  intros val. pose proof (byteZ_range a). pose proof (byteZ_range b).
  pose proof (byteZ_range c).
  assert (Hv : val = byteZ a * 65536 + byteZ b * 256 + byteZ c)
    by (apply group3_value; assumption).
  rewrite !land63, !Z.shiftr_div_pow2 by lia.
  rewrite quantumBytes_value by sextet_bounds.
  cbn [nth length Nat.sub take]. cbv zeta.
  change (2 ^ 18) with 262144. change (2 ^ 12) with 4096. change (2 ^ 6) with 64.
  repeat f_equal; apply Zbyte_eq; rewrite Hv; clear Hv val;
    Z.div_mod_to_equations; lia.
Qed.

Lemma quantum3 a b :
  let val := Z.lor (Z.shiftl (byteZ a) 16) (Z.shiftl (byteZ b) 8) in
  quantumBytes [Z.land (Z.shiftr val 18) 0x3F; Z.land (Z.shiftr val 12) 0x3F;
                Z.land (Z.shiftr val 6) 0x3F]
  = [a; b].
Proof.
  intros val. pose proof (byteZ_range a). pose proof (byteZ_range b).
  assert (Hv : val = byteZ a * 65536 + byteZ b * 256)
    by (apply group2_value; assumption).
  rewrite !land63, !Z.shiftr_div_pow2 by lia.
  rewrite quantumBytes_value by sextet_bounds.
  cbn [nth length Nat.sub take]. cbv zeta.
  change (2 ^ 18) with 262144. change (2 ^ 12) with 4096. change (2 ^ 6) with 64.
  repeat f_equal; apply Zbyte_eq; rewrite Hv; clear Hv val;
    Z.div_mod_to_equations; lia.
Qed.

Lemma quantum2 a :
  let val := Z.shiftl (byteZ a) 16 in
  quantumBytes [Z.land (Z.shiftr val 18) 0x3F; Z.land (Z.shiftr val 12) 0x3F]
  = [a].
Proof.
  intros val. pose proof (byteZ_range a).
  assert (Hv : val = byteZ a * 65536)
    by (unfold val; rewrite Z.shiftl_mul_pow2 by lia; lia).
  rewrite !land63, !Z.shiftr_div_pow2 by lia.
  rewrite quantumBytes_value by sextet_bounds.
  cbn [nth length Nat.sub take]. cbv zeta.
  change (2 ^ 18) with 262144. change (2 ^ 12) with 4096.
  repeat f_equal; apply Zbyte_eq; rewrite Hv; clear Hv val;
    Z.div_mod_to_equations; lia.
Qed.

Lemma indexOf_nth (l : bytes) d : forall i k,
  NoDup l -> (i < length l)%nat ->
  indexOf (nth i l d) l k = Some (k + Z.of_nat i).
Proof.
  induction l as [|x t IH]; intros i k Hnd Hi; [simpl in Hi; lia|].
  apply NoDup_cons in Hnd as [Hx Hnd]. destruct i as [|i]; simpl.
  - rewrite bool_decide_eq_true_2 by reflexivity. f_equal. lia.
  - rewrite bool_decide_eq_false_2.
    + rewrite IH by (simpl in Hi; auto with lia). f_equal. lia.
    + intros ->. apply Hx, list_elem_of_In, nth_In. simpl in Hi. lia.
Qed.

(** What the round trip needs of an encoding: 64 distinct characters, and
    a padding character outside of them that is no line break. *)
Definition soundEncoding (enc : Encoding) : Prop :=
  NoDup (alphabet enc) /\ fullAlphabet enc
  /\ forall p, padChar enc = Some p -> decodeMap enc p = None /\ isNewline p = false.

Lemma decodeMap_enc6 enc v :
  soundEncoding enc -> 0 <= v < 64 -> decodeMap enc (enc6 enc v) = Some v.
Proof.
  intros (Hnd & Hl & _) Hv. unfold decodeMap, enc6.
  rewrite indexOf_nth by (rewrite ?Hl; auto with lia).
  f_equal. lia.
Qed.

Lemma decodeMap_sextet enc x :
  soundEncoding enc -> decodeMap enc (enc6 enc (Z.land x 0x3F)) = Some (Z.land x 0x3F).
Proof. intros H. apply decodeMap_enc6, land_0x3F. exact H. Qed.

Lemma DecodeString_EncodeToString enc s :
  soundEncoding enc -> DecodeString enc (EncodeToString enc s) = Some s.
Proof.
  intros Hs. unfold DecodeString.
  induction s as [|a|a b|a b c rest IH] using bytes_ind3.
  - reflexivity.
  - cbn [EncodeToString app].
    repeat (cbn [decodeLoop]; rewrite decodeMap_sextet by exact Hs;
            cbn [length Nat.eqb app]).
    unfold padding. destruct (padChar enc) as [p|] eqn:Ep.
    + destruct Hs as (_ & _ & Hp). destruct (Hp p Ep) as [Hd Hn].
      cbn [repeat decodeLoop]. rewrite Hd, Hn, Ep.
      rewrite bool_decide_eq_true_2 by reflexivity.
      cbn [skipNewlines]. rewrite Hn. cbn [skipNewlines].
      rewrite !bool_decide_eq_true_2 by reflexivity. cbn [andb].
      f_equal. apply quantum2.
    + cbn [decodeLoop]. rewrite Ep. f_equal. apply quantum2.
  - cbn [EncodeToString app].
    repeat (cbn [decodeLoop]; rewrite decodeMap_sextet by exact Hs;
            cbn [length Nat.eqb app]).
    unfold padding. destruct (padChar enc) as [p|] eqn:Ep.
    + destruct Hs as (_ & _ & Hp). destruct (Hp p Ep) as [Hd Hn].
      cbn [repeat decodeLoop]. rewrite Hd, Hn, Ep.
      rewrite bool_decide_eq_true_2 by reflexivity.
      cbn [skipNewlines]. rewrite bool_decide_eq_true_2 by reflexivity.
      f_equal. apply quantum3.
    + cbn [decodeLoop]. rewrite Ep. f_equal. apply quantum3.
  - cbn [EncodeToString].
    do 4 (cbn [decodeLoop]; rewrite decodeMap_sextet by exact Hs;
          cbn [length Nat.eqb app]).
    rewrite IH. f_equal. rewrite quantum4. reflexivity.
Qed.

Lemma EncodeToString_inj enc s t :
  soundEncoding enc -> EncodeToString enc s = EncodeToString enc t -> s = t.
Proof.
  intros Hs E. apply (f_equal (DecodeString enc)) in E.
  rewrite !DecodeString_EncodeToString in E by exact Hs. congruence.
Qed.

Lemma sound_encodeStd : NoDup encodeStd.
Proof. apply (bool_decide_unpack _). vm_compute. exact I. Qed.

Lemma sound_encodeURL : NoDup encodeURL.
Proof. apply (bool_decide_unpack _). vm_compute. exact I. Qed.

Lemma sound_Std : soundEncoding StdEncoding.
Proof.
  split; [exact sound_encodeStd|]. split; [reflexivity|].
  intros p [= <-]. split; reflexivity.
Qed.

Lemma sound_RawStd : soundEncoding RawStdEncoding.
Proof.
  split; [exact sound_encodeStd|]. split; [reflexivity|]. intros p [=].
Qed.

Lemma sound_RawURL : soundEncoding RawURLEncoding.
Proof.
  split; [exact sound_encodeURL|]. split; [reflexivity|]. intros p [=].
Qed.

End base64_roundtrip.

(* --------------------------------------------------------------------- *)
(** ** fmt: scanning a number that was printed *)

Section scan_roundtrip.

Lemma digitVal_Zbyte d : 0 <= d < 10 -> digitVal (Zbyte (48 + d)) = d.
Proof. intros H. unfold digitVal. rewrite byteZ_Zbyte; lia. Qed.

(** Scanning the digits of [n] shifts the accumulator and adds [n]. *)
Lemma scanDigits_format fuel : forall n,
  0 <= n < 10 ^ Z.of_nat fuel ->
  exists k, 0 <= k /\ forall acc rest,
    scanDigits (formatUintFuel fuel n ++ rest) acc
    = scanDigits rest (acc * 10 ^ k + n).
Proof.
  induction fuel as [|fuel IH]; intros n Hn.
  - exists 0. split; [lia|]. intros acc rest. simpl in *.
    f_equal. lia.
  - cbn [formatUintFuel]. destruct (Z.ltb_spec n 10) as [Hlt|Hge].
    + exists 1. split; [lia|]. intros acc rest. cbn [app scanDigits].
      rewrite isDigit_Zbyte, digitVal_Zbyte by lia. f_equal; lia.
    + assert (Hq : 0 <= n / 10 < 10 ^ Z.of_nat fuel).
      { rewrite Nat2Z.inj_succ, Z.pow_succ_r in Hn by lia.
        split; [apply Z.div_pos; lia | apply Z.div_lt_upper_bound; lia]. }
      destruct (IH _ Hq) as (k & Hk & Hscan).
      exists (k + 1). split; [lia|]. intros acc rest.
      rewrite <- app_assoc, Hscan. cbn [app scanDigits].
      pose proof (Z.mod_pos_bound n 10 ltac:(lia)).
      rewrite isDigit_Zbyte, digitVal_Zbyte by lia. f_equal.
      rewrite Z.pow_add_r by lia. change (10 ^ 1) with 10.
      pose proof (Z.div_mod n 10 ltac:(lia)). lia.
Qed.

Lemma scanDigits_stop rest acc :
  startsWithDigit rest = false -> scanDigits rest acc = (acc, rest).
Proof. destruct rest as [|c t]; simpl; [reflexivity|]. now intros ->. Qed.

Lemma formatUintFuel_head fuel n rest :
  0 <= n -> startsWithDigit (formatUintFuel (S fuel) n ++ rest) = true.
Proof.
  intros Hn. pose proof (formatUintFuel_digits (S fuel) n Hn) as Hd.
  cbn [formatUintFuel] in *. destruct (n <? 10).
  - simpl. now apply Forall_cons in Hd as [? _].
  - destruct (formatUintFuel fuel (n / 10)) as [|c t]; simpl in *;
      now apply Forall_cons in Hd as [? _].
Qed.

Lemma SkipSpace_digit s : startsWithDigit s = true -> SkipSpace s = Ok s.
Proof.
  destruct s as [|a [|b [|c t]]]; simpl; [discriminate| | |]; intros Ha;
    (rewrite bool_decide_eq_false_2 by (intros ->; discriminate));
    now rewrite ?digit_space1, ?digit_space2_l, ?digit_space3_l by exact Ha.
Qed.

Lemma scanUint_FormatUint bits n rest :
  0 <= n < 2 ^ bits -> 2 ^ bits <= 2 ^ 64 -> startsWithDigit rest = false ->
  scanUint bits (FormatUint n ++ rest) = Ok (n, rest).
Proof.
  intros Hn Hb Hrest. unfold scanUint, FormatUint.
  assert (Hh : startsWithDigit (formatUintFuel 20 n ++ rest) = true)
    by (apply formatUintFuel_head; lia).
  rewrite (SkipSpace_digit _ Hh).
  destruct (formatUintFuel 20 n ++ rest) as [|c t] eqn:E; [discriminate|].
  rewrite Hh, <- E.
  destruct (scanDigits_format 20 n) as (k & _ & Hscan).
  { split; [lia|]. change (10 ^ Z.of_nat 20) with 100000000000000000000.
    change (2 ^ 64) with 18446744073709551616 in Hb. lia. }
  rewrite Hscan, Z.mul_0_l, Z.add_0_l, (scanDigits_stop _ _ Hrest).
  replace (2 ^ 64 <=? n) with false by (symmetry; apply Z.leb_gt; lia).
  replace (2 ^ bits <=? n) with false by (symmetry; apply Z.leb_gt; lia).
  reflexivity.
Qed.

Lemma scanInt_FormatInt n rest :
  - 2 ^ 63 <= n < 2 ^ 63 -> startsWithDigit rest = false ->
  scanInt (FormatInt n ++ rest) = Ok (n, rest).
Proof.
  intros Hn Hrest. change (2 ^ 63) with 9223372036854775808 in Hn.
  unfold scanInt, FormatInt, FormatUint. destruct (Z.ltb_spec n 0) as [Hneg|Hpos].
  - cbn [app SkipSpace]. rewrite bool_decide_eq_false_2 by discriminate.
    change (space1 "-"%char) with false. cbv iota.
    assert (Hh : startsWithDigit (formatUintFuel 20 (- n) ++ rest) = true)
      by (apply formatUintFuel_head; lia).
    assert (Hsk : SkipSpace ("-"%char :: formatUintFuel 20 (- n) ++ rest)
                  = Ok ("-"%char :: formatUintFuel 20 (- n) ++ rest)).
    { destruct (formatUintFuel 20 (- n) ++ rest) as [|b [|c t]] eqn:E;
        [discriminate| |]; cbn [SkipSpace];
        rewrite bool_decide_eq_false_2 by discriminate; reflexivity. }
    cbn [SkipSpace] in Hsk. rewrite bool_decide_eq_false_2 in Hsk by discriminate.
    change (space1 "-"%char) with false in Hsk. cbv iota in Hsk. rewrite Hsk.
    rewrite (bool_decide_eq_true_2 ("-"%char = "-"%char)) by reflexivity.
    rewrite orb_true_r.
    destruct (formatUintFuel 20 (- n) ++ rest) as [|c t] eqn:E; [discriminate|].
    rewrite Hh, <- E.
    destruct (scanDigits_format 20 (- n)) as (k & _ & Hscan).
    { change (10 ^ Z.of_nat 20) with 100000000000000000000. lia. }
    rewrite Hscan, Z.mul_0_l, Z.add_0_l, (scanDigits_stop _ _ Hrest).
    rewrite Z.opp_involutive.
    replace (n <? - 2 ^ 63) with false
      by (symmetry; apply Z.ltb_ge; change (2 ^ 63) with 9223372036854775808; lia).
    replace (2 ^ 63 <=? n) with false
      by (symmetry; apply Z.leb_gt; change (2 ^ 63) with 9223372036854775808; lia).
    reflexivity.
  - assert (Hh : startsWithDigit (formatUintFuel 20 n ++ rest) = true)
      by (apply formatUintFuel_head; lia).
    rewrite (SkipSpace_digit _ Hh).
    destruct (formatUintFuel 20 n ++ rest) as [|c t] eqn:E; [discriminate|].
    assert (Hc : isDigit c = true) by exact Hh.
    assert (Hsign : bool_decide (c = "+"%char) || bool_decide (c = "-"%char) = false).
    { apply orb_false_iff; split; apply bool_decide_eq_false; intros ->; discriminate. }
    rewrite Hsign. rewrite Hh, <- E.
    destruct (scanDigits_format 20 n) as (k & _ & Hscan).
    { change (10 ^ Z.of_nat 20) with 100000000000000000000. lia. }
    rewrite Hscan, Z.mul_0_l, Z.add_0_l, (scanDigits_stop _ _ Hrest).
    rewrite bool_decide_eq_false_2 by (intros ->; discriminate).
    replace (n <? - 2 ^ 63) with false
      by (symmetry; apply Z.ltb_ge; change (2 ^ 63) with 9223372036854775808; lia).
    replace (2 ^ 63 <=? n) with false
      by (symmetry; apply Z.leb_gt; change (2 ^ 63) with 9223372036854775808; lia).
    reflexivity.
Qed.

End scan_roundtrip.

(* --------------------------------------------------------------------- *)
(** ** fmt: scanning never panics *)

Section scan_total.

Lemma matchLiteral_app format rest : matchLiteral format (format ++ rest) = Ok rest.
Proof.
  induction format as [|f t IH]; [reflexivity|]. cbn [app matchLiteral].
  now rewrite bool_decide_eq_true_2.
Qed.






End scan_total.

(* --------------------------------------------------------------------- *)
(** ** pkg/security/password.go *)

Module password_facts.
Import password.

Lemma FormatUint_avoids n c : 0 <= n -> isDigit c = false -> c ∉ FormatUint n.
Proof.
  intros Hn Hc Hin. pose proof (formatUintFuel_digits 20 n Hn) as H.
  rewrite Forall_forall in H. specialize (H c Hin). congruence.
Qed.

Lemma dollar_not_base64 s : "$"%char ∉ EncodeToString RawStdEncoding s.
Proof.
  apply EncodeToString_avoids; [apply full_RawStd | | discriminate].
  apply not_in_encodeStd. reflexivity.
Qed.

Lemma encodeHash_parts p salt hash :
  encodeHash p salt hash =
  [] ++ "$"%char
  :: (lit "argon2id" ++ "$"%char
      :: (lit "v=19" ++ "$"%char
          :: (costPart p ++ "$"%char
              :: (EncodeToString RawStdEncoding salt ++ "$"%char
                  :: EncodeToString RawStdEncoding hash)))).
Proof.
  unfold encodeHash, costPart. rewrite <- !app_assoc. reflexivity.
Qed.

Lemma dollar_not_costPart p :
  0 <= Memory p -> 0 <= Iterations p -> 0 <= Parallelism p ->
  "$"%char ∉ costPart p.
Proof.
  intros Hm Ht Hp. unfold costPart.
  rewrite !not_elem_of_app. repeat split;
    try (apply FormatUint_avoids; [assumption | reflexivity]);
    apply (bool_decide_unpack _); vm_compute; exact I.
Qed.

Lemma Split_encodeHash p salt hash :
  0 <= Memory p -> 0 <= Iterations p -> 0 <= Parallelism p ->
  Split (encodeHash p salt hash) "$"%char =
  [[]; lit "argon2id"; lit "v=19"; costPart p;
   EncodeToString RawStdEncoding salt; EncodeToString RawStdEncoding hash].
Proof.
  intros Hm Ht Hp. rewrite encodeHash_parts.
  rewrite Split_app by apply not_elem_of_nil.
  rewrite Split_app by (apply (bool_decide_unpack _); vm_compute; exact I).
  rewrite Split_app by (apply (bool_decide_unpack _); vm_compute; exact I).
  rewrite Split_app by (apply dollar_not_costPart; assumption).
  rewrite Split_app by apply dollar_not_base64.
  rewrite Split_no_sep by apply dollar_not_base64. reflexivity.
Qed.

Lemma scanCosts_costPart p :
  0 <= Memory p < 2 ^ 32 -> 0 <= Iterations p < 2 ^ 32 ->
  0 <= Parallelism p < 2 ^ 8 ->
  scanCosts (costPart p) = Ok (Memory p, Iterations p, Parallelism p).
Proof.
  intros Hm Ht Hp. unfold scanCosts, costPart.
  rewrite matchLiteral_app. cbn [mbind outcome_bind].
  rewrite scanUint_FormatUint by (first [assumption | reflexivity | cbn; lia]).
  cbn [mbind outcome_bind]. rewrite matchLiteral_app. cbn [mbind outcome_bind].
  rewrite scanUint_FormatUint by (first [assumption | reflexivity | cbn; lia]).
  cbn [mbind outcome_bind]. rewrite matchLiteral_app. cbn [mbind outcome_bind].
  rewrite <- (app_nil_r (FormatUint (Parallelism p))).
  rewrite scanUint_FormatUint by (first [assumption | reflexivity | cbn; lia]).
  reflexivity.
Qed.

(** Decoding an encoded hash gives back the cost parameters, the salt and
    the key, with the two lengths read off the decoded bytes. *)
Lemma decodeHash_encodeHash p salt hash :
  0 <= Memory p < 2 ^ 32 -> 0 <= Iterations p < 2 ^ 32 ->
  0 <= Parallelism p < 2 ^ 8 ->
  decodeHash (encodeHash p salt hash) =
  Ok ({| Memory := Memory p; Iterations := Iterations p;
         Parallelism := Parallelism p;
         SaltLength := Z.of_nat (length salt) mod 2 ^ 32;
         KeyLength := Z.of_nat (length hash) mod 2 ^ 32 |}, salt, hash).
Proof.
  intros Hm Ht Hp. unfold decodeHash.
  rewrite Split_encodeHash by lia.
  cbn [length Nat.eqb negb index lookup list_lookup mbind outcome_bind].
  rewrite bool_decide_eq_true_2 by reflexivity. cbn [negb].
  change (scanVersion (lit "v=19")) with (Ok (E := scanError) argon2Version).
  cbn [wrapErr mbind outcome_bind]. rewrite Z.eqb_refl. cbn [negb].
  rewrite scanCosts_costPart by assumption.
  cbn [wrapErr mbind outcome_bind]. unfold decodeBase64.
  rewrite !(DecodeString_EncodeToString _ _ sound_RawStd).
  reflexivity.
Qed.

Lemma encodeHash_inj p salt hash salt' hash' :
  0 <= Memory p < 2 ^ 32 -> 0 <= Iterations p < 2 ^ 32 ->
  0 <= Parallelism p < 2 ^ 8 ->
  encodeHash p salt hash = encodeHash p salt' hash' ->
  salt = salt' /\ hash = hash'.
Proof.
  intros Hm Ht Hp E. apply (f_equal decodeHash) in E.
  rewrite !decodeHash_encodeHash in E by assumption.
  injection E as _ _ Hs Hh. auto.
Qed.

Lemma drawSalt_length params random salt :
  0 <= SaltLength (orDefault params) < 2 ^ 32 ->
  drawSalt params random = Some salt ->
  Z.of_nat (length salt) mod 2 ^ 32 = SaltLength (orDefault params).
Proof.
  intros Hs. unfold drawSalt, randRead. destruct random as [f|]; [|discriminate].
  intros [= <-]. rewrite length_map, length_seq, Z2Nat.id by lia.
  apply Z.mod_small. exact Hs.
Qed.

Section with_argon2.
Context `{Argon2}.

(** What [HashPassword] returns when it returns a string. *)
Lemma HashPassword_Ok password params random h :
  HashPassword password params random = Ok h ->
  exists salt key,
    drawSalt params random = Some salt
    /\ IDKey password salt (Iterations (orDefault params)) (Memory (orDefault params))
         (Parallelism (orDefault params)) (KeyLength (orDefault params)) = Some key
    /\ h = encodeHash (orDefault params) salt key.
Proof.
  unfold HashPassword. destruct (drawSalt params random) as [salt|]; [|discriminate].
  destruct (IDKey _ _ _ _ _ _) as [key|] eqn:E; [|discriminate].
  intros [= <-]. eauto.
Qed.


Lemma VerifyPassword_encodeHash password' p salt key :
  wellTyped p -> Z.of_nat (length salt) mod 2 ^ 32 = SaltLength p ->
  Z.of_nat (length key) = KeyLength p ->
  VerifyPassword password' (encodeHash p salt key) =
  match IDKey password' salt (Iterations p) (Memory p) (Parallelism p) (KeyLength p) with
  | Some key' => Ok (bytesEqual key key')
  | None => Panic
  end.
Proof.
  intros (Hm & Ht & Hp & Hs & Hk) Hsl Hkl. unfold VerifyPassword.
  rewrite decodeHash_encodeHash by assumption.
  cbn [mbind outcome_bind Iterations Memory Parallelism KeyLength].
  now rewrite Hkl, Z.mod_small by assumption.
Qed.


(** C3, as amended. Let [HashPassword] return a string [h] for a password
    and a parameter set (nil, the defaults, or custom). Then
    [VerifyPassword] of the same password and [h] returns true and no
    error. For any other password it returns no error either, and true
    exactly when Argon2id derives the same key from it under the salt and
    the parameters of [h]; so it returns false whenever the two derived
    keys differ. A second [HashPassword] of the same password with the same
    parameters returns another string whenever it draws another salt, and
    that string verifies against the password as well. *)
Theorem HashPassword_VerifyPassword password params random h :
  wellTyped (orDefault params) ->
  HashPassword password params random = Ok h ->
  VerifyPassword password h = Ok true
  /\ (forall password', exists salt key key',
        drawSalt params random = Some salt
        /\ IDKey password salt (Iterations (orDefault params))
             (Memory (orDefault params)) (Parallelism (orDefault params))
             (KeyLength (orDefault params)) = Some key
        /\ IDKey password' salt (Iterations (orDefault params))
             (Memory (orDefault params)) (Parallelism (orDefault params))
             (KeyLength (orDefault params)) = Some key'
        /\ VerifyPassword password' h = Ok (bool_decide (key = key')))
  /\ (forall random' h',
        HashPassword password params random' = Ok h' ->
        drawSalt params random' <> drawSalt params random ->
        h' <> h /\ VerifyPassword password h' = Ok true).
Proof.
  intros Hw Hh.
  assert (Hverify : forall random0 h0,
    HashPassword password params random0 = Ok h0 ->
    forall password', exists salt key key',
      drawSalt params random0 = Some salt
      /\ IDKey password salt (Iterations (orDefault params))
           (Memory (orDefault params)) (Parallelism (orDefault params))
           (KeyLength (orDefault params)) = Some key
      /\ IDKey password' salt (Iterations (orDefault params))
           (Memory (orDefault params)) (Parallelism (orDefault params))
           (KeyLength (orDefault params)) = Some key'
      /\ VerifyPassword password' h0 = Ok (bool_decide (key = key'))).
  { intros random0 h0 H0 password'.
    destruct (HashPassword_Ok _ _ _ _ H0) as (salt & key & Hsalt & Hkey & ->).
    destruct (IDKey password' salt (Iterations (orDefault params))
                (Memory (orDefault params)) (Parallelism (orDefault params))
                (KeyLength (orDefault params))) as [key'|] eqn:Hkey'.
    - exists salt, key, key'. repeat split; try assumption.
      rewrite VerifyPassword_encodeHash, Hkey'; [reflexivity | exact Hw | |].
      + apply drawSalt_length with random0; [apply Hw | exact Hsalt].
      + apply (IDKey_length _ _ _ _ _ _ _ Hkey).
    - apply (IDKey_panics _ _ password salt) in Hkey'. congruence. }
  assert (Hsame : forall random0 h0,
    HashPassword password params random0 = Ok h0 ->
    VerifyPassword password h0 = Ok true).
  { intros random0 h0 H0.
    destruct (Hverify _ _ H0 password) as (salt & key & key' & _ & Hk & Hk' & ->).
    rewrite Hk in Hk'. injection Hk' as <-.
    now rewrite bool_decide_eq_true_2. }
  split; [eapply Hsame, Hh|]. split; [apply (Hverify _ _ Hh)|].
  intros random' h' Hh' Hne. split; [|eapply Hsame, Hh'].
  destruct (HashPassword_Ok _ _ _ _ Hh) as (salt & key & Hsalt & _ & ->).
  destruct (HashPassword_Ok _ _ _ _ Hh') as (salt' & key' & Hsalt' & _ & ->).
  intros E. destruct Hw as (Hm & Ht & Hp & _).
  apply encodeHash_inj in E as [-> _]; [|assumption ..]. congruence.
Qed.

End with_argon2.

(** The stand-in key derivation meets the contract of the library. *)
Lemma sampleKey_length password salt time memory threads keyLen out :
  sampleKey password salt time memory threads keyLen = Some out ->
  Z.of_nat (length out) = keyLen.
Proof.
  unfold sampleKey. destruct (_ && _ && _) eqn:E; [|discriminate].
  intros [= <-]. apply andb_true_iff in E as [_ E]. apply Z.leb_le in E.
  rewrite repeat_length. lia.
Qed.

Lemma sampleKey_runs password salt time memory threads keyLen :
  1 <= time -> 0 <= memory -> 1 <= threads -> 1 <= keyLen ->
  sampleKey password salt time memory threads keyLen <> None.
Proof.
  intros Ht _ Hp Hk. unfold sampleKey.
  apply Z.leb_le in Ht, Hp, Hk. now rewrite Ht, Hp, Hk.
Qed.

Lemma sampleKey_panics password salt password' salt' time memory threads keyLen :
  sampleKey password salt time memory threads keyLen = None ->
  sampleKey password' salt' time memory threads keyLen = None.
Proof. unfold sampleKey. now destruct (_ && _ && _). Qed.

Definition sampleArgon2 : Argon2 := {|
  IDKey := sampleKey;
  IDKey_length := sampleKey_length;
  IDKey_runs := sampleKey_runs;
  IDKey_panics := sampleKey_panics
|}.

Lemma wellTyped_default : wellTyped DefaultArgon2Params.
Proof. unfold wellTyped. cbn. lia. Qed.

Lemma wellTyped_custom : wellTyped customParams.
Proof. unfold wellTyped. cbn. lia. Qed.


(** The theorem on the default parameters with the stand-in key
    derivation: the password verifies, another one does not, and a hash
    made with another salt differs and verifies. *)
Lemma HashPassword_VerifyPassword_witness :
  exists h h',
    HashPassword (H := sampleArgon2) (lit "SecureP@ssw0rd") None countSource = Ok h
    /\ HashPassword (H := sampleArgon2) (lit "SecureP@ssw0rd") None zeroSource = Ok h'
    /\ VerifyPassword (H := sampleArgon2) (lit "SecureP@ssw0rd") h = Ok true
    /\ h' <> h
    /\ VerifyPassword (H := sampleArgon2) (lit "SecureP@ssw0rd") h' = Ok true.
Proof.
  destruct (HashPassword (H := sampleArgon2) (lit "SecureP@ssw0rd") None countSource)
    as [h| |] eqn:Hh; [|vm_compute in Hh; discriminate ..].
  destruct (HashPassword (H := sampleArgon2) (lit "SecureP@ssw0rd") None zeroSource)
    as [h'| |] eqn:Hh'; [|vm_compute in Hh'; discriminate ..].
  destruct (@HashPassword_VerifyPassword sampleArgon2 (lit "SecureP@ssw0rd") None
              countSource h wellTyped_default Hh) as (Hv & _ & Hother).
  assert (Hdraw : drawSalt None zeroSource <> drawSalt None countSource)
    by (vm_compute; discriminate).
  destruct (Hother zeroSource h' Hh' Hdraw) as [Hne Hv'].
  exists h, h'. repeat split; assumption.
Defined.

(** C3 as stated fails. With a salt length of 0, a parameter set the type
    allows, there is nothing to draw: whatever the key derivation and
    whatever the random source, two calls of [HashPassword] on the same
    password return the same string, byte for byte. *)
Lemma HashPassword_without_salt_repeats :
  SaltLength noSaltParams = 0
  /\ forall (A : Argon2) (draw1 draw2 : nat -> ascii),
      exists h,
        HashPassword (lit "SecureP@ssw0rd") (Some noSaltParams) (Some draw1) = Ok h
        /\ HashPassword (lit "SecureP@ssw0rd") (Some noSaltParams) (Some draw2) = Ok h.
Proof.
  split; [reflexivity|]. intros A draw1 draw2. unfold HashPassword.
  cbn [drawSalt randRead orDefault noSaltParams SaltLength Z.to_nat seq map
       Iterations Memory Parallelism KeyLength].
  change (Z.to_nat 0) with 0%nat. cbn [seq map].
  destruct (IDKey (lit "SecureP@ssw0rd") [] 3 (64 * 1024) 4 32) as [key|] eqn:E.
  - eauto.
  - exfalso. revert E. apply IDKey_runs; lia.
Qed.

End password_facts.

(* --------------------------------------------------------------------- *)
(** ** pkg/security/ratelimit.go *)

Module ratelimit_facts.
Import ratelimit.

Section one_call.
Context `{NetAddr}.
Variables (rl : RateLimiter) (st : Redis) (r : Request) (now : Z).

(** The set under the request's key after the pruning. *)
Definition pruned : Redis :=
  ZRemRangeByScore st (getLimitKey r) 0 (now - Seconds (interval rl)).

Lemma zset_ZRemRangeByScore (s : Redis) key lo hi :
  zset (ZRemRangeByScore s key lo hi) key
  = filter (fun kv => negb ((lo <=? snd kv) && (snd kv <=? hi)) = true) (zset s key).
Proof.
  unfold ZRemRangeByScore. case_bool_decide as E.
  - unfold zset at 1. cbn [zsets]. now rewrite lookup_delete_eq, E.
  - unfold zset at 1. cbn [zsets]. now rewrite lookup_insert_eq.
Qed.

Lemma zset_ZAdd (s : Redis) key score member :
  zset (ZAdd s key score member) key = <[member := score]> (zset s key).
Proof. unfold ZAdd, zset at 1. cbn [zsets]. now rewrite lookup_insert_eq. Qed.

Lemma zset_Expire (s : Redis) key d key' : zset (Expire s key d) key' = zset s key'.
Proof. unfold Expire. now destruct (zsets s !! key). Qed.

Lemma zset_Expire_if (b : bool) (s : Redis) key d key' :
  zset (if b then s else Expire s key d) key' = zset s key'.
Proof. destruct b; [reflexivity | apply zset_Expire]. Qed.

(** Fail open: a breakdown while pruning or counting gives count 0 and no
    error. *)
Lemma CheckRateLimit_fail_open down :
  down ZRemRangeByScoreCmd = true \/ down ZCardCmd = true ->
  fst (CheckRateLimit rl down st r now) = (0, None).
Proof.
  unfold CheckRateLimit. intros [E|E].
  - now rewrite E.
  - destruct (down ZRemRangeByScoreCmd); [reflexivity|]. now rewrite E.
Qed.

(** At the limit: the error, the count, and nothing written but the
    pruning. *)
Lemma CheckRateLimit_exceeded down :
  down ZRemRangeByScoreCmd = false -> down ZCardCmd = false ->
  limit rl <= ZCard pruned (getLimitKey r) ->
  CheckRateLimit rl down st r now
  = ((ZCard pruned (getLimitKey r), Some ErrRateLimitExceeded), pruned).
Proof.
  intros E1 E2 Hl. unfold CheckRateLimit. rewrite E1, E2. fold pruned.
  apply Z.leb_le in Hl. now rewrite Hl.
Qed.

(** Below the limit, with the server answering: count plus one is
    returned, the timestamp is a member with itself as score, the key
    expires after the interval plus a minute; and the set has grown by one
    exactly when the timestamp was not a member already. *)
Lemma CheckRateLimit_admitted :
  ZCard pruned (getLimitKey r) < limit rl ->
  let '(res, st') := CheckRateLimit rl connected st r now in
  res = (ZCard pruned (getLimitKey r) + 1, None)
  /\ zset st' (getLimitKey r) !! FormatInt now = Some now
  /\ ttl st' !! getLimitKey r = Some (interval rl + Minute)
  /\ ZCard st' (getLimitKey r)
     = match zset pruned (getLimitKey r) !! FormatInt now with
       | Some _ => ZCard pruned (getLimitKey r)
       | None => ZCard pruned (getLimitKey r) + 1
       end.
Proof.
  intros Hl. unfold CheckRateLimit. cbn [connected]. fold pruned.
  apply Z.leb_gt in Hl. rewrite Hl.
  split; [reflexivity|]. split; [|split].
  - now rewrite zset_Expire, zset_ZAdd, lookup_insert_eq.
  - unfold Expire, ZAdd. cbn [zsets ttl]. rewrite lookup_insert_eq.
    cbn [ttl]. now rewrite lookup_insert_eq.
  - unfold ZCard. rewrite zset_Expire, zset_ZAdd.
    destruct (zset pruned (getLimitKey r) !! FormatInt now) as [sc|] eqn:E.
    + f_equal. rewrite <- (insert_id _ _ _ E) at 2.
      rewrite <- (insert_delete_eq (zset pruned (getLimitKey r))).
      rewrite <- (insert_delete_eq (zset pruned (getLimitKey r)) (FormatInt now) sc).
      now rewrite !map_size_insert_None by apply lookup_delete_eq.
    + rewrite map_size_insert_None by exact E. lia.
Qed.

End one_call.

(** *** The default limit is out of reach *)

Section default_limit.
Context `{NetAddr}.

(** A set whose members are the decimals of their scores, the scores
    within [n] consecutive numbers, has at most [n] members. *)
Lemma size_window (z : gmap (list ascii) Z) lo n :
  (forall member score, z !! member = Some score ->
     member = FormatInt score /\ lo <= score < lo + n) ->
  (size z <= Z.to_nat n)%nat.
Proof.
  intros Hz. rewrite <- length_map_to_list, <- (length_fmap snd), <- (length_seqZ lo n).
  apply submseteq_length, NoDup_submseteq.
  - apply (NoDup_fmap_1 FormatInt).
    replace (FormatInt <$> (map_to_list z).*2) with ((map_to_list z).*1);
      [apply NoDup_fst_map_to_list|].
    rewrite <- list_fmap_compose. apply list_fmap_ext.
    intros i [m sc] Hi. apply list_elem_of_lookup_2, elem_of_map_to_list in Hi.
    apply Hz in Hi as [-> _]. reflexivity.
  - intros sc Hsc. apply list_elem_of_fmap in Hsc as ([m sc'] & -> & Hin).
    apply elem_of_map_to_list, Hz in Hin as [_ Hr]. apply elem_of_seqZ. exact Hr.
Qed.

Lemma ownTimestamps_pruned (z : gmap (list ascii) Z) hi now secs :
  ownTimestamps z hi -> hi <= now ->
  forall member score,
    filter (fun kv => negb ((0 <=? snd kv) && (snd kv <=? now - secs)) = true) z
      !! member = Some score ->
    member = FormatInt score /\ now - secs + 1 <= score < now - secs + 1 + secs.
Proof.
  intros Hz Hhi m sc Hf. apply map_lookup_filter_Some in Hf as [Hl Hp].
  destruct (Hz _ _ Hl) as [-> Hr]. split; [reflexivity|].
  cbn [snd] in Hp. apply negb_true_iff, andb_false_iff in Hp.
  destruct Hp as [Hp|Hp]; [apply Z.leb_gt in Hp | apply Z.leb_gt in Hp]; lia.
Qed.

(** One call of the default limiter on a store that holds timestamps up to
    now: no error, whatever the network does, and the store holds
    timestamps up to now afterwards. *)
Lemma default_call (st : Redis) (r : Request) now down :
  ownTimestamps (zset st (getLimitKey r)) now -> 0 <= now ->
  snd (fst (CheckRateLimit defaultLimiter down st r now)) = None
  /\ ownTimestamps (zset (snd (CheckRateLimit defaultLimiter down st r now))
                     (getLimitKey r)) now.
Proof.
  intros Hz Hnow. unfold CheckRateLimit.
  destruct (down ZRemRangeByScoreCmd); [split; [reflexivity | exact Hz]|].
  change (Seconds (interval defaultLimiter)) with 60.
  set (st1 := ZRemRangeByScore st (getLimitKey r) 0 (now - 60)).
  assert (Hp : forall member score,
    zset st1 (getLimitKey r) !! member = Some score ->
    member = FormatInt score /\ now - 60 + 1 <= score < now - 60 + 1 + 60).
  { unfold st1. rewrite zset_ZRemRangeByScore.
    apply ownTimestamps_pruned with now; [exact Hz | lia]. }
  assert (Hz1 : ownTimestamps (zset st1 (getLimitKey r)) now).
  { intros m sc Hl. destruct (Hp _ _ Hl) as [-> Hr]. split; [reflexivity|].
    destruct (Hz (FormatInt sc) sc) as [_ ?]; [|lia].
    unfold st1 in Hl. rewrite zset_ZRemRangeByScore in Hl.
    now apply map_lookup_filter_Some in Hl as [Hl _]. }
  destruct (down ZCardCmd); [split; [reflexivity | exact Hz1]|].
  assert (Hsize : ZCard st1 (getLimitKey r) <= 60).
  { unfold ZCard. pose proof (size_window _ _ _ Hp). lia. }
  change (limit defaultLimiter) with 100.
  replace (100 <=? ZCard st1 (getLimitKey r)) with false
    by (symmetry; apply Z.leb_gt; lia).
  split; [reflexivity|]. cbn [snd]. rewrite zset_Expire_if.
  destruct (down ZAddCmd); [exact Hz1|].
  rewrite zset_ZAdd. intros m sc Hl.
  destruct (decide (m = FormatInt now)) as [->|Hne].
  - rewrite lookup_insert_eq in Hl. injection Hl as <-. split; [reflexivity | lia].
  - rewrite lookup_insert_ne in Hl by congruence. apply Hz1, Hl.
Qed.

Lemma ownTimestamps_later (z : gmap (list ascii) Z) hi hi' :
  ownTimestamps z hi -> hi <= hi' -> ownTimestamps z hi'.
Proof. intros Hz Hle m sc Hl. destruct (Hz _ _ Hl). split; [assumption | lia]. Qed.

Lemma serve_default (r : Request) calls : forall st lo,
  ownTimestamps (zset st (getLimitKey r)) lo -> 0 <= lo ->
  ascending lo (map fst calls) ->
  Forall (fun res => snd res = None) (serve defaultLimiter st r calls).
Proof.
  induction calls as [|[now down] rest IH]; intros st lo Hz Hlo Hasc;
    [constructor|].
  cbn [map fst ascending] in Hasc. destruct Hasc as [Hle Hasc].
  cbn [serve].
  destruct (default_call st r now down) as [Hres Hz'];
    [apply ownTimestamps_later with lo; assumption | lia |].
  destruct (CheckRateLimit defaultLimiter down st r now) as [res st'].
  constructor; [exact Hres|]. apply (IH st' now); [exact Hz' | lia | exact Hasc].
Qed.

(** From an empty store, however many requests of one client for one path
    arrive and however closely, the default limiter (100 per minute) never
    answers ErrRateLimitExceeded: the set holds one member per second, at
    most 60 within the window. *)
Theorem default_limit_never_reached (r : Request) calls :
  ascending 0 (map fst calls) ->
  Forall (fun res => snd res = None) (serve defaultLimiter emptyRedis r calls).
Proof.
  apply serve_default with (lo := 0); [|lia].
  intros m sc Hl. unfold zset in Hl. cbn in Hl.
  rewrite lookup_empty in Hl. cbn in Hl. now rewrite lookup_empty in Hl.
Qed.

End default_limit.

(** C5 on the code. Two requests of one client for one path within the
    same second, on an empty store with the default limiter (100 per
    minute): both are admitted, the second call returns 2, but it adds no
    member: the member is the timestamp in seconds, which the first call
    stored already, so the set still counts 1. A second later it would
    count 2. *)
Theorem CheckRateLimit_same_second :
  fst (firstCall 1700000000) = (1, None)
  /\ ZCard (snd (firstCall 1700000000)) sampleKey = 1
  /\ fst (secondCall 1700000000 1700000000) = (2, None)
  /\ ZCard (snd (secondCall 1700000000 1700000000)) sampleKey = 1
  /\ ZCard (snd (secondCall 1700000000 1700000001)) sampleKey = 2.
Proof. repeat split; vm_compute; reflexivity. Qed.

End ratelimit_facts.

(* --------------------------------------------------------------------- *)
(** ** The serialisation of the examples *)

Section stand_in.

Lemma bytesPos_posBytes p : bytesPos (posBytes p) = Some p.
Proof.
  induction p as [q IH|q IH|]; cbn.
  - rewrite bool_decide_eq_false_2 by discriminate.
    rewrite bool_decide_eq_true_2 by reflexivity. now rewrite IH.
  - rewrite bool_decide_eq_true_2 by reflexivity. now rewrite IH.
  - reflexivity.
Qed.

Lemma dot_not_posBytes p : "."%char ∉ posBytes p.
Proof.
  induction p as [q IH|q IH|]; cbn.
  - apply not_elem_of_cons. split; [discriminate | exact IH].
  - apply not_elem_of_cons. split; [discriminate | exact IH].
  - apply not_elem_of_nil.
Qed.

End stand_in.

(* --------------------------------------------------------------------- *)
(** ** pkg/auth/jwt.go *)

Module jwt_facts.
Import jwt.



Lemma dot_not_base64url s : "."%char ∉ EncodeToString RawURLEncoding s.
Proof.
  apply EncodeToString_avoids; [apply full_RawURL | | discriminate].
  change ("."%char ∉ encodeURL).
  apply (bool_decide_eq_false_1 ("."%char ∈ encodeURL)). reflexivity.
Qed.

Section with_codec.
Context `{JWTCodec}.

Lemma decodeClaims_throughJSON c : decodeClaims (encodeClaims c) = Some (throughJSON c).
Proof. apply decodeClaims_encodeClaims. Qed.

Lemma jsonText_lit (s : string) :
  forallb (fun c => byteZ c <? 128) (lit s) = true -> jsonText (lit s) = lit s.
Proof.
  intros Hs. apply jsonText_ascii. apply Forall_forall. intros c Hc.
  rewrite forallb_forall in Hs. apply Z.ltb_lt, Hs, list_elem_of_In, Hc.
Qed.

(** Parsing a token that [SignedString] made: the signature is compared
    under the key the key function returns, then the claims are checked. *)
Lemma ParseWithClaims_SignedString key claims keyFunc key' now :
  keyFunc (SigningMethodHMAC HMAC_SHA256) = Some key' ->
  ParseWithClaims (SignedString key claims) keyFunc now =
  if bytesEqual (HMAC_SHA256 key (signingString claims))
                (HMAC_SHA256 key' (signingString claims))
  then match validateClaims (throughJSON claims) now with
       | Some e => Err e
       | None => Ok (throughJSON claims)
       end
  else Err ErrTokenSignatureInvalid.
Proof.
  intros Hk. unfold ParseWithClaims, SignedString, signingString.
  change (lit ".") with ["."%char]. rewrite <- !app_assoc. cbn [app].
  rewrite Split_app by apply encodeHeader_no_dot.
  rewrite Split_app by apply encodeClaims_no_dot.
  rewrite Split_no_sep by apply dot_not_base64url.
  rewrite decodeHeader_encodeHeader, decodeClaims_throughJSON.
  rewrite jsonText_lit by reflexivity.
  change (GetSigningMethod (lit "HS256")) with (Some (SigningMethodHMAC HMAC_SHA256)).
  cbv iota. rewrite (DecodeString_EncodeToString _ _ sound_RawURL), Hk.
  reflexivity.
Qed.

Lemma ParseToken_SignedString j key claims now :
  ParseToken j now (SignedString key claims) =
  if bytesEqual (HMAC_SHA256 key (signingString claims))
                (HMAC_SHA256 (Secret j) (signingString claims))
  then match validateClaims (throughJSON claims) now with
       | Some (ErrTokenInvalidClaims true _) => Err ErrTokenExpired
       | Some _ => Err ErrInvalidToken
       | None => Ok (throughJSON claims)
       end
  else Err ErrInvalidToken.
Proof.
  unfold ParseToken.
  rewrite (ParseWithClaims_SignedString _ _ _ (Secret j)) by reflexivity.
  destruct (bytesEqual _ _); [|reflexivity].
  now destruct (validateClaims (throughJSON claims) now) as [[| | |[|] ?]|].
Qed.

(** The claims of a fresh token pass the validator from the time of issue
    until the expiry. *)
Lemma validateClaims_newClaims j now now' userID email role tokenType expiry :
  now <= now' -> now' < (now + expiry) / SecondNs * SecondNs ->
  validateClaims (throughJSON (newClaims j now userID email role tokenType expiry)) now'
  = None.
Proof.
  intros Hle Hlt. unfold validateClaims, throughJSON, newClaims, NewNumericDate.
  cbn [Registered ExpiresAt NotBefore].
  replace (now' <? (now + expiry) / SecondNs * SecondNs) with true
    by (symmetry; apply Z.ltb_lt; exact Hlt).
  replace (now' <? now / SecondNs * SecondNs) with false; [reflexivity|].
  symmetry. apply Z.ltb_ge. unfold SecondNs in *.
  pose proof (Z.mul_div_le now 1000000000 ltac:(lia)). lia.
Qed.

Lemma validateClaims_expired claims exp now :
  ExpiresAt (Registered claims) = Some exp -> exp * SecondNs <= now ->
  exists notValidYet,
    validateClaims (throughJSON claims) now
    = Some (ErrTokenInvalidClaims true notValidYet).
Proof.
  intros He Hle. unfold validateClaims, throughJSON. cbn [Registered ExpiresAt NotBefore].
  rewrite He. replace (now <? exp * SecondNs) with false
    by (symmetry; apply Z.ltb_ge; exact Hle).
  cbn [negb orb]. eauto.
Qed.



End with_codec.

(** The stand-in codec meets the contract. *)
Lemma sampleDecodeHeader_law alg :
  sampleDecodeHeader (sampleEncodeHeader alg) = Some (id alg).
Proof.
  unfold sampleDecodeHeader, sampleEncodeHeader. rewrite bytesPos_posBytes.
  cbn. apply decode_encode.
Qed.

Lemma sampleDecodeClaims_law c :
  sampleDecodeClaims (sampleEncodeClaims c) =
  Some {| UserID := id (UserID c); Email := id (Email c);
          Role := id (Role c); TokenType := id (TokenType c);
          Registered := {|
            ExpiresAt := ExpiresAt (Registered c);
            IssuedAt := IssuedAt (Registered c);
            NotBefore := NotBefore (Registered c);
            Issuer := id (Issuer (Registered c));
            Subject := id (Subject (Registered c));
            Audience := map id (Audience (Registered c)) |} |}.
Proof.
  unfold sampleDecodeClaims, sampleEncodeClaims. rewrite bytesPos_posBytes.
  cbn [mbind option_bind]. rewrite decode_encode. cbn [fmap option_fmap option_map].
  rewrite map_id. now destruct c as [? ? ? ? []].
Qed.

Definition sampleCodec : JWTCodec := {|
  encodeHeader := sampleEncodeHeader;
  decodeHeader := sampleDecodeHeader;
  encodeClaims := sampleEncodeClaims;
  decodeClaims := sampleDecodeClaims;
  jsonText := id;
  HMAC_SHA384 := HMAC_SHA256;
  HMAC_SHA512 := HMAC_SHA256;
  jsonText_ascii := fun s _ => eq_refl;
  decodeHeader_encodeHeader := sampleDecodeHeader_law;
  decodeClaims_encodeClaims := sampleDecodeClaims_law;
  encodeHeader_no_dot := fun alg => dot_not_posBytes _;
  encodeClaims_no_dot := fun c => dot_not_posBytes _
|}.



End jwt_facts.

(* --------------------------------------------------------------------- *)
(** ** backend/pkg/security/session.go *)

Module session_facts.
Import session.

(** Values that JSON has itself come back as they went. *)
Lemma anyThroughJSON_jsonValue v : jsonValue v -> anyThroughJSON v = v.
Proof.
  induction 1 as [| | |s Hs|l _ IH|m _ _ IH]; cbn [anyThroughJSON];
    try reflexivity.
  - now rewrite Hs.
  - f_equal. rewrite <- (map_id l) at 2. apply map_ext_in.
    intros x Hx. apply IH, list_elem_of_In, Hx.
  - f_equal. apply map_eq. intros k. rewrite lookup_fmap.
    destruct (m !! k) as [x|] eqn:E; [|reflexivity].
    cbn. f_equal. exact (IH k x E).
Qed.

Lemma jsonValue_plainKeys v : jsonValue v -> plainKeys v.
Proof.
  induction 1 as [| | |s Hs|l _ IH|m Hk _ IH]; constructor; assumption.
Qed.

Lemma throughJSON_jsonValue d :
  validUTF8 (UserID d) -> validUTF8 (Role d) -> jsonValue (Map (Data d)) ->
  throughJSON d = d.
Proof.
  intros Hu Hr Hd. apply anyThroughJSON_jsonValue in Hd.
  cbn [anyThroughJSON] in Hd. injection Hd as Hd.
  unfold throughJSON. rewrite Hu, Hr, Hd. now destruct d.
Qed.

(** An integer among the values does not come back as it went. *)
Lemma anyThroughJSON_Int n : anyThroughJSON (Int n) <> Int n.
Proof. discriminate. Qed.

(** ASCII text is UTF-8. *)
Lemma coerceLoop_ascii s :
  Forall (fun c => byteZ c < 0x80) s -> coerceLoop 0 s = s.
Proof.
  induction 1 as [|c t Hc _ IH]; [reflexivity|].
  cbn [coerceLoop runeWidth]. apply Z.ltb_lt in Hc. rewrite Hc.
  cbn [Nat.sub]. now rewrite IH.
Qed.

(** The cookie value is base64 text, which goes over the wire as it is. *)
Lemma base64_cookie_bytes :
  Forall (fun c => validCookieValueByte c = true /\ c <> " "%char /\ c <> ","%char)
         ("="%char :: encodeStd).
Proof.
  apply (bool_decide_unpack _). vm_compute. reflexivity.
Qed.

Lemma sanitizeCookieValue_plain v :
  Forall (fun c => validCookieValueByte c = true /\ c <> " "%char /\ c <> ","%char) v ->
  sanitizeCookieValue v = v.
Proof.
  intros Hv. unfold sanitizeCookieValue.
  assert (filter (fun c => validCookieValueByte c = true) v = v) as ->.
  { induction Hv as [|c t [Hc _] _ IH]; [reflexivity|].
    rewrite filter_cons_True by exact Hc. now rewrite IH. }
  assert (existsb (fun c => bool_decide (c = " "%char) || bool_decide (c = ","%char)) v
          = false) as ->; [|reflexivity].
  induction Hv as [|c t (_ & Hs & Hc) _ IH]; [reflexivity|].
  cbn [existsb]. rewrite IH.
  now rewrite !bool_decide_eq_false_2 by assumption.
Qed.

Lemma sanitizeCookieValue_base64 s :
  sanitizeCookieValue (EncodeToString StdEncoding s) = EncodeToString StdEncoding s.
Proof.
  apply sanitizeCookieValue_plain.
  eapply Forall_impl; [apply EncodeToString_chars, full_Std|].
  intros c Hc. pose proof base64_cookie_bytes as Hall.
  rewrite Forall_forall in Hall. apply Hall.
  destruct Hc as [Hc | Hc].
  - apply elem_of_cons. right. exact Hc.
  - injection Hc as <-. apply elem_of_cons. now left.
Qed.

Section with_libraries.
Context `{AESGCM} `{JSON}.

(** What [encrypt] wrote, [decrypt] reads, under a key the cipher takes
    and with the random source delivering. *)
Lemma decrypt_encrypt s f plaintext :
  validKeySize (length (Key s)) = true ->
  exists encryptedData,
    encrypt s (Some f) plaintext = Ok encryptedData
    /\ sanitizeCookieValue encryptedData = encryptedData
    /\ decrypt s encryptedData = Ok plaintext.
Proof.
  intros Hk. unfold encrypt, decrypt. rewrite Hk. cbn [negb randRead].
  eexists. split; [reflexivity|]. split; [apply sanitizeCookieValue_base64|].
  rewrite (DecodeString_EncodeToString _ _ sound_Std).
  set (nonce := map f (seq 0 gcmNonceSize)).
  assert (length nonce = gcmNonceSize) as Hn
    by (unfold nonce; now rewrite length_map, length_seq).
  replace (length (nonce ++ gcmSeal (Key s) nonce plaintext) <? gcmNonceSize)%nat
    with false
    by (symmetry; apply Nat.ltb_ge; rewrite length_app; lia).
  rewrite take_app_length' by exact Hn. rewrite drop_app_length' by exact Hn.
  now rewrite gcmOpen_gcmSeal.
Qed.

(** [Create] and then [Get] on a payload whose expiry is set: the cookie
    is made when the key has 32 bytes, the random source delivers and the
    payload can be written as JSON, and [Get] then looks at the expiry
    only. *)
Lemma Get_Create s f now now' d j :
  length (Key s) = 32%nat -> ExpiresAt d <> zeroTime ->
  Marshal d = Some j -> plainKeys (Map (Data d)) ->
  exists cookie,
    Create s (Some f) now d = Ok cookie
    /\ Get s now' (requestWith cookie)
       = if After now' (ExpiresAt d) then Err ErrSessionExpired
         else Ok (throughJSON d).
Proof.
  intros Hk Hz Hm Hp.
  assert (validKeySize (length (Key s)) = true) as Hv by now rewrite Hk.
  destruct (decrypt_encrypt s f j Hv) as (e & He & Hs & Hd).
  unfold Create, IsZero. rewrite bool_decide_eq_false_2 by exact Hz.
  rewrite Hm, He. cbn [mbind outcome_bind]. eexists. split; [reflexivity|].
  unfold Get, requestWith, RequestCookie.
  cbn [Cookies Name Value lookupFirst].
  rewrite bool_decide_eq_true_2 by reflexivity.
  rewrite Hs, Hd, (Unmarshal_Marshal d j Hm Hp). reflexivity.
Qed.

(** With no expiry set, [Create] gives the session the cookie's lifetime. *)
Lemma Get_Create_default s f now now' d j :
  length (Key s) = 32%nat -> ExpiresAt d = zeroTime ->
  let d0 := {| UserID := UserID d; Role := Role d;
               ExpiresAt := now + secondsDuration (CookieMaxAge s);
               Data := Data d |} in
  Marshal d0 = Some j -> plainKeys (Map (Data d)) ->
  exists cookie,
    Create s (Some f) now d = Ok cookie
    /\ Get s now' (requestWith cookie)
       = if After now' (now + secondsDuration (CookieMaxAge s))
         then Err ErrSessionExpired
         else Ok (throughJSON d0).
Proof.
  intros Hk Hz d0 Hm Hp.
  assert (validKeySize (length (Key s)) = true) as Hv by now rewrite Hk.
  destruct (decrypt_encrypt s f j Hv) as (e & He & Hs & Hd).
  unfold Create, IsZero. rewrite bool_decide_eq_true_2 by exact Hz.
  fold d0. rewrite Hm, He. cbn [mbind outcome_bind].
  eexists. split; [reflexivity|].
  unfold Get, requestWith, RequestCookie.
  cbn [Cookies Name Value lookupFirst].
  rewrite bool_decide_eq_true_2 by reflexivity.
  rewrite Hs, Hd, (Unmarshal_Marshal d0 j Hm Hp). reflexivity.
Qed.

(** C8, as amended. Let the key have 32 bytes, the random source deliver,
    the payload have an expiry set, [json.Marshal] take it, and the keys of
    its custom data be UTF-8. Then [Create] makes the cookie, and [Get] on
    the request that carries it, with the same key, at a time not after
    the expiry, returns the payload as JSON carries it: UserID and Role
    coerced to UTF-8, the expiry, and the custom data with numbers as
    float64. That is the payload itself, field by field, when UserID and
    Role are UTF-8 and the custom data are JSON values. At a time after the
    expiry [Get] fails with the error "session expired". [Clear] sets the
    cookie "session" with an empty value and MaxAge -1. *)
Theorem session_round_trip (s : Session) (f : nat -> ascii) (now now' : Z)
    (d : SessionData) :
  length (Key s) = 32%nat ->
  ExpiresAt d <> zeroTime ->
  is_Some (Marshal d) ->
  plainKeys (Map (Data d)) ->
  (exists cookie,
      Create s (Some f) now d = Ok cookie
      /\ (now' <= ExpiresAt d ->
          exists d',
            Get s now' (requestWith cookie) = Ok d'
            /\ d' = throughJSON d
            /\ (validUTF8 (UserID d) -> UserID d' = UserID d)
            /\ (validUTF8 (Role d) -> Role d' = Role d)
            /\ (jsonValue (Map (Data d)) -> Data d' = Data d))
      /\ (ExpiresAt d < now' ->
          Get s now' (requestWith cookie) = Err ErrSessionExpired))
  /\ errorText ErrSessionExpired = lit "session expired"
  /\ Name (Clear s) = SessionCookieName
  /\ Value (Clear s) = []
  /\ MaxAge (Clear s) = -1.
Proof.
  intros Hk Hz [j Hm] Hp. split; [|repeat split].
  destruct (Get_Create s f now now' d j Hk Hz Hm Hp) as (cookie & Hc & Hg).
  exists cookie. split; [exact Hc|]. unfold After in Hg. split.
  - intros Hle. replace (ExpiresAt d <? now') with false in Hg
      by (symmetry; apply Z.ltb_ge; exact Hle).
    eexists. split; [exact Hg|]. split; [reflexivity|].
    cbn [throughJSON UserID Role Data]. repeat split.
    + intros Hu. exact Hu.
    + intros Hr. exact Hr.
    + intros Hd. apply anyThroughJSON_jsonValue in Hd.
      cbn [anyThroughJSON] in Hd. now injection Hd.
  - intros Hlt. apply Z.ltb_lt in Hlt. now rewrite Hlt in Hg.
Qed.

(** An integer among the custom data comes back as a float64, under any
    cipher and any JSON library that meet their contracts. *)
Lemma counterData_comes_back_changed (f : nat -> ascii) now expiresAt :
  expiresAt <> zeroTime -> now <= expiresAt ->
  is_Some (Marshal (counterData expiresAt)) ->
  exists cookie d',
    Create sampleSession (Some f) now (counterData expiresAt) = Ok cookie
    /\ Get sampleSession now (requestWith cookie) = Ok d'
    /\ Data d' !! lit "visits" = Some (Float64 (float64OfInt 3))
    /\ Data d' <> Data (counterData expiresAt).
Proof.
  intros Hz Hle [j Hm].
  destruct (Get_Create sampleSession f now now (counterData expiresAt) j)
    as (cookie & Hc & Hg); [reflexivity | exact Hz | exact Hm | |].
  { constructor; intros k x Hl; cbn [Data counterData] in Hl;
      apply lookup_singleton_Some in Hl as [<- <-]; [reflexivity | constructor]. }
  unfold After in Hg. cbn [ExpiresAt counterData] in Hg.
  replace (expiresAt <? now) with false in Hg
    by (symmetry; apply Z.ltb_ge; exact Hle).
  exists cookie, (throughJSON (counterData expiresAt)).
  split; [exact Hc|]. split; [exact Hg|].
  cbn [throughJSON counterData Data]. rewrite map_fmap_singleton.
  cbn [anyThroughJSON]. split; [apply lookup_singleton_eq|].
  intros Heq. apply (f_equal (fun m => m !! lit "visits")) in Heq.
  rewrite !lookup_singleton_eq in Heq. discriminate.
Qed.

End with_libraries.

(** The stand-ins meet the contracts. *)
Lemma sampleOpen_sampleSeal key nonce plaintext :
  validKeySize (length key) = true -> length nonce = gcmNonceSize ->
  sampleOpen key nonce (sampleSeal key nonce plaintext) = Some plaintext.
Proof.
  intros Hk Hn. unfold sampleOpen, sampleSeal.
  assert (length (take 16 (key ++ nonce)) = 16%nat) as Hl.
  { rewrite length_take, length_app, Hn. unfold validKeySize in Hk.
    apply orb_true_iff in Hk as [Hk | Hk];
      [apply orb_true_iff in Hk as [Hk | Hk]|];
      apply Nat.eqb_eq in Hk; rewrite Hk; reflexivity. }
  rewrite take_app_length' by (symmetry; exact Hl).
  rewrite bool_decide_eq_true_2 by reflexivity.
  now rewrite drop_app_length' by (symmetry; exact Hl).
Qed.

Lemma ofScalar_toScalar v x : toScalar v = Some x -> ofScalar x = v.
Proof. destruct v; cbn; intros [= <-]; reflexivity. Qed.

Lemma sampleUnmarshal_sampleMarshal d j :
  sampleMarshal d = Some j -> plainKeys (Map (Data d)) ->
  sampleUnmarshal j = Some (throughJSON d).
Proof.
  intros Hm _. unfold sampleMarshal in Hm.
  destruct (mapM _ (map_to_list (Data d))) as [l|] eqn:E; [|discriminate].
  cbn in Hm. injection Hm as <-.
  unfold sampleUnmarshal. rewrite bytesPos_posBytes. cbn [mbind option_bind].
  rewrite decode_encode. cbn [mbind option_bind].
  assert (prod_map id ofScalar <$> l = map_to_list (Data d)) as ->.
  { apply mapM_Some in E. induction E as [|[k v] [k' x] t t' Hx _ IH]; [reflexivity|].
    cbn [fst snd] in Hx. destruct (toScalar v) as [x0|] eqn:Ev; [|discriminate].
    cbn in Hx. injection Hx as <- <-.
    cbn [fmap list_fmap prod_map fst snd]. rewrite IH. unfold id.
    now rewrite (ofScalar_toScalar _ _ Ev). }
  rewrite list_to_map_to_list. now destruct d.
Qed.

Definition sampleGCM : AESGCM := {|
  gcmSeal := sampleSeal;
  gcmOpen := sampleOpen;
  gcmOpen_gcmSeal := sampleOpen_sampleSeal
|}.

Definition sampleJSON : JSON := {|
  Marshal := sampleMarshal;
  Unmarshal := sampleUnmarshal;
  Unmarshal_Marshal := sampleUnmarshal_sampleMarshal
|}.

Lemma plainKeys_sampleData t : plainKeys (Map (Data (sampleData t))).
Proof.
  constructor; intros k x Hl; cbn [Data sampleData] in Hl;
    apply lookup_singleton_Some in Hl as [<- <-]; [reflexivity | constructor].
Qed.

Lemma jsonValue_sampleData t : jsonValue (Map (Data (sampleData t))).
Proof.
  constructor; intros k x Hl; cbn [Data sampleData] in Hl;
    apply lookup_singleton_Some in Hl as [<- <-];
    [reflexivity | constructor; reflexivity].
Qed.

(** C8, a run with the stand-in libraries: the payload of the tests,
    written at 1700000000 s with an expiry in 2033, is read back one
    second later as it was; read after the expiry it is refused. *)
Lemma session_round_trip_witness :
  exists cookie,
    @Create sampleGCM sampleJSON sampleSession (Some (fun i => Zbyte (Z.of_nat i)))
      1700000000000000000 (sampleData 2000000000000000000) = Ok cookie
    /\ @Get sampleGCM sampleJSON sampleSession 1700000001000000000
         (requestWith cookie)
       = Ok (sampleData 2000000000000000000)
    /\ @Get sampleGCM sampleJSON sampleSession 2000000000000000001
         (requestWith cookie)
       = Err ErrSessionExpired.
Proof.
  assert (Hm : is_Some (@Marshal sampleJSON (sampleData 2000000000000000000)))
    by (eexists; vm_compute; reflexivity).
  assert (Hz : ExpiresAt (sampleData 2000000000000000000) <> zeroTime)
    by (vm_compute; discriminate).
  destruct (@session_round_trip sampleGCM sampleJSON sampleSession
              (fun i => Zbyte (Z.of_nat i)) 1700000000000000000
              1700000001000000000 (sampleData 2000000000000000000)
              eq_refl Hz Hm (plainKeys_sampleData _))
    as ((cookie & Hc & Hfresh & _) & _).
  destruct (@session_round_trip sampleGCM sampleJSON sampleSession
              (fun i => Zbyte (Z.of_nat i)) 1700000000000000000
              2000000000000000001 (sampleData 2000000000000000000)
              eq_refl Hz Hm (plainKeys_sampleData _))
    as ((cookie' & Hc' & _ & Hstale) & _).
  rewrite Hc in Hc'. injection Hc' as <-.
  exists cookie. split; [exact Hc|]. split.
  - destruct Hfresh as (d' & Hg & -> & _); [cbn; lia|].
    rewrite Hg, throughJSON_jsonValue;
      [reflexivity | reflexivity | reflexivity | apply jsonValue_sampleData].
  - apply Hstale. cbn. lia.
Defined.

(** C8, against the claim as it is worded: a payload with a future expiry
    whose custom data hold the integer 3 under "visits". Whatever cipher
    and JSON library meet their contracts, once [json.Marshal] takes the
    payload, [Create] makes the cookie and [Get] succeeds with the same
    key, but the custom data read back hold a float64 under "visits" and
    are not the custom data written. The stand-in libraries show the same
    by running. *)
Lemma session_integer_not_recovered :
  Data (counterData 2000000000000000000) !! lit "visits" = Some (Int 3)
  /\ (forall (cipher : AESGCM) (json : JSON) (f : nat -> ascii),
        is_Some (Marshal (counterData 2000000000000000000)) ->
        exists cookie d',
          Create sampleSession (Some f) 1700000000000000000
            (counterData 2000000000000000000) = Ok cookie
          /\ Get sampleSession 1700000000000000000 (requestWith cookie) = Ok d'
          /\ Data d' !! lit "visits" = Some (Float64 (float64OfInt 3))
          /\ Data d' <> Data (counterData 2000000000000000000))
  /\ exists cookie d',
      @Create sampleGCM sampleJSON sampleSession (Some (fun i => Zbyte (Z.of_nat i)))
        1700000000000000000 (counterData 2000000000000000000) = Ok cookie
      /\ @Get sampleGCM sampleJSON sampleSession 1700000000000000000
           (requestWith cookie) = Ok d'
      /\ Data d' <> Data (counterData 2000000000000000000).
Proof.
  split; [apply lookup_singleton_eq|]. split.
  - intros cipher json f Hm.
    apply counterData_comes_back_changed; [vm_compute; discriminate | lia | exact Hm].
  - destruct (@counterData_comes_back_changed sampleGCM sampleJSON
                (fun i => Zbyte (Z.of_nat i)) 1700000000000000000
                2000000000000000000)
      as (cookie & d' & Hc & Hg & _ & Hne);
      [vm_compute; discriminate | lia | eexists; vm_compute; reflexivity |].
    exists cookie, d'. repeat split; assumption.
Qed.

End session_facts.

(* ===================================================================== *)
(** * Part IV: further properties of the code *)
(* ===================================================================== *)

(* --------------------------------------------------------------------- *)
(** ** csrf.go: the middleware as a whole *)

Module csrf_more.
Import csrf.

(** The token an unsafe request is judged by: the header value, or the
    form value when the header has none. *)
Definition suppliedToken (r : Request) : bytes :=
  let headerToken := HeaderGet (ReqHeader r) CSRFHeaderName in
  if bool_decide (headerToken = []) then FormValue r CSRFFormField else headerToken.

Lemma Middleware_unsafe c random now r :
  safeMethod (Method r) = false ->
  Middleware c random now r =
    if negb (cookiePresent r) then Reply StatusForbidden (lit "CSRF token missing")
    else if bool_decide (suppliedToken r = [])
         then Reply StatusForbidden (lit "CSRF token missing")
         else match validateToken c (suppliedToken r) with
              | Some _ => Reply StatusForbidden (lit "Invalid CSRF token")
              | None => CallNext []
              end.
Proof.
  intros Hm. unfold Middleware, suppliedToken. rewrite Hm.
  destruct (cookiePresent r); [|reflexivity]. cbn [negb].
  destruct (bool_decide (HeaderGet (ReqHeader r) CSRFHeaderName = [])) eqn:Eh;
    cbn [negb].
  - destruct (bool_decide (FormValue r CSRFFormField = [])); reflexivity.
  - rewrite Eh. reflexivity.
Qed.

Lemma generateToken_nonempty c random now token :
  generateToken c random now = Some token -> token <> [].
Proof.
  unfold generateToken. destruct (randRead random CSRFTokenLength); [|discriminate].
  intros [= <-]. change (lit "|") with ["|"%char]. intros E.
  apply (f_equal (@length ascii)) in E. rewrite !length_app in E.
  cbn [length] in E. lia.
Qed.

Lemma generateToken_accepted c random now token :
  generateToken c random now = Some token -> validateToken c token = None.
Proof.
  unfold generateToken. destruct (randRead random CSRFTokenLength) as [rb|];
    [|discriminate].
  intros [= <-]. apply csrf_facts.validateToken_accepts.
  exists (EncodeToString StdEncoding rb), (FormatInt now).
  split; [apply csrf_facts.bar_not_base64|].
  split; [apply csrf_facts.bar_not_decimal|].
  change (lit "|") with ["|"%char]. now rewrite <- !app_assoc.
Qed.

(** X1. An unsafe request (any method but GET, HEAD, OPTIONS, TRACE) is
    handed to the next handler exactly when it carries a non-empty
    csrf_token cookie and the token it supplies, in the X-CSRF-Token header
    or, only when that header is empty, in the csrf_token form field, is
    not empty and is accepted by [validateToken]. In every other case the
    answer is 403, and no cookie is ever set on an unsafe request. *)
Theorem unsafe_request_passes_iff (c : CSRFConfig) (random : randSource)
    (now : Z) (r : Request) :
  safeMethod (Method r) = false ->
  (Middleware c random now r = CallNext [] <->
   cookiePresent r = true /\ suppliedToken r <> []
   /\ validateToken c (suppliedToken r) = None)
  /\ (Middleware c random now r = CallNext []
      \/ exists body, Middleware c random now r = Reply StatusForbidden body).
Proof.
  intros Hm. rewrite (Middleware_unsafe c random now r Hm).
  destruct (cookiePresent r); cbn [negb].
  - destruct (bool_decide (suppliedToken r = [])) eqn:Et.
    + apply bool_decide_eq_true in Et. split; [|right; eauto].
      split; [discriminate | intros (_ & Hne & _); contradiction].
    + apply bool_decide_eq_false in Et.
      destruct (validateToken c (suppliedToken r)) as [e|]; split;
        try (right; eexists; reflexivity); try (left; reflexivity).
      * split; [discriminate | intros (_ & _ & [=])].
      * split; [auto | reflexivity].
  - split; [|right; eauto]. split; [discriminate | intros ([=] & _)].
Qed.

(** The theorem on two POSTs with the cookie: one with a signed token in
    the form field and no header is handed on; one whose header holds
    another text is refused although its form field holds the signed
    token. *)
Lemma unsafe_request_passes_iff_witness :
  Middleware sampleConfig None 0
    {| Method := lit "POST"; Cookies := [(CSRFCookieName, lit "x")];
       ReqHeader := ∅; Form := [(CSRFFormField, sampleToken)];
       RemoteAddr := lit "203.0.113.7:51234"; URLPath := lit "/" |}
  = CallNext []
  /\ Middleware sampleConfig None 0
       {| Method := lit "POST"; Cookies := [(CSRFCookieName, lit "x")];
          ReqHeader := HeaderSet ∅ CSRFHeaderName (lit "guess");
          Form := [(CSRFFormField, sampleToken)];
          RemoteAddr := lit "203.0.113.7:51234"; URLPath := lit "/" |}
     <> CallNext [].
Proof.
  split.
  - apply (unsafe_request_passes_iff sampleConfig None 0); [reflexivity|].
    split; [reflexivity|]. split; vm_compute; [discriminate | reflexivity].
  - intros E.
    apply (unsafe_request_passes_iff sampleConfig None 0) in E; [|reflexivity].
    destruct E as (_ & _ & E). vm_compute in E. discriminate.
Defined.

(** A safe request without the cookie, with the random source working:
    the cookie set carries a token of [generateToken]. *)
Lemma Middleware_safe_sets_cookie (c : CSRFConfig) (f : nat -> ascii) (now : Z)
    (r : Request) :
  safeMethod (Method r) = true -> cookiePresent r = false ->
  exists token,
    generateToken c (Some f) now = Some token
    /\ Middleware c (Some f) now r
       = CallNext [{| Name := CSRFCookieName; Value := token;
                      Path := CookiePath c; Domain := CookieDomain c;
                      MaxAge := CookieMaxAge c; Secure := CookieSecure c;
                      HttpOnly := true; SameSite := CookieSameSite c |}].
Proof.
  intros Hm Hc. unfold Middleware. rewrite Hm, Hc.
  destruct (generateToken c (Some f) now) as [token|] eqn:Eg; [|discriminate Eg].
  exists token. split; reflexivity.
Qed.

(** X2. A safe request (GET, HEAD, OPTIONS, TRACE) is never refused with
    403: it is handed on, and only a failure of the random source gives a
    500. A cookie is set exactly when the request has no non-empty
    csrf_token cookie; it is named csrf_token, is HttpOnly, takes path,
    domain, max-age, Secure and SameSite from the configuration, and its
    value is a token that [validateToken] accepts. *)
Theorem safe_request_gets_token (c : CSRFConfig) (random : randSource)
    (now : Z) (r : Request) :
  safeMethod (Method r) = true ->
  (cookiePresent r = true -> Middleware c random now r = CallNext [])
  /\ (cookiePresent r = false ->
      match random with
      | None =>
          Middleware c random now r
          = Reply StatusInternalServerError (lit "Failed to generate CSRF token")
      | Some _ =>
          exists token,
            generateToken c random now = Some token
            /\ validateToken c token = None
            /\ Middleware c random now r
               = CallNext [{| Name := CSRFCookieName; Value := token;
                              Path := CookiePath c; Domain := CookieDomain c;
                              MaxAge := CookieMaxAge c; Secure := CookieSecure c;
                              HttpOnly := true; SameSite := CookieSameSite c |}]
      end).
Proof.
  intros Hm. unfold Middleware. rewrite Hm. split; intros Hc; rewrite Hc.
  - reflexivity.
  - destruct random as [f|]; [|reflexivity].
    destruct (generateToken c (Some f) now) as [token|] eqn:Eg;
      [|discriminate Eg].
    exists token. split; [reflexivity|]. split; [|reflexivity].
    apply (generateToken_accepted _ _ _ _ Eg).
Qed.

(** The theorem on a GET without cookies. *)
Lemma safe_request_gets_token_witness :
  exists token,
    validateToken sampleConfig token = None
    /\ Middleware sampleConfig (Some (fun _ => Zbyte 0)) 0
         {| Method := lit "GET"; Cookies := []; ReqHeader := ∅; Form := [];
            RemoteAddr := lit "203.0.113.7:51234"; URLPath := lit "/" |}
       = CallNext [{| Name := CSRFCookieName; Value := token;
                      Path := lit "/"; Domain := [];
                      MaxAge := 86400; Secure := false;
                      HttpOnly := true; SameSite := SameSiteStrictMode |}].
Proof.
  destruct (safe_request_gets_token sampleConfig (Some (fun _ => Zbyte 0)) 0
              {| Method := lit "GET"; Cookies := []; ReqHeader := ∅; Form := [];
                 RemoteAddr := lit "203.0.113.7:51234"; URLPath := lit "/" |}
              eq_refl) as [_ H].
  destruct (H eq_refl) as (token & _ & Hv & Hm).
  exists token. split; [exact Hv | exact Hm].
Defined.

(** X3. The double-submit round: the token set as a cookie on a safe
    request is accepted on every later unsafe request that sends the
    cookie back and repeats its value in the X-CSRF-Token header, at any
    time and whatever the state of the random source then. *)
Theorem issued_token_passes (c : CSRFConfig) (f : nat -> ascii) (now : Z)
    (get : Request) :
  safeMethod (Method get) = true ->
  cookiePresent get = false ->
  exists cookie,
    Middleware c (Some f) now get = CallNext [cookie]
    /\ Name cookie = CSRFCookieName
    /\ forall random now' post,
        safeMethod (Method post) = false ->
        RequestCookie post CSRFCookieName = Some (Value cookie) ->
        HeaderGet (ReqHeader post) CSRFHeaderName = Value cookie ->
        Middleware c random now' post = CallNext [].
Proof.
  intros Hm Hc.
  destruct (Middleware_safe_sets_cookie c f now get Hm Hc) as (token & Hg & Hmid).
  pose proof (generateToken_accepted _ _ _ _ Hg) as Hv.
  eexists. split; [exact Hmid|]. split; [reflexivity|].
  cbn [Value]. intros random now' post Hu Hcookie Hheader.
  pose proof (generateToken_nonempty _ _ _ _ Hg) as Hne.
  rewrite (Middleware_unsafe c random now' post Hu).
  unfold cookiePresent, suppliedToken. rewrite Hcookie, Hheader.
  rewrite !(bool_decide_eq_false_2 _ Hne). cbn [negb]. now rewrite Hv.
Qed.

(** The theorem on a GET without cookies and the POST that follows it. *)
Lemma issued_token_passes_witness :
  exists cookie,
    Middleware sampleConfig (Some (fun _ => Zbyte 0)) 0
      {| Method := lit "GET"; Cookies := []; ReqHeader := ∅; Form := [];
         RemoteAddr := lit "203.0.113.7:51234"; URLPath := lit "/" |}
    = CallNext [cookie]
    /\ Middleware sampleConfig None 86400 (samplePost (Value cookie) (Value cookie))
       = CallNext [].
Proof.
  destruct (issued_token_passes sampleConfig (fun _ => Zbyte 0) 0
              {| Method := lit "GET"; Cookies := []; ReqHeader := ∅; Form := [];
                 RemoteAddr := lit "203.0.113.7:51234"; URLPath := lit "/" |}
              eq_refl eq_refl) as (cookie & Hm & _ & Hpost).
  exists cookie. split; [exact Hm|].
  apply Hpost; [reflexivity | reflexivity |].
  unfold samplePost, HeaderGet, HeaderSet. cbn [ReqHeader].
  now rewrite lookup_insert_eq.
Defined.

End csrf_more.

(* --------------------------------------------------------------------- *)
(** ** jwt.go: the other token types, foreign tokens, the constructor *)

Module jwt_more.
Import jwt.

Section with_codec.
Context `{JWTCodec}.

(** A token of [generateToken] read under the same configuration before
    its expiry: the claims it was made from, if the type is the one asked
    for. *)
Lemma validateType_generateToken j now now' userID email role tokenType expiry expected :
  now <= now' -> now' < (now + expiry) / SecondNs * SecondNs ->
  validateType expected j now' (generateToken j now userID email role tokenType expiry)
  = if bool_decide (jsonText tokenType = expected)
    then Ok (throughJSON (newClaims j now userID email role tokenType expiry))
    else Err ErrWrongTokenType.
Proof.
  intros Hle Hlt. unfold validateType, generateToken.
  rewrite jwt_facts.ParseToken_SignedString. unfold bytesEqual.
  rewrite bool_decide_eq_true_2 by reflexivity.
  rewrite jwt_facts.validateClaims_newClaims by assumption.
  cbn [mbind outcome_bind throughJSON newClaims TokenType].
  now destruct (bool_decide (jsonText tokenType = expected)).
Qed.

(** X4. A refresh token, read under the same configuration from its issue
    until its expiry, passes [ValidateRefreshToken] with claims of type
    "refresh" and fails [ValidateAccessToken] and [ValidateResetToken] with
    ErrWrongTokenType. A reset token passes [ValidateResetToken] with
    claims of type "reset" and an empty role, and fails the two other
    validations with ErrWrongTokenType. *)
Theorem refresh_and_reset_tokens (j : JWTConfig) (now now' : Z)
    (userID email role : bytes) :
  now <= now' ->
  (now' < (now + RefreshTokenExpiry j) / SecondNs * SecondNs ->
   (exists claims,
       ValidateRefreshToken j now' (GenerateRefreshToken j now userID email role)
       = Ok claims
       /\ TokenType claims = TokenTypeRefresh)
   /\ ValidateAccessToken j now' (GenerateRefreshToken j now userID email role)
      = Err ErrWrongTokenType
   /\ ValidateResetToken j now' (GenerateRefreshToken j now userID email role)
      = Err ErrWrongTokenType)
  /\ (now' < (now + ResetTokenExpiry j) / SecondNs * SecondNs ->
      (exists claims,
          ValidateResetToken j now' (GenerateResetToken j now userID email)
          = Ok claims
          /\ TokenType claims = TokenTypeReset /\ Role claims = [])
      /\ ValidateAccessToken j now' (GenerateResetToken j now userID email)
         = Err ErrWrongTokenType
      /\ ValidateRefreshToken j now' (GenerateResetToken j now userID email)
         = Err ErrWrongTokenType).
Proof.
  intros Hle.
  unfold ValidateAccessToken, ValidateRefreshToken, ValidateResetToken,
    GenerateRefreshToken, GenerateResetToken.
  split; intros Hlt; rewrite !validateType_generateToken by assumption;
    unfold TokenTypeAccess, TokenTypeRefresh, TokenTypeReset;
    rewrite !jwt_facts.jsonText_lit by reflexivity.
  - rewrite bool_decide_eq_true_2 by reflexivity.
    rewrite !bool_decide_eq_false_2 by discriminate.
    split; [|split; reflexivity]. eexists. split; [reflexivity|].
    cbn [throughJSON newClaims TokenType]. now apply jwt_facts.jsonText_lit.
  - rewrite bool_decide_eq_true_2 by reflexivity.
    rewrite !bool_decide_eq_false_2 by discriminate.
    split; [|split; reflexivity]. eexists. split; [reflexivity|].
    cbn [throughJSON newClaims TokenType Role].
    split; [now apply jwt_facts.jsonText_lit | now apply jsonText_ascii].
Qed.

(** X5. The claims an access token validates to are those it was made
    from: for a user id, email and role in ASCII, read before the expiry,
    they come back unchanged, the subject is the user id, and expiry,
    issued-at and not-before are the whole seconds of the issue time plus
    the configured lifetime and of the issue time. *)
Theorem access_token_claims (j : JWTConfig) (now now' : Z) (userID email role : bytes) :
  now <= now' ->
  now' < (now + AccessTokenExpiry j) / SecondNs * SecondNs ->
  Forall (fun c => byteZ c < 128) userID ->
  Forall (fun c => byteZ c < 128) email ->
  Forall (fun c => byteZ c < 128) role ->
  exists claims,
    ValidateAccessToken j now' (GenerateAccessToken j now userID email role) = Ok claims
    /\ UserID claims = userID /\ Email claims = email /\ Role claims = role
    /\ Subject (Registered claims) = userID
    /\ ExpiresAt (Registered claims) = Some ((now + AccessTokenExpiry j) / SecondNs)
    /\ IssuedAt (Registered claims) = Some (now / SecondNs)
    /\ NotBefore (Registered claims) = Some (now / SecondNs).
Proof.
  intros Hle Hlt Hu He Hr.
  unfold ValidateAccessToken, GenerateAccessToken.
  rewrite validateType_generateToken by assumption.
  unfold TokenTypeAccess. rewrite jwt_facts.jsonText_lit by reflexivity.
  rewrite bool_decide_eq_true_2 by reflexivity.
  eexists. split; [reflexivity|].
  cbn [throughJSON newClaims UserID Email Role Registered Subject ExpiresAt
       IssuedAt NotBefore].
  rewrite !jsonText_ascii by assumption. repeat split.
Qed.

(** A token is three segments; whatever is not, is refused. *)
Lemma ParseToken_segments j now tokenString :
  length (Split tokenString "."%char) <> 3%nat ->
  ParseToken j now tokenString = Err ErrInvalidToken.
Proof.
  intros Hl. unfold ParseToken, ParseWithClaims.
  destruct (Split tokenString "."%char) as [|a [|b [|c [|d t]]]]; try reflexivity.
  now contradiction Hl.
Qed.

(** X6. A token that names an algorithm outside the HMAC family in its
    header (RS256, ES256, none, or a name the library does not know) is
    refused with ErrInvalidToken by every validation, whatever its claims
    and its signature; so is every string that is not three segments
    between dots. *)
Theorem foreign_tokens_refused (j : JWTConfig) (now : Z) (expected : bytes) :
  (forall tokenString,
      length (Split tokenString "."%char) <> 3%nat ->
      validateType expected j now tokenString = Err ErrInvalidToken)
  /\ (forall headerPart claimsPart signaturePart alg,
      "."%char ∉ headerPart -> "."%char ∉ claimsPart -> "."%char ∉ signaturePart ->
      decodeHeader headerPart = Some alg ->
      alg <> lit "HS256" -> alg <> lit "HS384" -> alg <> lit "HS512" ->
      validateType expected j now
        (headerPart ++ lit "." ++ claimsPart ++ lit "." ++ signaturePart)
      = Err ErrInvalidToken).
Proof.
  split.
  - intros tokenString Hl. unfold validateType.
    now rewrite ParseToken_segments.
  - intros h c s alg Hh Hc Hs Hd H256 H384 H512.
    unfold validateType, ParseToken, ParseWithClaims.
    change (lit ".") with ["."%char]. cbn [app].
    rewrite (Split_app _ _ _ Hh), (Split_app _ _ _ Hc), (Split_no_sep _ _ Hs).
    rewrite Hd. destruct (decodeClaims c) as [claims|]; [|reflexivity].
    unfold GetSigningMethod.
    rewrite !bool_decide_eq_false_2 by assumption.
    destruct (bool_decide (alg ∈ _)); [|reflexivity].
    destruct (DecodeString RawURLEncoding s); reflexivity.
Qed.

(** X25. [NewJWT] panics exactly on an empty secret. Otherwise it keeps
    the secret and replaces a lifetime of zero by its default (15 minutes
    for access, 7 days for refresh, 1 hour for reset tokens); every other
    lifetime is kept, a negative one too, and under a negative access
    lifetime every access token is refused as expired from the moment it
    is issued. *)
Theorem NewJWT_lifetimes (config : JWTConfig) :
  (NewJWT config = Panic <-> Secret config = [])
  /\ forall j, NewJWT config = Ok j ->
       Secret j = Secret config
       /\ AccessTokenExpiry j
          = (if AccessTokenExpiry config =? 0 then 15 * MinuteNs
             else AccessTokenExpiry config)
       /\ RefreshTokenExpiry j
          = (if RefreshTokenExpiry config =? 0 then 7 * 24 * HourNs
             else RefreshTokenExpiry config)
       /\ ResetTokenExpiry j
          = (if ResetTokenExpiry config =? 0 then 1 * HourNs
             else ResetTokenExpiry config)
       /\ (AccessTokenExpiry config < 0 ->
           forall now now' userID email role,
             now <= now' ->
             ValidateAccessToken j now' (GenerateAccessToken j now userID email role)
             = Err ErrTokenExpired).
Proof.
  unfold NewJWT. split.
  - case_bool_decide as Hs; split; intros Hp; try discriminate; congruence.
  - intros j. case_bool_decide as Hs; [discriminate|]. intros [= <-].
    cbn [Secret AccessTokenExpiry RefreshTokenExpiry ResetTokenExpiry].
    split; [reflexivity|]. split; [reflexivity|]. split; [reflexivity|].
    split; [reflexivity|].
    intros Hneg now now' userID email role Hle.
    destruct (Z.eqb_spec (AccessTokenExpiry config) 0) as [Hz|_]; [lia|].
    unfold ValidateAccessToken, validateType, GenerateAccessToken, generateToken.
    cbn [Secret AccessTokenExpiry].
    rewrite jwt_facts.ParseToken_SignedString. unfold bytesEqual.
    rewrite bool_decide_eq_true_2 by reflexivity.
    match goal with
    | |- context [validateClaims (throughJSON ?c) now'] =>
        destruct (jwt_facts.validateClaims_expired c
                    ((now + AccessTokenExpiry config) / SecondNs) now')
          as [nvy Hvc]
    end.
    + reflexivity.
    + pose proof (Z.mul_div_le (now + AccessTokenExpiry config) SecondNs
                    ltac:(reflexivity)).
      lia.
    + rewrite Hvc. reflexivity.
Qed.

End with_codec.

(** The two theorems with hypotheses, on the sample configuration and the
    stand-in codec. *)
Lemma refresh_and_reset_tokens_witness :
  (exists claims,
      @ValidateRefreshToken jwt_facts.sampleCodec sampleJWT 1700000000500000000
        (@GenerateRefreshToken jwt_facts.sampleCodec sampleJWT 1700000000000000000
           (lit "user123") (lit "user@example.com") (lit "admin"))
      = Ok claims
      /\ TokenType claims = TokenTypeRefresh)
  /\ @ValidateAccessToken jwt_facts.sampleCodec sampleJWT 1700000000500000000
       (@GenerateRefreshToken jwt_facts.sampleCodec sampleJWT 1700000000000000000
          (lit "user123") (lit "user@example.com") (lit "admin"))
     = Err ErrWrongTokenType.
Proof.
  destruct (@refresh_and_reset_tokens jwt_facts.sampleCodec sampleJWT
              1700000000000000000 1700000000500000000
              (lit "user123") (lit "user@example.com") (lit "admin"))
    as [Hrefresh _]; [lia|].
  destruct Hrefresh as (Hok & Hwrong & _); [reflexivity|].
  split; [exact Hok | exact Hwrong].
Defined.

Lemma access_token_claims_witness :
  exists claims,
    @ValidateAccessToken jwt_facts.sampleCodec sampleJWT 1700000000500000000
      (@GenerateAccessToken jwt_facts.sampleCodec sampleJWT 1700000000000000000
         (lit "user123") (lit "user@example.com") (lit "admin"))
    = Ok claims
    /\ UserID claims = lit "user123" /\ Role claims = lit "admin"
    /\ ExpiresAt (Registered claims) = Some 1700000900.
Proof.
  destruct (@access_token_claims jwt_facts.sampleCodec sampleJWT
              1700000000000000000 1700000000500000000
              (lit "user123") (lit "user@example.com") (lit "admin"))
    as (claims & Hv & Hu & _ & Hr & _ & He & _);
    [lia | reflexivity | | | |].
  1-3: apply (bool_decide_unpack _); vm_compute; reflexivity.
  exists claims. split; [exact Hv|]. split; [exact Hu|]. split; [exact Hr|].
  rewrite He. vm_compute. reflexivity.
Defined.

Lemma foreign_tokens_refused_witness :
  @ValidateAccessToken jwt_facts.sampleCodec sampleJWT 1700000000000000000
    (lit "not a token") = Err ErrInvalidToken
  /\ @ValidateAccessToken jwt_facts.sampleCodec sampleJWT 1700000000000000000
       (sampleEncodeHeader (lit "none") ++ lit "."
        ++ sampleEncodeClaims
             (newClaims sampleJWT 1700000000000000000 (lit "user123")
                (lit "user@example.com") (lit "admin") TokenTypeAccess
                (AccessTokenExpiry sampleJWT))
        ++ lit "." ++ [])
     = Err ErrInvalidToken.
Proof.
  destruct (@foreign_tokens_refused jwt_facts.sampleCodec sampleJWT
              1700000000000000000 TokenTypeAccess) as [Hseg Halg].
  unfold ValidateAccessToken. split.
  - apply Hseg. vm_compute. discriminate.
  - apply (Halg (sampleEncodeHeader (lit "none")) _ [] (lit "none")).
    + apply dot_not_posBytes.
    + apply dot_not_posBytes.
    + apply not_elem_of_nil.
    + apply jwt_facts.sampleDecodeHeader_law.
    + discriminate.
    + discriminate.
    + discriminate.
Defined.

End jwt_more.

(* --------------------------------------------------------------------- *)
(** ** session.go and session_context.go: the constructor, the failures
    of [Get], the middleware *)

Module session_more.
Import session.

Section with_libraries.
Context `{AESGCM} `{JSON}.

Lemma decrypt_no_panic s v : decrypt s v <> Panic.
Proof.
  unfold decrypt. destruct (DecodeString StdEncoding v); [|discriminate].
  destruct (negb _); [discriminate|]. destruct (_ <? _)%nat; [discriminate|].
  destruct (gcmOpen _ _ _); discriminate.
Qed.

Lemma Get_no_panic s now r : Get s now r <> Panic.
Proof.
  unfold Get. destruct (RequestCookie r SessionCookieName) as [v|]; [|discriminate].
  pose proof (decrypt_no_panic s v) as Hd.
  destruct (decrypt s v) as [j| |]; [|discriminate | contradiction].
  destruct (Unmarshal j) as [d|]; [|discriminate].
  destruct (After now (ExpiresAt d)); discriminate.
Qed.

Lemma NewSession_eq config :
  NewSession config =
  if negb (length (Key config) =? 32)%nat then Err ErrKeyLength
  else Ok {| Key := Key config;
             CookieSecure := CookieSecure config;
             CookiePath := if bool_decide (CookiePath config = []) then lit "/"
                           else CookiePath config;
             CookieDomain := CookieDomain config;
             CookieMaxAge := if CookieMaxAge config =? 0 then 86400
                             else CookieMaxAge config;
             CookieSameSite := if CookieSameSite config =? 0 then SameSiteLaxMode
                               else CookieSameSite config |}.
Proof.
  unfold NewSession. destruct (negb _); [reflexivity|].
  destruct config as [key secure path domain maxAge sameSite]. cbv zeta.
  cbn [Key CookieSecure CookiePath CookieDomain CookieMaxAge CookieSameSite].
  destruct (bool_decide (path = []));
    cbn [Key CookieSecure CookiePath CookieDomain CookieMaxAge CookieSameSite];
    destruct (maxAge =? 0);
    cbn [Key CookieSecure CookiePath CookieDomain CookieMaxAge CookieSameSite];
    destruct (sameSite =? 0); reflexivity.
Qed.

Lemma NewSession_idem s s' : NewSession s = Ok s' -> NewSession s' = Ok s'.
Proof.
  rewrite NewSession_eq. destruct (negb (length (Key s) =? 32)%nat) eqn:Ek;
    [discriminate|].
  intros [= <-]. rewrite NewSession_eq.
  cbn [Key CookieSecure CookiePath CookieDomain CookieMaxAge CookieSameSite].
  rewrite Ek. f_equal.
  destruct (bool_decide (CookiePath s = [])) eqn:Ep;
    destruct (CookieMaxAge s =? 0) eqn:Em;
    destruct (CookieSameSite s =? 0) eqn:Es;
    rewrite ?Ep, ?Em, ?Es; reflexivity.
Qed.

(** X7. [NewSession] refuses every key that is not 32 bytes long, with the
    error "session encryption key must be 32 bytes". With a 32-byte key it
    keeps key, domain and Secure flag, fills in path "/", max-age 86400 and
    SameSite Lax where the configuration has none, is unchanged by a second
    application, and the session it returns encrypts any text into a
    cookie value that [decrypt] turns back into the text, whenever the
    random source delivers. *)
Theorem NewSession_key_and_defaults (config : SessionConfig) :
  (length (Key config) <> 32%nat ->
   NewSession config = Err ErrKeyLength
   /\ errorText ErrKeyLength = lit "session encryption key must be 32 bytes")
  /\ (length (Key config) = 32%nat ->
      exists s,
        NewSession config = Ok s
        /\ NewSession s = Ok s
        /\ Key s = Key config /\ CookieDomain s = CookieDomain config
        /\ CookieSecure s = CookieSecure config
        /\ CookiePath s = (if bool_decide (CookiePath config = []) then lit "/"
                           else CookiePath config)
        /\ CookieMaxAge s = (if CookieMaxAge config =? 0 then 86400
                             else CookieMaxAge config)
        /\ CookieSameSite s = (if CookieSameSite config =? 0 then SameSiteLaxMode
                               else CookieSameSite config)
        /\ forall f plaintext,
            exists encryptedData,
              encrypt s (Some f) plaintext = Ok encryptedData
              /\ decrypt s encryptedData = Ok plaintext).
Proof.
  split.
  - intros Hk. split; [|reflexivity]. rewrite NewSession_eq.
    apply Nat.eqb_neq in Hk. now rewrite Hk.
  - intros Hk.
    assert (Hn : NewSession config = Ok {|
      Key := Key config; CookieSecure := CookieSecure config;
      CookiePath := if bool_decide (CookiePath config = []) then lit "/"
                    else CookiePath config;
      CookieDomain := CookieDomain config;
      CookieMaxAge := if CookieMaxAge config =? 0 then 86400
                      else CookieMaxAge config;
      CookieSameSite := if CookieSameSite config =? 0 then SameSiteLaxMode
                        else CookieSameSite config |})
      by (rewrite NewSession_eq, Hk; reflexivity).
    eexists. split; [exact Hn|]. split; [exact (NewSession_idem _ _ Hn)|].
    cbn [Key CookieSecure CookiePath CookieDomain CookieMaxAge CookieSameSite].
    repeat (split; [reflexivity|]).
    intros f plaintext.
    match goal with
    | |- exists e, encrypt ?s _ _ = _ /\ _ =>
        destruct (session_facts.decrypt_encrypt s f plaintext)
          as (e & He & _ & Hd);
          [cbn [Key]; now rewrite Hk | exists e; split; [exact He | exact Hd]]
    end.
Qed.

(** X8. When [Get] returns session data, the request carried a session
    cookie whose value is base64 of at least twelve bytes, the rest of
    which the cipher opens under the session key with the first twelve as
    nonce, the opened text is JSON of exactly the data returned, and the
    expiry of the data is not before the time of the call. A request
    without the cookie gets ErrNoCookie, and a cookie that is no base64, is
    too short, or does not open gets ErrSessionDecryption: so does the
    empty cookie that [Clear] sets. *)
Theorem Get_accepts_only_opened_cookies (s : Session) (now : Z) (r : Request) :
  (forall d,
      Get s now r = Ok d ->
      exists value ciphertext jsonData,
        RequestCookie r SessionCookieName = Some value
        /\ DecodeString StdEncoding value = Some ciphertext
        /\ (gcmNonceSize <= length ciphertext)%nat
        /\ gcmOpen (Key s) (take gcmNonceSize ciphertext)
             (drop gcmNonceSize ciphertext) = Some jsonData
        /\ Unmarshal jsonData = Some d
        /\ now <= ExpiresAt d)
  /\ (RequestCookie r SessionCookieName = None -> Get s now r = Err ErrNoCookie)
  /\ (forall value,
      RequestCookie r SessionCookieName = Some value ->
      match DecodeString StdEncoding value with
      | None => True
      | Some ciphertext =>
          (length ciphertext < gcmNonceSize)%nat
          \/ gcmOpen (Key s) (take gcmNonceSize ciphertext)
               (drop gcmNonceSize ciphertext) = None
      end ->
      Get s now r = Err ErrSessionDecryption)
  /\ Get s now (requestWith (Clear s)) = Err ErrSessionDecryption.
Proof.
  split; [|split; [|split]].
  - intros d. unfold Get, decrypt.
    destruct (RequestCookie r SessionCookieName) as [value|]; [|discriminate].
    destruct (DecodeString StdEncoding value) as [ciphertext|] eqn:Ed;
      [|discriminate].
    destruct (negb (validKeySize (length (Key s)))); [discriminate|].
    destruct (length ciphertext <? gcmNonceSize)%nat eqn:El; [discriminate|].
    destruct (gcmOpen _ _ _) as [jsonData|] eqn:Eo; [|discriminate].
    destruct (Unmarshal jsonData) as [d'|] eqn:Eu; [|discriminate].
    unfold After. destruct (ExpiresAt d' <? now) eqn:Ea; [discriminate|].
    intros [= <-]. apply Nat.ltb_ge in El. apply Z.ltb_ge in Ea.
    exists value, ciphertext, jsonData. repeat split; assumption.
  - intros Hc. unfold Get. now rewrite Hc.
  - intros value Hc Hbad. unfold Get, decrypt. rewrite Hc.
    destruct (DecodeString StdEncoding value) as [ciphertext|]; [|reflexivity].
    destruct (negb (validKeySize (length (Key s)))); [reflexivity|].
    destruct Hbad as [Hl | Ho].
    + apply Nat.ltb_lt in Hl. now rewrite Hl.
    + destruct (length ciphertext <? gcmNonceSize)%nat; [reflexivity|].
      now rewrite Ho.
  - unfold Get, decrypt, requestWith, RequestCookie, Clear.
    cbn [Cookies Name Value lookupFirst].
    rewrite bool_decide_eq_true_2 by reflexivity.
    change (sanitizeCookieValue []) with (@nil ascii).
    change (DecodeString StdEncoding []) with (Some (@nil ascii)).
    cbv iota. destruct (negb (validKeySize (length (Key s)))); reflexivity.
Qed.

(** X9. The session middleware never refuses a request and never crashes:
    the next handler always runs. It is handed the session data in the
    context exactly when [Get] succeeds, and then [IsAuthenticated],
    [GetUserID], [GetUserRole] and [HasRole] answer from that data. The
    cookie is cleared exactly when [Get] fails on a cookie that is there
    (it does not open, holds no session JSON, or has expired); a request
    without cookie is handed on as it came. *)
Theorem Middleware_attaches_or_clears (s : Session) (now : Z) (ctx : Context)
    (r : Request) :
  match Get s now r with
  | Ok d =>
      Middleware s now ctx r = Ok ([], Some d)
      /\ IsAuthenticated (Some d) = negb (bool_decide (UserID d = []))
      /\ GetUserID (Some d) = UserID d
      /\ GetUserRole (Some d) = Role d
      /\ forall role, HasRole (Some d) role = bool_decide (Role d = role)
  | Err err =>
      Middleware s now ctx r
      = Ok (if bool_decide (RequestCookie r SessionCookieName = None) then []
            else [Clear s], ctx)
  | Panic => False
  end
  /\ IsAuthenticated None = false /\ GetUserID None = [] /\ GetUserRole None = []
  /\ forall role, HasRole None role = false.
Proof.
  split; [|repeat split].
  pose proof (Get_no_panic s now r) as Hp. unfold Middleware.
  destruct (Get s now r) as [d|err|] eqn:Eg; [| |contradiction].
  - repeat split.
  - unfold Get in Eg.
    destruct (RequestCookie r SessionCookieName) as [value|].
    + rewrite (bool_decide_eq_false_2 (Some value = None)) by discriminate.
      destruct (decrypt s value) as [j|e|]; [|injection Eg as <-; reflexivity|discriminate].
      destruct (Unmarshal j) as [d|]; [|injection Eg as <-; reflexivity].
      destruct (After now (ExpiresAt d)); [injection Eg as <-; reflexivity|discriminate].
    + injection Eg as <-. reflexivity.
Qed.

Lemma wrap64_small x : - 2 ^ 63 <= x < 2 ^ 63 -> wrap64 x = x.
Proof. intros Hx. unfold wrap64. rewrite Z.mod_small; lia. Qed.

(** X10. A payload without expiry (the zero time) is given the lifetime of
    the cookie: [Create] stamps it with the time of the call plus
    CookieMaxAge seconds, the cookie carries the same max-age, and [Get]
    returns the session up to that instant and answers "session expired"
    after it. *)
Theorem Create_default_expiry (s : Session) (f : nat -> ascii) (now now' : Z)
    (d : SessionData) :
  length (Key s) = 32%nat ->
  ExpiresAt d = zeroTime ->
  - 2 ^ 63 <= CookieMaxAge s * SecondNs < 2 ^ 63 ->
  is_Some (Marshal {| UserID := UserID d; Role := Role d;
                      ExpiresAt := now + CookieMaxAge s * SecondNs;
                      Data := Data d |}) ->
  plainKeys (Map (Data d)) ->
  exists cookie,
    Create s (Some f) now d = Ok cookie
    /\ MaxAge cookie = CookieMaxAge s
    /\ (now' <= now + CookieMaxAge s * SecondNs ->
        exists d',
          Get s now' (requestWith cookie) = Ok d'
          /\ ExpiresAt d' = now + CookieMaxAge s * SecondNs
          /\ UserID d' = coerceUTF8 (UserID d) /\ Role d' = coerceUTF8 (Role d))
    /\ (now + CookieMaxAge s * SecondNs < now' ->
        Get s now' (requestWith cookie) = Err ErrSessionExpired).
Proof.
  intros Hk Hz Hr [j Hm] Hp.
  destruct (session_facts.Get_Create_default s f now now' d j Hk Hz) as (cookie & Hc & Hg).
  - unfold secondsDuration. rewrite wrap64_small by exact Hr. exact Hm.
  - exact Hp.
  - unfold secondsDuration in Hg. rewrite wrap64_small in Hg by exact Hr.
    exists cookie. split; [exact Hc|]. split.
    + unfold Create in Hc.
      destruct (Marshal (if IsZero (ExpiresAt d) then _ else d)) as [jd|];
        [|discriminate].
      destruct (encrypt s (Some f) jd) as [e| |]; try discriminate.
      cbn [mbind outcome_bind] in Hc. now injection Hc as <-.
    + unfold After in Hg. split.
      * intros Hle. replace (now + CookieMaxAge s * SecondNs <? now') with false in Hg
          by (symmetry; apply Z.ltb_ge; exact Hle).
        eexists. split; [exact Hg|]. repeat split.
      * intros Hlt. apply Z.ltb_lt in Hlt. now rewrite Hlt in Hg.
Qed.

End with_libraries.

(** The theorems with the stand-in libraries. *)
Lemma Create_default_expiry_witness :
  exists cookie,
    @Create session_facts.sampleGCM session_facts.sampleJSON sampleSession
      (Some (fun i => Zbyte (Z.of_nat i))) 1700000000000000000 (sampleData zeroTime)
    = Ok cookie
    /\ MaxAge cookie = 3600
    /\ @Get session_facts.sampleGCM session_facts.sampleJSON sampleSession
         1700003601000000000 (requestWith cookie)
       = Err ErrSessionExpired.
Proof.
  destruct (@Create_default_expiry session_facts.sampleGCM session_facts.sampleJSON
              sampleSession (fun i => Zbyte (Z.of_nat i))
              1700000000000000000 1700003601000000000 (sampleData zeroTime))
    as (cookie & Hc & Hm & _ & Hstale).
  - reflexivity.
  - reflexivity.
  - cbn [CookieMaxAge sampleSession]. unfold SecondNs. lia.
  - eexists. vm_compute. reflexivity.
  - apply session_facts.plainKeys_sampleData.
  - exists cookie. split; [exact Hc|]. split; [exact Hm|].
    apply Hstale. vm_compute. reflexivity.
Defined.

Lemma NewSession_key_and_defaults_witness :
  NewSession {| Key := lit "short"; CookieSecure := true; CookiePath := [];
                CookieDomain := []; CookieMaxAge := 0; CookieSameSite := 0 |}
  = Err ErrKeyLength
  /\ exists s,
      NewSession {| Key := sampleKey; CookieSecure := true; CookiePath := [];
                    CookieDomain := []; CookieMaxAge := 0; CookieSameSite := 0 |}
      = Ok s
      /\ NewSession s = Ok s
      /\ CookiePath s = lit "/" /\ CookieMaxAge s = 86400
      /\ CookieSameSite s = SameSiteLaxMode.
Proof.
  split.
  - apply (@NewSession_key_and_defaults session_facts.sampleGCM). cbn. lia.
  - destruct (proj2 (@NewSession_key_and_defaults session_facts.sampleGCM
                       {| Key := sampleKey; CookieSecure := true; CookiePath := [];
                          CookieDomain := []; CookieMaxAge := 0;
                          CookieSameSite := 0 |}) eq_refl)
      as (s & Hs & Hi & _ & _ & _ & Hp & Hm & Hss & _).
    exists s. repeat split; assumption.
Defined.

Lemma Get_accepts_only_opened_cookies_witness :
  @Get session_facts.sampleGCM session_facts.sampleJSON sampleSession 0
    {| Method := lit "GET"; Cookies := [(SessionCookieName, lit "not base64!")];
       ReqHeader := ∅; Form := []; RemoteAddr := []; URLPath := lit "/" |}
  = Err ErrSessionDecryption.
Proof.
  apply (proj1 (proj2 (proj2
           (@Get_accepts_only_opened_cookies session_facts.sampleGCM
              session_facts.sampleJSON sampleSession 0 _)))
           (lit "not base64!")).
  - reflexivity.
  - vm_compute. exact I.
Defined.

End session_more.

(* --------------------------------------------------------------------- *)
(** ** headers.go and cors.go: what ends up in the response header *)

Section header_maps.

Lemma HeaderValues_HeaderSet (h : Header) k v k' :
  HeaderValues (HeaderSet h k v) k' =
  if bool_decide (CanonicalMIMEHeaderKey k = CanonicalMIMEHeaderKey k')
  then [v] else HeaderValues h k'.
Proof.
  unfold HeaderValues, HeaderSet.
  destruct (bool_decide _) eqn:E.
  - apply bool_decide_eq_true in E. rewrite E. now rewrite lookup_insert_eq.
  - apply bool_decide_eq_false in E. now rewrite lookup_insert_ne.
Qed.

Lemma HeaderValues_HeaderAdd (h : Header) k v k' :
  HeaderValues (HeaderAdd h k v) k' =
  if bool_decide (CanonicalMIMEHeaderKey k = CanonicalMIMEHeaderKey k')
  then HeaderValues h k ++ [v] else HeaderValues h k'.
Proof.
  unfold HeaderValues, HeaderAdd.
  destruct (bool_decide _) eqn:E.
  - apply bool_decide_eq_true in E. rewrite <- E. now rewrite lookup_insert_eq.
  - apply bool_decide_eq_false in E. now rewrite lookup_insert_ne.
Qed.

Lemma HeaderValues_if (b : bool) (h1 h2 : Header) k :
  HeaderValues (if b then h1 else h2) k
  = if b then HeaderValues h1 k else HeaderValues h2 k.
Proof. now destruct b. Qed.

Lemma HeaderValues_if_HeaderSet (b : bool) (h : Header) k v k' :
  HeaderValues (if b then HeaderSet h k v else h) k' =
  if b && bool_decide (CanonicalMIMEHeaderKey k = CanonicalMIMEHeaderKey k')
  then [v] else HeaderValues h k'.
Proof. destruct b; [apply HeaderValues_HeaderSet | reflexivity]. Qed.

Lemma HeaderGet_HeaderValues (h : Header) k :
  HeaderGet h k = match HeaderValues h k with v :: _ => v | [] => [] end.
Proof.
  unfold HeaderGet, HeaderValues. now destruct (h !! CanonicalMIMEHeaderKey k).
Qed.

End header_maps.

(** ** Responses *)

Section response_writer.

(** What the three operations on a response do to its fields. *)
Lemma SetHeader_fields (w : ResponseWriter) (k v : bytes) :
  rwHeader (SetHeader w k v) = HeaderSet (rwHeader w) k v
  /\ rwStatus (SetHeader w k v) = rwStatus w
  /\ rwSent (SetHeader w k v) = rwSent w
  /\ rwBody (SetHeader w k v) = rwBody w.
Proof. repeat split. Qed.

Lemma WriteHeader_first (w : ResponseWriter) (code : Z) :
  rwStatus w = None ->
  rwHeader (WriteHeader w code) = rwHeader w
  /\ rwStatus (WriteHeader w code) = Some code
  /\ rwSent (WriteHeader w code) = rwHeader w
  /\ rwBody (WriteHeader w code) = rwBody w.
Proof. intros Hw. unfold WriteHeader. rewrite Hw. repeat split. Qed.

Lemma WriteBody_after_status (w : ResponseWriter) (code : Z) (b : bytes) :
  rwStatus w = Some code ->
  rwHeader (WriteBody w b) = rwHeader w
  /\ rwStatus (WriteBody w b) = Some code
  /\ rwSent (WriteBody w b) = rwSent w
  /\ rwBody (WriteBody w b) = rwBody w ++ b.
Proof.
  intros Hw. unfold WriteBody, WriteHeader. rewrite Hw.
  cbn [rwHeader rwStatus rwSent rwBody]. rewrite Hw. repeat split.
Qed.

End response_writer.

(** Comparing the canonical forms of two keys of the source. *)
Ltac header_keys :=
  repeat match goal with
         | |- context [bool_decide (CanonicalMIMEHeaderKey (lit ?a)
                                    = CanonicalMIMEHeaderKey (lit ?b))] =>
             tryif constr_eq a b
             then rewrite (bool_decide_eq_true_2
                             (CanonicalMIMEHeaderKey (lit a)
                              = CanonicalMIMEHeaderKey (lit b))) by reflexivity
             else rewrite (bool_decide_eq_false_2
                             (CanonicalMIMEHeaderKey (lit a)
                              = CanonicalMIMEHeaderKey (lit b)))
                    by (vm_compute; discriminate)
         end;
  cbv iota.

Module headers_more.
Import headers.

Lemma HeaderValues_setIfNonEmpty (k v : bytes) (h : Header) (k' : bytes) :
  HeaderValues (setIfNonEmpty k v h) k' =
  if bool_decide (v = []) then HeaderValues h k'
  else if bool_decide (CanonicalMIMEHeaderKey k = CanonicalMIMEHeaderKey k')
       then [v] else HeaderValues h k'.
Proof.
  unfold setIfNonEmpty. destruct (bool_decide (v = [])); [reflexivity|].
  apply HeaderValues_HeaderSet.
Qed.

Ltac header_values :=
  unfold SecurityHeaders;
  rewrite ?HeaderValues_HeaderSet, ?HeaderValues_setIfNonEmpty, ?HeaderValues_if,
    ?HeaderValues_setIfNonEmpty;
  header_keys.

(** X11. Whatever the configuration and whatever the response header held
    before, [SecurityHeaders] leaves Referrer-Policy, X-XSS-Protection,
    Permissions-Policy, Cache-Control, Pragma and
    X-Permitted-Cross-Domain-Policies with exactly one value each, the
    fixed one. Content-Security-Policy, X-Frame-Options and
    X-Content-Type-Options get the configured value as their only value when
    it is not empty and are left as they were when it is. With HSTS off, or
    a max-age that is not positive, Strict-Transport-Security is left as it
    was. *)
Theorem SecurityHeaders_sets (config : HeadersConfig) (w : Header) :
  HeaderValues (SecurityHeaders config w) (lit "Referrer-Policy")
  = [lit "strict-origin-when-cross-origin"]
  /\ HeaderValues (SecurityHeaders config w) (lit "X-XSS-Protection")
     = [lit "1; mode=block"]
  /\ HeaderValues (SecurityHeaders config w) (lit "Permissions-Policy")
     = [lit "accelerometer=(), camera=(), geolocation=(), gyroscope=(), magnetometer=(), microphone=(), payment=(), usb=()"]
  /\ HeaderValues (SecurityHeaders config w) (lit "Cache-Control")
     = [lit "no-store, max-age=0"]
  /\ HeaderValues (SecurityHeaders config w) (lit "Pragma") = [lit "no-cache"]
  /\ HeaderValues (SecurityHeaders config w) (lit "X-Permitted-Cross-Domain-Policies")
     = [lit "none"]
  /\ HeaderValues (SecurityHeaders config w) (lit "Content-Security-Policy")
     = (if bool_decide (ContentSecurityPolicy config = [])
        then HeaderValues w (lit "Content-Security-Policy")
        else [ContentSecurityPolicy config])
  /\ HeaderValues (SecurityHeaders config w) (lit "X-Frame-Options")
     = (if bool_decide (XFrameOptions config = [])
        then HeaderValues w (lit "X-Frame-Options")
        else [XFrameOptions config])
  /\ HeaderValues (SecurityHeaders config w) (lit "X-Content-Type-Options")
     = (if bool_decide (XContentTypeOptions config = [])
        then HeaderValues w (lit "X-Content-Type-Options")
        else [XContentTypeOptions config])
  /\ (HSTS config = false \/ HSTSMaxAge config <= 0 ->
      HeaderValues (SecurityHeaders config w) (lit "Strict-Transport-Security")
      = HeaderValues w (lit "Strict-Transport-Security")).
Proof.
  repeat split.
  1-6: header_values; reflexivity.
  1-3: header_values;
    repeat match goal with |- context [bool_decide ?P] => destruct (bool_decide P) end;
    destruct (HSTS config); reflexivity.
  intros Hoff. header_values.
  assert (HSTS config = false \/ hstsValue config = []) as [-> | ->].
  { destruct Hoff as [Hh | Hm]; [now left | right]. unfold hstsValue.
    replace (0 <? HSTSMaxAge config) with false
      by (symmetry; apply Z.ltb_ge; exact Hm).
    reflexivity. }
  - repeat match goal with |- context [bool_decide ?P] => destruct (bool_decide P) end;
      reflexivity.
  - rewrite (bool_decide_eq_true_2 (@nil ascii = [])) by reflexivity.
    repeat match goal with |- context [bool_decide ?P] => destruct (bool_decide P) end;
      destruct (HSTS config); reflexivity.
Qed.

End headers_more.

Module cors_more.
Import cors.

Lemma originAllowed_spec config origin :
  originAllowed config origin = true <->
  lit "*" ∈ AllowedOrigins config \/ origin ∈ AllowedOrigins config.
Proof.
  unfold originAllowed. rewrite existsb_exists. split.
  - intros (a & Hin & Ha). apply list_elem_of_In in Hin.
    apply orb_true_iff in Ha as [Ha | Ha]; apply bool_decide_eq_true in Ha;
      subst a; auto.
  - intros [Hin | Hin]; apply list_elem_of_In in Hin.
    + exists (lit "*"). split; [exact Hin|].
      now rewrite bool_decide_eq_true_2.
    + exists origin. split; [exact Hin|].
      rewrite (bool_decide_eq_true_2 (origin = origin)) by reflexivity.
      apply orb_true_r.
Qed.

Ltac cors_values :=
  unfold CORSMiddleware;
  match goal with
  | |- context [bool_decide (Method ?r = lit "OPTIONS")] =>
      destruct (bool_decide (Method r = lit "OPTIONS"))
  end;
  cbn [fst snd];
  rewrite ?HeaderValues_HeaderAdd; header_keys;
  rewrite ?HeaderValues_HeaderAdd; header_keys;
  rewrite ?HeaderValues_HeaderAdd; header_keys;
  rewrite ?HeaderValues_if_HeaderSet; header_keys;
  rewrite ?andb_false_r, ?andb_true_r; cbv iota.

(** X12. The CORS middleware sets Access-Control-Allow-Origin exactly when
    the list of allowed origins holds "*" or the Origin of the request, and
    then to the Origin of the request as its only value, also when the
    match was "*"; otherwise the header is left as it was.
    Access-Control-Allow-Credentials is "true" when the configuration asks
    for credentials and is left alone when not. *)
Theorem CORS_allow_origin (config : CORSConfig) (w : Header) (r : Request) :
  (originAllowed config (HeaderGet (ReqHeader r) (lit "Origin")) = true <->
   lit "*" ∈ AllowedOrigins config
   \/ HeaderGet (ReqHeader r) (lit "Origin") ∈ AllowedOrigins config)
  /\ HeaderValues (fst (CORSMiddleware config w r)) (lit "Access-Control-Allow-Origin")
     = (if originAllowed config (HeaderGet (ReqHeader r) (lit "Origin"))
        then [HeaderGet (ReqHeader r) (lit "Origin")]
        else HeaderValues w (lit "Access-Control-Allow-Origin"))
  /\ HeaderValues (fst (CORSMiddleware config w r))
       (lit "Access-Control-Allow-Credentials")
     = (if AllowCredentials config then [lit "true"]
        else HeaderValues w (lit "Access-Control-Allow-Credentials")).
Proof.
  split; [apply originAllowed_spec|]. split; cors_values; reflexivity.
Qed.

(** X13. A preflight request (method OPTIONS) is answered by the CORS
    middleware itself with 204 and never reaches the next handler; Origin,
    Access-Control-Request-Method and Access-Control-Request-Headers are
    appended, in this order, to the values Vary had. Every other request is
    handed on with no status written and Vary as it was. *)
Theorem CORS_preflight (config : CORSConfig) (w : Header) (r : Request) :
  snd (CORSMiddleware config w r)
  = (if bool_decide (Method r = lit "OPTIONS") then Some 204 else None)
  /\ HeaderValues (fst (CORSMiddleware config w r)) (lit "Vary")
     = (if bool_decide (Method r = lit "OPTIONS")
        then HeaderValues w (lit "Vary")
             ++ [lit "Origin"; lit "Access-Control-Request-Method";
                 lit "Access-Control-Request-Headers"]
        else HeaderValues w (lit "Vary")).
Proof.
  split.
  - unfold CORSMiddleware. now destruct (bool_decide (Method r = lit "OPTIONS")).
  - cors_values; rewrite <- ?app_assoc; reflexivity.
Qed.

Lemma fold_left_join (separator : bytes) (l : list bytes) (x y : bytes) :
  fold_left (fun result s => result ++ separator ++ s) l (x ++ y)
  = x ++ fold_left (fun result s => result ++ separator ++ s) l y.
Proof.
  revert y. induction l as [|a l IH]; intros y; [reflexivity|].
  cbn [fold_left]. rewrite <- app_assoc. apply IH.
Qed.

Lemma joinStrings_cons a b l separator :
  joinStrings (a :: b :: l) separator
  = a ++ separator ++ joinStrings (b :: l) separator.
Proof.
  unfold joinStrings. cbn [fold_left].
  rewrite fold_left_join. f_equal. apply (fold_left_join separator l separator b).
Qed.

Lemma Split_leading_space s :
  map TrimSpace (Split (" "%char :: s) ","%char) = map TrimSpace (Split s ","%char).
Proof.
  cbn [Split]. rewrite bool_decide_eq_false_2 by discriminate.
  pose proof (Split_nonempty s ","%char) as Hn.
  destruct (Split s ","%char) as [|h t]; [contradiction|].
  cbn [map]. f_equal.
Qed.

(** What a client gets that cuts the joined list at the commas and trims
    the pieces. *)
Lemma Split_joinStrings l :
  l <> [] -> Forall (fun x => ","%char ∉ x) l ->
  map TrimSpace (Split (joinStrings l (lit ", ")) ","%char) = map TrimSpace l.
Proof.
  induction l as [|a [|b l] IH]; intros Hne Hall; [contradiction| |].
  - apply Forall_inv in Hall. cbn [joinStrings fold_left].
    now rewrite Split_no_sep.
  - rewrite joinStrings_cons. change (lit ", ") with [","%char; " "%char].
    cbn [app]. inversion Hall as [|? ? Ha Hrest]; subst.
    rewrite (Split_app _ _ _ Ha). cbn [map]. f_equal.
    rewrite Split_leading_space. apply IH; [discriminate | exact Hrest].
Qed.

(** X14. Access-Control-Allow-Methods and Access-Control-Allow-Headers
    carry the configured lists joined with ", " when the lists are not
    empty and are left alone when they are; a list whose entries hold no
    comma is recovered, entry for entry up to blanks at the ends, by
    cutting the header value at the commas and trimming. With a positive
    MaxAge, Access-Control-Max-Age is the decimal number, which scans back
    to MaxAge; otherwise the header is left alone. *)
Theorem CORS_lists_and_max_age (config : CORSConfig) (w : Header) (r : Request) :
  HeaderValues (fst (CORSMiddleware config w r)) (lit "Access-Control-Allow-Methods")
  = (if (0 <? length (AllowedMethods config))%nat
     then [joinStrings (AllowedMethods config) (lit ", ")]
     else HeaderValues w (lit "Access-Control-Allow-Methods"))
  /\ HeaderValues (fst (CORSMiddleware config w r)) (lit "Access-Control-Allow-Headers")
     = (if (0 <? length (AllowedHeaders config))%nat
        then [joinStrings (AllowedHeaders config) (lit ", ")]
        else HeaderValues w (lit "Access-Control-Allow-Headers"))
  /\ (forall l, l <> [] -> Forall (fun x => ","%char ∉ x) l ->
      map TrimSpace (Split (joinStrings l (lit ", ")) ","%char) = map TrimSpace l)
  /\ HeaderValues (fst (CORSMiddleware config w r)) (lit "Access-Control-Max-Age")
     = (if 0 <? MaxAge config then [FormatInt (MaxAge config)]
        else HeaderValues w (lit "Access-Control-Max-Age"))
  /\ (0 < MaxAge config < 2 ^ 63 ->
      scanInt (FormatInt (MaxAge config)) = Ok (MaxAge config, [])).
Proof.
  split; [cors_values; reflexivity|]. split; [cors_values; reflexivity|].
  split; [exact Split_joinStrings|]. split; [cors_values; reflexivity|].
  intros Hm. rewrite <- (app_nil_r (FormatInt (MaxAge config))).
  apply scanInt_FormatInt; [lia | reflexivity].
Qed.

(** The theorem on the default configuration. *)
Lemma CORS_lists_and_max_age_witness :
  HeaderValues (fst (CORSMiddleware DefaultCORSConfig ∅
                       (requestFrom (lit "GET") (lit "http://localhost:5173"))))
    (lit "Access-Control-Allow-Methods")
  = [lit "GET, POST, PUT, DELETE, OPTIONS, PATCH"]
  /\ HeaderValues (fst (CORSMiddleware DefaultCORSConfig ∅
                          (requestFrom (lit "GET") (lit "http://localhost:5173"))))
       (lit "Access-Control-Max-Age")
     = [lit "86400"]
  /\ scanInt (lit "86400") = Ok (86400, []).
Proof.
  destruct (CORS_lists_and_max_age DefaultCORSConfig ∅
              (requestFrom (lit "GET") (lit "http://localhost:5173")))
    as (Hm & _ & _ & Ha & Hs).
  split; [rewrite Hm; reflexivity|]. split; [rewrite Ha; reflexivity|].
  apply Hs. cbn. lia.
Defined.

End cors_more.

(* --------------------------------------------------------------------- *)
(** ** education.go, certification.go, skill.go: what [Validate] accepts,
    and [BeforeSave] before it *)

Module domain_more.
Import domain.

Section education.
Import Education.

Lemma Education_accepted e :
  Validate e = None <->
  TrimSpace (Institution e) <> [] /\ TrimSpace (Degree e) <> []
  /\ exists startDate,
      ParseDate (StartDate e) = Some startDate
      /\ (EndDate e = [] \/ EndDate e = lit "Present"
          \/ exists endDate,
              ParseDate (EndDate e) = Some endDate /\ startDate <= endDate).
Proof.
  unfold Validate. split.
  - destruct (bool_decide (TrimSpace (Institution e) = [])) eqn:Ei; [discriminate|].
    destruct (bool_decide (TrimSpace (Degree e) = [])) eqn:Ed; [discriminate|].
    destruct (bool_decide (TrimSpace (StartDate e) = [])) eqn:Es; [discriminate|].
    apply bool_decide_eq_false in Ei, Ed, Es.
    destruct (bool_decide (StartDate e = [])) eqn:Ee.
    { apply bool_decide_eq_true in Ee. rewrite Ee in Es. now contradiction Es. }
    destruct (ParseDate (StartDate e)) as [startDate|]; [|discriminate].
    intros Hv. split; [exact Ei|]. split; [exact Ed|]. exists startDate.
    split; [reflexivity|].
    destruct (bool_decide (EndDate e <> [])) eqn:E1;
      [|left; apply bool_decide_eq_false in E1; now apply dec_stable].
    destruct (bool_decide (EndDate e <> lit "Present")) eqn:E2;
      [|right; left; apply bool_decide_eq_false in E2; now apply dec_stable].
    cbn [andb] in Hv. right. right.
    destruct (ParseDate (EndDate e)) as [endDate|]; [|discriminate].
    unfold Before in Hv. destruct (endDate <? startDate) eqn:Eb; [discriminate|].
    exists endDate. split; [reflexivity|]. now apply Z.ltb_ge.
  - intros (Hi & Hd & startDate & Hs & Hend).
    destruct (ParseDate_concrete _ _ Hs) as (Hs1 & _ & _ & Hs2).
    rewrite (bool_decide_eq_false_2 _ Hi), (bool_decide_eq_false_2 _ Hd).
    rewrite (bool_decide_eq_false_2 _ Hs2), (bool_decide_eq_false_2 _ Hs1), Hs.
    destruct Hend as [-> | [-> | (endDate & He & Hle)]]; [reflexivity | reflexivity |].
    destruct (ParseDate_concrete _ _ He) as (He1 & He2 & _ & _).
    rewrite (bool_decide_eq_true_2 _ He1), (bool_decide_eq_true_2 _ He2), He.
    cbn [andb]. unfold Before.
    now replace (endDate <? startDate) with false by (symmetry; apply Z.ltb_ge; exact Hle).
Qed.

End education.

Section certification.
Import Certification.
Context `{URLParser}.

Lemma Certification_accepted c :
  Validate c = None <->
  TrimSpace (Name c) <> [] /\ TrimSpace (Issuer c) <> []
  /\ (exists issueDate,
         ParseDate (IssueDate c) = Some issueDate
         /\ (ExpiryDate c = [] \/ ExpiryDate c = lit "No Expiration"
             \/ exists expiryDate,
                 ParseDate (ExpiryDate c) = Some expiryDate
                 /\ issueDate <= expiryDate))
  /\ (URL c = [] \/ ParseRequestURI (URL c) = true).
Proof.
  assert (Hurl : validateURL c = None <-> URL c = [] \/ ParseRequestURI (URL c) = true).
  { unfold validateURL. destruct (bool_decide (URL c <> [])) eqn:E1.
    - apply bool_decide_eq_true in E1. destruct (ParseRequestURI (URL c)); cbn.
      + split; auto.
      + split; [discriminate | intros [? | ?]; [contradiction | discriminate]].
    - apply bool_decide_eq_false in E1. apply dec_stable in E1. cbn. split; auto. }
  unfold Validate. split.
  - destruct (bool_decide (TrimSpace (Name c) = [])) eqn:Ei; [discriminate|].
    destruct (bool_decide (TrimSpace (Issuer c) = [])) eqn:Ed; [discriminate|].
    destruct (bool_decide (TrimSpace (IssueDate c) = [])) eqn:Es; [discriminate|].
    apply bool_decide_eq_false in Ei, Ed, Es.
    destruct (bool_decide (IssueDate c = [])) eqn:Ee.
    { apply bool_decide_eq_true in Ee. rewrite Ee in Es. now contradiction Es. }
    destruct (ParseDate (IssueDate c)) as [issueDate|]; [|discriminate].
    intros Hv. split; [exact Ei|]. split; [exact Ed|].
    destruct (bool_decide (ExpiryDate c <> [])) eqn:E1.
    + destruct (bool_decide (ExpiryDate c <> lit "No Expiration")) eqn:E2.
      * cbn [andb] in Hv.
        destruct (ParseDate (ExpiryDate c)) as [expiryDate|]; [|discriminate].
        unfold Before in Hv.
        destruct (expiryDate <? issueDate) eqn:Eb; [discriminate|].
        split; [|now apply Hurl]. exists issueDate. split; [reflexivity|].
        right. right. exists expiryDate. split; [reflexivity|]. now apply Z.ltb_ge.
      * cbn [andb] in Hv. split; [|now apply Hurl].
        exists issueDate. split; [reflexivity|]. right. left.
        apply bool_decide_eq_false in E2. now apply dec_stable.
    + cbn [andb] in Hv. split; [|now apply Hurl].
      exists issueDate. split; [reflexivity|]. left.
      apply bool_decide_eq_false in E1. now apply dec_stable.
  - intros (Hi & Hd & (issueDate & Hs & Hend) & Hu). apply Hurl in Hu.
    destruct (ParseDate_concrete _ _ Hs) as (Hs1 & _ & _ & Hs2).
    rewrite (bool_decide_eq_false_2 _ Hi), (bool_decide_eq_false_2 _ Hd).
    rewrite (bool_decide_eq_false_2 _ Hs2), (bool_decide_eq_false_2 _ Hs1), Hs.
    destruct Hend as [-> | [-> | (expiryDate & He & Hle)]];
      [exact Hu | exact Hu |].
    destruct (ParseDate_concrete _ _ He) as (He1 & _ & He2 & _).
    rewrite (bool_decide_eq_true_2 _ He1), (bool_decide_eq_true_2 _ He2), He.
    cbn [andb]. unfold Before.
    now replace (expiryDate <? issueDate) with false
      by (symmetry; apply Z.ltb_ge; exact Hle).
Qed.

End certification.

(** X15. [Validate] accepts an Education entry exactly when institution
    and degree are not blank, the start date is a date YYYY-MM-DD, and the
    end date is empty, "Present", or a date YYYY-MM-DD not before the start
    date. It accepts a Certification exactly when name and issuer are not
    blank, the issue date is a date, the expiry date is empty, "No
    Expiration" or a date not before the issue date, and the URL is empty
    or one that url.ParseRequestURI takes. *)
Theorem Validate_accepts_iff `{URLParser} :
  (forall e,
      Education.Validate e = None <->
      TrimSpace (Education.Institution e) <> []
      /\ TrimSpace (Education.Degree e) <> []
      /\ exists startDate,
          ParseDate (Education.StartDate e) = Some startDate
          /\ (Education.EndDate e = [] \/ Education.EndDate e = lit "Present"
              \/ exists endDate,
                  ParseDate (Education.EndDate e) = Some endDate
                  /\ startDate <= endDate))
  /\ (forall c,
      Certification.Validate c = None <->
      TrimSpace (Certification.Name c) <> []
      /\ TrimSpace (Certification.Issuer c) <> []
      /\ (exists issueDate,
             ParseDate (Certification.IssueDate c) = Some issueDate
             /\ (Certification.ExpiryDate c = []
                 \/ Certification.ExpiryDate c = lit "No Expiration"
                 \/ exists expiryDate,
                     ParseDate (Certification.ExpiryDate c) = Some expiryDate
                     /\ issueDate <= expiryDate))
      /\ (Certification.URL c = [] \/ ParseRequestURI (Certification.URL c) = true)).
Proof. split; [exact Education_accepted | exact Certification_accepted]. Qed.

Section skill.
Import Skill.

Definition categories : list bytes :=
  [SkillCategoryLanguage; SkillCategoryFramework; SkillCategoryTool;
   SkillCategoryDatabase; SkillCategoryOther].

Lemma validCategory_spec c : validCategory c = true <-> c ∈ categories.
Proof.
  unfold validCategory, ValidSkillCategories, categories. cbn [list_to_map foldr fst snd].
  rewrite !elem_of_cons, elem_of_nil.
  destruct (decide (c = SkillCategoryLanguage)) as [->|H1];
    [rewrite lookup_insert_eq; cbn; tauto | rewrite lookup_insert_ne by congruence].
  destruct (decide (c = SkillCategoryFramework)) as [->|H2];
    [rewrite lookup_insert_eq; cbn; tauto | rewrite lookup_insert_ne by congruence].
  destruct (decide (c = SkillCategoryTool)) as [->|H3];
    [rewrite lookup_insert_eq; cbn; tauto | rewrite lookup_insert_ne by congruence].
  destruct (decide (c = SkillCategoryDatabase)) as [->|H4];
    [rewrite lookup_insert_eq; cbn; tauto | rewrite lookup_insert_ne by congruence].
  destruct (decide (c = SkillCategoryOther)) as [->|H5];
    [rewrite lookup_insert_eq; cbn; tauto | rewrite lookup_insert_ne by congruence].
  rewrite lookup_empty. cbn. split; [discriminate | tauto].
Qed.

Lemma categories_trimmed c : c ∈ categories -> TrimSpace c = c /\ c <> [].
Proof.
  unfold categories. rewrite !elem_of_cons, elem_of_nil.
  intros [-> | [-> | [-> | [-> | [-> | []]]]]]; split;
    first [reflexivity | discriminate].
Qed.

Lemma Skill_accepted keys s :
  Validate keys s = None <->
  TrimSpace (Name s) <> []
  /\ (Category s = [] \/ Category s ∈ categories)
  /\ 0 <= Proficiency s <= 5.
Proof.
  unfold Validate.
  destruct (bool_decide (TrimSpace (Name s) = [])) eqn:En.
  { apply bool_decide_eq_true in En. split; [discriminate | intros [? _]; contradiction]. }
  apply bool_decide_eq_false in En.
  destruct (bool_decide (Category s <> [])) eqn:Ec.
  - apply bool_decide_eq_true in Ec.
    destruct (validCategory (Category s)) eqn:Ev; cbn [negb andb].
    + apply validCategory_spec in Ev.
      destruct (Proficiency s =? 0) eqn:E0; cbn [negb andb].
      * apply Z.eqb_eq in E0. split; [intros _; repeat split; auto; lia | reflexivity].
      * destruct (Proficiency s <? 1) eqn:E1; cbn [orb].
        { apply Z.ltb_lt in E1. split; [discriminate | intros (_ & _ & ?); lia]. }
        destruct (5 <? Proficiency s) eqn:E5.
        { apply Z.ltb_lt in E5. split; [discriminate | intros (_ & _ & ?); lia]. }
        apply Z.ltb_ge in E1, E5. split; [intros _; repeat split; auto; lia | reflexivity].
    + split; [discriminate|]. intros (_ & [Hc | Hc] & _); [contradiction|].
      apply validCategory_spec in Hc. congruence.
  - apply bool_decide_eq_false in Ec. apply dec_stable in Ec. cbn [andb].
    destruct (Proficiency s =? 0) eqn:E0; cbn [negb andb].
    + apply Z.eqb_eq in E0. split; [intros _; repeat split; auto; lia | reflexivity].
    + destruct (Proficiency s <? 1) eqn:E1; cbn [orb].
      { apply Z.ltb_lt in E1. split; [discriminate | intros (_ & _ & ?); lia]. }
      destruct (5 <? Proficiency s) eqn:E5.
      { apply Z.ltb_lt in E5. split; [discriminate | intros (_ & _ & ?); lia]. }
      apply Z.ltb_ge in E1, E5. split; [intros _; repeat split; auto; lia | reflexivity].
Qed.

End skill.

(** X16. [Validate] accepts a Skill exactly when its name is not blank,
    its category is empty or one of language, framework, tool, database,
    other (as written, blanks around it are not forgiven), and its
    proficiency is 0 (not given) or between 1 and 5. Whether it accepts
    does not depend on the order in which the runtime ranges over the map
    of categories; only the text of the category error does. *)
Theorem Skill_accepts_iff (keys keys' : list bytes) (s : Skill.t) :
  (Skill.Validate keys s = None <->
   TrimSpace (Skill.Name s) <> []
   /\ (Skill.Category s = [] \/ Skill.Category s ∈ categories)
   /\ 0 <= Skill.Proficiency s <= 5)
  /\ (Skill.Validate keys s = None <-> Skill.Validate keys' s = None)
  /\ (forall v v',
      Skill.Validate keys s = Some v -> Skill.Validate keys' s = Some v' ->
      Field v = Field v' /\ Err_ v = Err_ v').
Proof.
  split; [apply Skill_accepted|]. split; [now rewrite !Skill_accepted|].
  unfold Skill.Validate. intros v v'.
  destruct (bool_decide (TrimSpace (Skill.Name s) = [])); [now intros [= <-] [= <-]|].
  destruct (_ && _); [now intros [= <-] [= <-]|].
  destruct (_ && _); [now intros [= <-] [= <-] | discriminate].
Qed.

(** X17. [BeforeSave] never spoils a valid entry: an Education entry that
    [Validate] accepts is accepted after [BeforeSave] too, with its dates
    unchanged, and so is an accepted Skill, whose category is unchanged
    unless it was empty. After [BeforeSave] the category of a Skill is
    never empty ("other" stands in), and a Skill with a name that is not
    blank, a proficiency from 0 to 5, and a category that is blank or one
    of the five once trimmed is accepted after [BeforeSave] even where it
    was refused before. *)
Theorem BeforeSave_keeps_valid :
  (forall e,
      Education.Validate e = None ->
      Education.Validate (Education.BeforeSave e) = None
      /\ Education.StartDate (Education.BeforeSave e) = Education.StartDate e
      /\ Education.EndDate (Education.BeforeSave e) = Education.EndDate e)
  /\ (forall keys s,
      Skill.Validate keys s = None ->
      Skill.Validate keys (Skill.BeforeSave s) = None
      /\ (Skill.Category s <> [] ->
          Skill.Category (Skill.BeforeSave s) = Skill.Category s))
  /\ (forall s, Skill.Category (Skill.BeforeSave s) <> [])
  /\ (forall keys s,
      TrimSpace (Skill.Name s) <> [] ->
      TrimSpace (Skill.Category s) = [] \/ TrimSpace (Skill.Category s) ∈ categories ->
      0 <= Skill.Proficiency s <= 5 ->
      Skill.Validate keys (Skill.BeforeSave s) = None).
Proof.
  split; [|split; [|split]].
  - intros e He. apply Education_accepted in He as (Hi & Hd & startDate & Hs & Hend).
    assert (Hs' : TrimSpace (Education.StartDate e) = Education.StartDate e)
      by exact (ParseDate_TrimSpace _ _ Hs).
    assert (He' : TrimSpace (Education.EndDate e) = Education.EndDate e).
    { destruct Hend as [-> | [-> | (endDate & He & _)]];
        [reflexivity | reflexivity | exact (ParseDate_TrimSpace _ _ He)]. }
    cbn [Education.BeforeSave Education.StartDate Education.EndDate].
    split; [|split; assumption].
    apply Education_accepted.
    cbn [Education.BeforeSave Education.Institution Education.Degree
         Education.StartDate Education.EndDate].
    rewrite !TrimSpace_idem, Hs', He'. eauto.
  - intros keys s Hv. apply Skill_accepted in Hv as (Hn & Hc & Hp).
    assert (Ht : Skill.Category s <> [] ->
                 TrimSpace (Skill.Category s) = Skill.Category s).
    { intros Hne. destruct Hc as [Hc | Hc]; [contradiction|].
      now apply categories_trimmed. }
    split.
    + apply Skill_accepted.
      cbn [Skill.BeforeSave Skill.Name Skill.Category Skill.Proficiency].
      rewrite TrimSpace_idem. split; [exact Hn|]. split; [|exact Hp].
      destruct Hc as [-> | Hc].
      * right. change (TrimSpace []) with (@nil ascii).
        rewrite bool_decide_eq_true_2 by reflexivity.
        apply validCategory_spec. reflexivity.
      * destruct (categories_trimmed _ Hc) as [-> Hne].
        rewrite (bool_decide_eq_false_2 _ Hne). now right.
    + intros Hne. cbn [Skill.BeforeSave Skill.Category]. rewrite (Ht Hne).
      now rewrite (bool_decide_eq_false_2 _ Hne).
  - intros s. cbn [Skill.BeforeSave Skill.Category].
    destruct (bool_decide (TrimSpace (Skill.Category s) = [])) eqn:E;
      [discriminate | now apply bool_decide_eq_false in E].
  - intros keys s Hn Hc Hp. apply Skill_accepted.
    cbn [Skill.BeforeSave Skill.Name Skill.Category Skill.Proficiency].
    rewrite TrimSpace_idem. split; [exact Hn|]. split; [|exact Hp]. right.
    destruct Hc as [Hc | Hc].
    + rewrite Hc. rewrite bool_decide_eq_true_2 by reflexivity.
      apply validCategory_spec. reflexivity.
    + destruct (categories_trimmed _ Hc) as [_ Hne].
      now rewrite (bool_decide_eq_false_2 _ Hne).
Qed.

(** The last part on a skill whose category carries blanks: refused as it
    is, accepted once [BeforeSave] has run. *)
Lemma BeforeSave_keeps_valid_witness :
  Skill.Validate categories
    {| Skill.Name := lit "Go"; Skill.Category := lit " language ";
       Skill.Proficiency := 4 |} <> None
  /\ Skill.Validate categories
       (Skill.BeforeSave {| Skill.Name := lit "Go"; Skill.Category := lit " language ";
                            Skill.Proficiency := 4 |}) = None.
Proof.
  split; [vm_compute; discriminate|].
  apply (proj2 (proj2 (proj2 BeforeSave_keeps_valid))).
  - vm_compute. discriminate.
  - right. apply validCategory_spec. vm_compute. reflexivity.
  - cbn. lia.
Defined.

End domain_more.

(* --------------------------------------------------------------------- *)
(** ** ratelimit.go: the limiter over a run of calls, and the middleware *)

Module ratelimit_more.
Import ratelimit.

Section runs.
Context `{NetAddr}.




(** *** One request a second *)

Lemma FormatInt_inj n m :
  - 2 ^ 63 <= n < 2 ^ 63 -> - 2 ^ 63 <= m < 2 ^ 63 ->
  FormatInt n = FormatInt m -> n = m.
Proof.
  intros Hn Hm E.
  pose proof (scanInt_FormatInt n [] Hn eq_refl) as Sn.
  pose proof (scanInt_FormatInt m [] Hm eq_refl) as Sm.
  rewrite E in Sn. rewrite Sn in Sm. now injection Sm.
Qed.

(** Calls at the seconds [t], [t+1], ..., one each, the network up. *)
Definition burst (t : Z) (first n : nat) : list (Z * (command -> bool)) :=
  map (fun i => (t + Z.of_nat i, connected)) (seq first n).

(** What a limiter is meant to answer to them: the running count up to
    the limit, then the refusal. *)
Definition counted (rl : RateLimiter) (first n : nat) : list (Z * option rateError) :=
  map (fun i => if Z.of_nat i <? limit rl then (Z.of_nat i + 1, None)
                else (limit rl, Some ErrRateLimitExceeded))
      (seq first n).

(** The set holds [k] timestamps, all from [t] to before [t + i]. *)
Definition stamped (z : gmap (list ascii) Z) (t i k : Z) : Prop :=
  (forall member score,
      z !! member = Some score -> member = FormatInt score /\ t <= score < t + i)
  /\ Z.of_nat (size z) = k.

Lemma burst_step (rl : RateLimiter) (st : Redis) (r : Request) t i :
  0 < limit rl -> 0 <= t -> 0 <= i < Seconds (interval rl) -> t + i < 2 ^ 63 ->
  stamped (zset st (getLimitKey r)) t i (Z.min i (limit rl)) ->
  fst (CheckRateLimit rl connected st r (t + i))
  = (if i <? limit rl then (i + 1, None) else (limit rl, Some ErrRateLimitExceeded))
  /\ stamped (zset (snd (CheckRateLimit rl connected st r (t + i))) (getLimitKey r))
       t (i + 1) (Z.min (i + 1) (limit rl)).
Proof.
  intros Hlim Ht Hi Hmax [Hz Hsize]. unfold CheckRateLimit. cbn [connected].
  set (st1 := ZRemRangeByScore st (getLimitKey r) 0 (t + i - Seconds (interval rl))).
  assert (E1 : zset st1 (getLimitKey r) = zset st (getLimitKey r)).
  { unfold st1. rewrite ratelimit_facts.zset_ZRemRangeByScore.
    apply map_filter_id. intros m sc Hl. destruct (Hz _ _ Hl) as [_ Hr].
    cbn [snd]. apply negb_true_iff, andb_false_iff. right. apply Z.leb_gt. lia. }
  unfold ZCard. rewrite E1, Hsize.
  destruct (Z.leb_spec (limit rl) (Z.min i (limit rl))) as [Hfull | Hroom].
  - replace (i <? limit rl) with false by (symmetry; apply Z.ltb_ge; lia).
    cbn [fst snd]. rewrite E1. split; [f_equal; f_equal; lia|].
    split; [|lia]. intros m sc Hl. destruct (Hz _ _ Hl). split; [assumption | lia].
  - replace (i <? limit rl) with true by (symmetry; apply Z.ltb_lt; lia).
    cbn [fst snd]. split; [f_equal; f_equal; lia|].
    rewrite ratelimit_facts.zset_Expire, ratelimit_facts.zset_ZAdd, E1.
    assert (Hnew : zset st (getLimitKey r) !! FormatInt (t + i) = None).
    { destruct (zset st (getLimitKey r) !! FormatInt (t + i)) as [sc|] eqn:El;
        [|reflexivity].
      destruct (Hz _ _ El) as [Hm Hr]. apply FormatInt_inj in Hm; lia. }
    split.
    + intros m sc Hl. destruct (decide (m = FormatInt (t + i))) as [->|Hne].
      * rewrite lookup_insert_eq in Hl. injection Hl as <-. split; [reflexivity | lia].
      * rewrite lookup_insert_ne in Hl by congruence.
        destruct (Hz _ _ Hl). split; [assumption | lia].
    + rewrite map_size_insert_None by exact Hnew. lia.
Qed.

Lemma serve_burst (rl : RateLimiter) (r : Request) t n : forall first st,
  0 < limit rl -> 0 <= t ->
  Z.of_nat (first + n) <= Seconds (interval rl) -> t + Z.of_nat (first + n) <= 2 ^ 63 ->
  stamped (zset st (getLimitKey r)) t (Z.of_nat first)
    (Z.min (Z.of_nat first) (limit rl)) ->
  serve rl st r (burst t first n) = counted rl first n.
Proof.
  induction n as [|n IH]; intros first st Hlim Ht Hs Hmax Hz; [reflexivity|].
  unfold burst, counted. cbn [seq map serve].
  destruct (burst_step rl st r t (Z.of_nat first) Hlim Ht) as [Hres Hz'];
    [lia | lia | exact Hz |].
  destruct (CheckRateLimit rl connected st r (t + Z.of_nat first)) as [res st'].
  cbn [fst snd] in Hres, Hz'. rewrite Hres. f_equal.
  apply (IH (S first) st'); [exact Hlim | exact Ht | lia | lia |].
  now replace (Z.of_nat (S first)) with (Z.of_nat first + 1) by lia.
Qed.

(** X19. With one request a second the limiter counts right. From an
    empty store, [n] calls of one client for one path at the seconds [t],
    [t+1], ..., all within one interval and with the network up, are
    answered with the counts 1, 2, ... up to the limit and no error, and
    from then on with the limit as count and ErrRateLimitExceeded. *)
Theorem one_request_a_second (rl : RateLimiter) (r : Request) (t : Z) (n : nat) :
  0 < limit rl -> 0 <= t ->
  Z.of_nat n <= Seconds (interval rl) -> t + Z.of_nat n <= 2 ^ 63 ->
  serve rl emptyRedis r (burst t 0 n) = counted rl 0 n.
Proof.
  intros Hlim Ht Hs Hmax. apply serve_burst; try assumption.
  split.
  - intros m sc Hl. unfold zset in Hl. cbn in Hl.
    rewrite lookup_empty in Hl. cbn in Hl. now rewrite lookup_empty in Hl.
  - unfold zset. cbn. rewrite lookup_empty. cbn. rewrite map_size_empty. lia.
Qed.

(** *** The middleware *)



End runs.

(** *** The key of a client *)

Section client_key.
Context `{NetAddr}.

(** The first entry of the request header X-Forwarded-For, without the
    space around it. *)
Definition firstForwarded (r : Request) : bytes :=
  TrimSpace (hd [] (Split (HeaderGet (ReqHeader r) (lit "X-Forwarded-For")) ","%char)).

Lemma getIPAddress_forwarded (r : Request) :
  HeaderGet (ReqHeader r) (lit "X-Forwarded-For") <> [] ->
  getIPAddress r = firstForwarded r.
Proof.
  intros Hx. unfold getIPAddress, firstForwarded.
  rewrite bool_decide_eq_false_2 by exact Hx. cbn [negb].
  now destruct (Split _ ","%char).
Qed.

Lemma getLimitKey_forwarded (r r' : Request) :
  HeaderGet (ReqHeader r) (lit "X-Forwarded-For") <> [] ->
  HeaderGet (ReqHeader r') (lit "X-Forwarded-For") <> [] ->
  URLPath r = URLPath r' ->
  getLimitKey r = getLimitKey r' -> firstForwarded r = firstForwarded r'.
Proof.
  intros Hx Hx' Hp. unfold getLimitKey.
  rewrite (getIPAddress_forwarded r Hx), (getIPAddress_forwarded r' Hx'), Hp.
  intros Hk. apply app_inv_head in Hk. now apply app_inv_tail in Hk.
Qed.

(** A call writes under the key of its request only. *)
Lemma CheckRateLimit_elsewhere (rl : RateLimiter) down (st : Redis) (r : Request)
    now key :
  key <> getLimitKey r ->
  zsets (snd (CheckRateLimit rl down st r now)) !! key = zsets st !! key.
Proof.
  intros Hk. unfold CheckRateLimit.
  destruct (down ZRemRangeByScoreCmd); [reflexivity|].
  assert (Hp : zsets (ZRemRangeByScore st (getLimitKey r) 0
                        (now - Seconds (interval rl))) !! key = zsets st !! key).
  { unfold ZRemRangeByScore. case_bool_decide; cbn [zsets].
    - now rewrite lookup_delete_ne by congruence.
    - now rewrite lookup_insert_ne by congruence. }
  destruct (down ZCardCmd); [exact Hp|].
  destruct (limit rl <=? _); [exact Hp|]. cbn [snd].
  set (pruned := ZRemRangeByScore _ _ _ _) in *.
  assert (Ha : zsets (if down ZAddCmd then pruned
                      else ZAdd pruned (getLimitKey r) now (FormatInt now)) !! key
               = zsets st !! key).
  { destruct (down ZAddCmd); [exact Hp|]. unfold ZAdd. cbn [zsets].
    now rewrite lookup_insert_ne by congruence. }
  destruct (down ExpireCmd); [exact Ha|].
  unfold Expire. now destruct (zsets _ !! getLimitKey r).
Qed.

(** The first call under a key is admitted, whatever the network does. *)
Lemma CheckRateLimit_fresh (rl : RateLimiter) down (st : Redis) (r : Request) now :
  0 < limit rl ->
  zsets st !! getLimitKey r = None ->
  snd (fst (CheckRateLimit rl down st r now)) = None.
Proof.
  intros Hlim Hfresh. unfold CheckRateLimit.
  destruct (down ZRemRangeByScoreCmd); [reflexivity|].
  destruct (down ZCardCmd); [reflexivity|].
  assert (Hc : ZCard (ZRemRangeByScore st (getLimitKey r) 0
                        (now - Seconds (interval rl))) (getLimitKey r) = 0).
  { unfold ZCard. rewrite ratelimit_facts.zset_ZRemRangeByScore.
    unfold zset. rewrite Hfresh. cbn [default].
    now rewrite map_filter_empty, map_size_empty. }
  rewrite Hc. destruct (Z.leb_spec (limit rl) 0); [lia | reflexivity].
Qed.

Lemma serveEach_fresh (rl : RateLimiter) path calls :
  0 < limit rl ->
  Forall (fun c => HeaderGet (ReqHeader (fst (fst c))) (lit "X-Forwarded-For") <> []
                   /\ URLPath (fst (fst c)) = path) calls ->
  NoDup (map (fun c => firstForwarded (fst (fst c))) calls) ->
  forall st,
    Forall (fun c => zsets st !! getLimitKey (fst (fst c)) = None) calls ->
    Forall (fun res => snd res = None) (serveEach rl st calls).
Proof.
  intros Hlim. induction calls as [|[[r now] down] calls IH];
    intros Hall Hnd st Hst; [constructor|].
  cbn [serveEach].
  apply Forall_cons in Hall as [[Hx Hp] Hall].
  apply NoDup_cons in Hnd as [Hnew Hnd].
  apply Forall_cons in Hst as [Hr Hst]. cbn [fst] in Hx, Hp, Hnew, Hr.
  pose proof (CheckRateLimit_fresh rl down st r now Hlim Hr) as Hres.
  pose proof (fun key => CheckRateLimit_elsewhere rl down st r now key) as Hel.
  destruct (CheckRateLimit rl down st r now) as [res st'].
  cbn [fst snd] in Hres, Hel.
  constructor; [exact Hres|].
  apply IH; [exact Hall | exact Hnd |].
  rewrite Forall_forall in Hall, Hst. apply Forall_forall. intros c Hc.
  rewrite Hel; [now apply Hst|].
  intros Hk. apply Hnew. apply list_elem_of_fmap. exists c. split; [|exact Hc].
  symmetry. destruct (Hall c Hc) as [Hxc Hpc].
  apply getLimitKey_forwarded; [exact Hxc | exact Hx | congruence | exact Hk].
Qed.

(** X21. The limiter counts per client address and path, and takes the
    address from the request header X-Forwarded-For when that is set. So
    requests for one path whose X-Forwarded-For headers name pairwise
    different first entries are never refused, whatever the limit, whatever
    address they come from, however close in time and whatever the network
    does: each is the first under its key. *)
Theorem fresh_forwarded_for_never_refused (rl : RateLimiter) (path : bytes)
    (calls : list (Request * Z * (command -> bool))) :
  0 < limit rl ->
  Forall (fun c => HeaderGet (ReqHeader (fst (fst c))) (lit "X-Forwarded-For") <> []
                   /\ URLPath (fst (fst c)) = path) calls ->
  NoDup (map (fun c => firstForwarded (fst (fst c))) calls) ->
  Forall (fun res => snd res = None) (serveEach rl emptyRedis calls).
Proof.
  intros Hlim Hall Hnd. apply (serveEach_fresh rl path); try assumption.
  apply Forall_forall. intros c _. apply lookup_empty.
Qed.

End client_key.

(** The theorem on a limiter of one request a minute: three requests from
    one address within a second, with three X-Forwarded-For headers. *)
Lemma fresh_forwarded_for_never_refused_witness :
  Forall (fun res => snd res = None)
    (serveEach (H := firstColon) (NewRateLimiter 1 0) emptyRedis
       [(forwardedRequest (lit "10.0.0.1"), 1700000000, connected);
        (forwardedRequest (lit "10.0.0.2"), 1700000000, connected);
        (forwardedRequest (lit " 10.0.0.3, 10.0.0.1"), 1700000000, connected)]).
Proof.
  apply (@fresh_forwarded_for_never_refused firstColon (NewRateLimiter 1 0)
           (lit "/api/login")).
  - reflexivity.
  - repeat constructor; vm_compute; discriminate.
  - apply (bool_decide_unpack _). vm_compute. reflexivity.
Defined.



(** The theorem on a limiter of three a minute and five calls: three are
    counted, two refused. *)
Lemma one_request_a_second_witness :
  serve (H := firstColon) (NewRateLimiter 3 0) emptyRedis sampleRequest
    (burst 1700000000 0 5)
  = [(1, None); (2, None); (3, None);
     (3, Some ErrRateLimitExceeded); (3, Some ErrRateLimitExceeded)].
Proof.
  rewrite (@one_request_a_second firstColon (NewRateLimiter 3 0) sampleRequest
             1700000000 5).
  - reflexivity.
  - reflexivity.
  - lia.
  - vm_compute. discriminate.
  - lia.
Defined.


End ratelimit_more.


(* --------------------------------------------------------------------- *)
(** ** The authentication middleware *)

Module handler_more.
Import handler.

Lemma Split_two (s : bytes) (sep : ascii) (a b : bytes) :
  Split s sep = [a; b] <-> s = a ++ sep :: b /\ (sep ∉ a) /\ (sep ∉ b).
Proof.
  split.
  - intros Hs. destruct (Split_join s sep) as [Hj Hf]. rewrite Hs in Hj, Hf.
    apply Forall_cons in Hf as [Ha Hf]. apply Forall_cons in Hf as [Hb _].
    split; [|split; assumption]. rewrite <- Hj. reflexivity.
  - intros (-> & Ha & Hb). now rewrite (Split_app _ _ _ Ha), (Split_no_sep _ _ Hb).
Qed.

(** The header values that carry a token: the word Bearer, one space, and
    a token without a space. *)
Lemma extractTokenFromHeader_spec (r : Request) (token : bytes) :
  extractTokenFromHeader r = inr token
  <-> HeaderGet (ReqHeader r) (lit "Authorization") = lit "Bearer " ++ token
      /\ (" "%char ∉ token).
Proof.
  unfold extractTokenFromHeader.
  set (authHeader := HeaderGet (ReqHeader r) (lit "Authorization")).
  split.
  - case_bool_decide as He; [discriminate|].
    destruct (Split authHeader " "%char) as [|a [|b [|c l]]] eqn:Hs;
      cbn [length Nat.eqb negb orb nth]; try discriminate.
    case_bool_decide as Hb; cbn [negb]; [|discriminate].
    intros [= <-]. subst a. apply Split_two in Hs as (Hs & _ & Hn).
    split; [exact Hs | exact Hn].
  - intros [Hh Hn]. rewrite Hh.
    rewrite bool_decide_eq_false_2 by discriminate.
    change (lit "Bearer " ++ token) with (lit "Bearer" ++ " "%char :: token).
    rewrite (proj2 (Split_two _ _ (lit "Bearer") token)).
    + reflexivity.
    + split; [reflexivity|]. split; [|exact Hn].
      apply (bool_decide_unpack _). vm_compute. reflexivity.
Qed.

Lemma respondWithError_fields (w : ResponseWriter) (status : Z) (message code : string) :
  rwStatus w = None ->
  rwStatus (respondWithError w status message code) = Some status
  /\ HeaderValues (rwSent (respondWithError w status message code))
       (lit "Content-Type") = [lit "application/json"]
  /\ rwBody (respondWithError w status message code)
     = rwBody w ++ errorBody message code.
Proof.
  intros Hw. unfold respondWithError.
  pose proof (SetHeader_fields w (lit "Content-Type") (lit "application/json"))
    as (Hh1 & Hs1 & Hn1 & Hb1).
  set (w1 := SetHeader w _ _) in *. clearbody w1.
  assert (Hfresh : rwStatus w1 = None) by congruence.
  pose proof (WriteHeader_first w1 status Hfresh) as (Hh2 & Hs2 & Hn2 & Hb2).
  set (w2 := WriteHeader w1 _) in *. clearbody w2.
  pose proof (WriteBody_after_status w2 status (errorBody message code) Hs2)
    as (Hh3 & Hs3 & Hn3 & Hb3).
  rewrite Hs3, Hn3, Hb3, Hn2, Hb2, Hh1, Hb1.
  split; [reflexivity|]. split; [|reflexivity].
  rewrite HeaderValues_HeaderSet. now rewrite bool_decide_eq_true_2.
Qed.

Section with_codec.
Context `{JWTCodec}.

Lemma ValidateAccessToken_access (j : jwt.JWTConfig) (issued now : Z)
    (userID email role : bytes) :
  issued <= now -> now < (issued + jwt.AccessTokenExpiry j) / SecondNs * SecondNs ->
  jwt.ValidateAccessToken j now (jwt.GenerateAccessToken j issued userID email role)
  = Ok (throughJSON (jwt.newClaims j issued userID email role jwt.TokenTypeAccess
                       (jwt.AccessTokenExpiry j))).
Proof.
  intros Hle Hlt. unfold jwt.ValidateAccessToken, jwt.GenerateAccessToken.
  rewrite jwt_more.validateType_generateToken by assumption.
  rewrite bool_decide_eq_true_2; [reflexivity|].
  unfold jwt.TokenTypeAccess. now apply jwt_facts.jsonText_lit.
Qed.

Lemma AuthRequired_accepts (j : jwt.JWTConfig) (now : Z) (w : ResponseWriter)
    (r : Request) (ctx : Context) (token : bytes) (claims : JWTClaims) :
  HeaderGet (ReqHeader r) (lit "Authorization") = lit "Bearer " ++ token ->
  " "%char ∉ token ->
  jwt.ValidateAccessToken j now token = Ok claims ->
  AuthRequired j now w r ctx = Ok (w, Some (Some claims)).
Proof.
  intros Hh Hn Hv. unfold AuthRequired, service.ValidateAccessToken.
  rewrite (proj2 (extractTokenFromHeader_spec r token) (conj Hh Hn)).
  now rewrite Hv.
Qed.

(** X22. [AuthRequired] hands a request on exactly when its Authorization
    header is the word Bearer, one space and a token without a space that
    [ValidateAccessToken] of pkg/auth accepts; the response is then
    untouched and the claims of the token are in the context of the next
    handler, in place of any that were there. A header with another
    scheme, bearer in lower case, two spaces, or a space after the token
    does not get through. *)
Theorem bearer_token_required (j : jwt.JWTConfig) (now : Z) (w w' : ResponseWriter)
    (r : Request) (ctx ctx' : Context) :
  AuthRequired j now w r ctx = Ok (w', Some ctx')
  <-> w' = w
      /\ exists token claims,
          HeaderGet (ReqHeader r) (lit "Authorization") = lit "Bearer " ++ token
          /\ (" "%char ∉ token)
          /\ jwt.ValidateAccessToken j now token = Ok claims
          /\ ctx' = Some claims.
Proof.
  unfold AuthRequired, service.ValidateAccessToken. split.
  - destruct (extractTokenFromHeader r) as [e|token] eqn:He; [discriminate|].
    apply extractTokenFromHeader_spec in He as [Hh Hn].
    destruct (jwt.ValidateAccessToken j now token) as [claims|[]|] eqn:Hv;
      try discriminate.
    intros [= <- <-]. split; [reflexivity|]. now exists token, claims.
  - intros (-> & token & claims & Hh & Hn & Hv & ->).
    fold (AuthRequired j now w r ctx).
    now apply (AuthRequired_accepts j now w r ctx token claims).
Qed.

(** X23. An access token works as a pass for its role. A token of
    [GenerateAccessToken] for a user id, email and role in ASCII, sent as
    Bearer token from its issue until its expiry, gets through
    [AuthRequired] with the user id and role it was made for in the claims;
    behind it [RequireRole] for that role hands the request on untouched,
    and [RequireRole] for any other role answers 403 with the code
    FORBIDDEN. Without claims in the context [RequireRole] answers 401.
    The token has no space in it, as base64url text and dots have none. *)
Theorem access_token_opens_its_role (j : jwt.JWTConfig) (issued now : Z)
    (userID email role : bytes) (w : ResponseWriter) (r : Request) (ctx : Context) :
  Forall (fun c => byteZ c < 128) userID ->
  Forall (fun c => byteZ c < 128) email ->
  Forall (fun c => byteZ c < 128) role ->
  issued <= now -> now < (issued + jwt.AccessTokenExpiry j) / SecondNs * SecondNs ->
  " "%char ∉ jwt.GenerateAccessToken j issued userID email role ->
  HeaderGet (ReqHeader r) (lit "Authorization")
  = lit "Bearer " ++ jwt.GenerateAccessToken j issued userID email role ->
  rwStatus w = None ->
  exists claims,
    AuthRequired j now w r ctx = Ok (w, Some (Some claims))
    /\ UserID claims = userID /\ Role claims = role
    /\ RequireRole role w (Some claims) = (w, true)
    /\ (forall other, other <> role ->
        snd (RequireRole other w (Some claims)) = false
        /\ rwStatus (fst (RequireRole other w (Some claims))) = Some 403
        /\ rwBody (fst (RequireRole other w (Some claims)))
           = rwBody w ++ errorBody "Forbidden" "FORBIDDEN")
    /\ (forall wanted, snd (RequireRole wanted w None) = false
        /\ rwStatus (fst (RequireRole wanted w None)) = Some 401).
Proof.
  intros Hu He Hr Hle Hlt Hsp Hh Hw.
  pose proof (ValidateAccessToken_access j issued now userID email role Hle Hlt) as Hv.
  set (claims := throughJSON _) in Hv.
  exists claims. split; [|split; [|split; [|split; [|split]]]].
  - now apply (AuthRequired_accepts j now w r ctx
                 (jwt.GenerateAccessToken j issued userID email role) claims).
  - unfold claims. cbn [throughJSON jwt.newClaims UserID]. now apply jsonText_ascii.
  - unfold claims. cbn [throughJSON jwt.newClaims Role]. now apply jsonText_ascii.
  - unfold RequireRole.
    assert (Hrole : Role claims = role)
      by (unfold claims; cbn [throughJSON jwt.newClaims Role]; now apply jsonText_ascii).
    now rewrite bool_decide_eq_true_2.
  - intros other Ho. unfold RequireRole.
    assert (Hrole : Role claims = role)
      by (unfold claims; cbn [throughJSON jwt.newClaims Role]; now apply jsonText_ascii).
    rewrite bool_decide_eq_false_2 by congruence. cbn [negb fst snd].
    destruct (respondWithError_fields w StatusForbidden "Forbidden" "FORBIDDEN" Hw)
      as (Hs & _ & Hb).
    split; [reflexivity|]. split; [exact Hs | exact Hb].
  - intros wanted. unfold RequireRole. cbn [fst snd].
    destruct (respondWithError_fields w StatusUnauthorized "Unauthorized"
                "UNAUTHORIZED" Hw) as (Hs & _ & _).
    split; [reflexivity | exact Hs].
Qed.

(** X24. What [AuthRequired] refuses, it refuses with 401 and a JSON
    body, whatever the reason. An access token past its expiry gets the
    code TOKEN_EXPIRED; a refresh token within its lifetime, though signed
    under the same secret, gets INVALID_TOKEN, as does a request without a
    Bearer token. *)
Theorem refused_tokens (j : jwt.JWTConfig) (issued now : Z)
    (userID email role : bytes) (w : ResponseWriter) (r : Request) (ctx : Context) :
  rwStatus w = None ->
  (forall w', AuthRequired j now w r ctx = Ok (w', None) ->
     rwStatus w' = Some 401
     /\ HeaderValues (rwSent w') (lit "Content-Type") = [lit "application/json"])
  /\ (HeaderGet (ReqHeader r) (lit "Authorization")
      = lit "Bearer " ++ jwt.GenerateAccessToken j issued userID email role ->
      " "%char ∉ jwt.GenerateAccessToken j issued userID email role ->
      (issued + jwt.AccessTokenExpiry j) / SecondNs * SecondNs <= now ->
      AuthRequired j now w r ctx
      = Ok (respondWithError w 401 "Token expired" "TOKEN_EXPIRED", None))
  /\ (HeaderGet (ReqHeader r) (lit "Authorization")
      = lit "Bearer " ++ jwt.GenerateRefreshToken j issued userID email role ->
      " "%char ∉ jwt.GenerateRefreshToken j issued userID email role ->
      issued <= now ->
      now < (issued + jwt.RefreshTokenExpiry j) / SecondNs * SecondNs ->
      AuthRequired j now w r ctx
      = Ok (respondWithError w 401 "Invalid token" "INVALID_TOKEN", None))
  /\ (extractTokenFromHeader r = inl NoAuthorizationHeader
      \/ extractTokenFromHeader r = inl InvalidAuthorizationFormat ->
      AuthRequired j now w r ctx
      = Ok (respondWithError w 401 "Unauthorized" "INVALID_TOKEN", None)).
Proof.
  intros Hw. split; [|split; [|split]].
  - intros w'. unfold AuthRequired, service.ValidateAccessToken.
    destruct (extractTokenFromHeader r) as [e|token].
    + intros [= <-].
      destruct (respondWithError_fields w StatusUnauthorized "Unauthorized"
                  "INVALID_TOKEN" Hw) as (Hs & Hc & _).
      split; [exact Hs | exact Hc].
    + destruct (jwt.ValidateAccessToken j now token) as [claims|[]|];
        try discriminate; intros [= <-].
      * destruct (respondWithError_fields w StatusUnauthorized "Token expired"
                    "TOKEN_EXPIRED" Hw) as (Hs & Hc & _).
        split; [exact Hs | exact Hc].
      * destruct (respondWithError_fields w StatusUnauthorized "Invalid token"
                    "INVALID_TOKEN" Hw) as (Hs & Hc & _).
        split; [exact Hs | exact Hc].
      * destruct (respondWithError_fields w StatusUnauthorized "Invalid token"
                    "INVALID_TOKEN" Hw) as (Hs & Hc & _).
        split; [exact Hs | exact Hc].
  - intros Hh Hsp Hexp. unfold AuthRequired, service.ValidateAccessToken.
    rewrite (proj2 (extractTokenFromHeader_spec r _) (conj Hh Hsp)).
    unfold jwt.ValidateAccessToken, jwt.validateType, jwt.GenerateAccessToken,
      jwt.generateToken.
    rewrite jwt_facts.ParseToken_SignedString. unfold bytesEqual.
    rewrite bool_decide_eq_true_2 by reflexivity.
    destruct (jwt_facts.validateClaims_expired
                (jwt.newClaims j issued userID email role jwt.TokenTypeAccess
                   (jwt.AccessTokenExpiry j))
                ((issued + jwt.AccessTokenExpiry j) / SecondNs) now)
      as [nvy Hvc]; [reflexivity | exact Hexp |].
    rewrite Hvc. reflexivity.
  - intros Hh Hsp Hle Hlt. unfold AuthRequired, service.ValidateAccessToken.
    rewrite (proj2 (extractTokenFromHeader_spec r _) (conj Hh Hsp)).
    unfold jwt.ValidateAccessToken, jwt.GenerateRefreshToken.
    rewrite (jwt_more.validateType_generateToken j issued now userID email role
               jwt.TokenTypeRefresh (jwt.RefreshTokenExpiry j) jwt.TokenTypeAccess
               Hle Hlt).
    unfold jwt.TokenTypeRefresh, jwt.TokenTypeAccess.
    rewrite (jwt_facts.jsonText_lit "refresh") by reflexivity.
    rewrite bool_decide_eq_false_2 by discriminate. reflexivity.
  - intros [He|He]; unfold AuthRequired; now rewrite He.
Qed.

End with_codec.

Lemma HeaderGet_authorized (value : bytes) :
  HeaderGet (ReqHeader (authorized value)) (lit "Authorization") = value.
Proof.
  unfold authorized, HeaderGet, HeaderSet. cbn [ReqHeader].
  now rewrite lookup_insert_eq.
Qed.

(** An access and a refresh token for an administrator, under the sample
    configuration and the stand-in codec. *)
Definition sampleAccessToken : bytes :=
  @jwt.GenerateAccessToken jwt_facts.sampleCodec jwt.sampleJWT 1700000000000000000
    (lit "user123") (lit "user@example.com") (lit "admin").

Definition sampleRefreshToken : bytes :=
  @jwt.GenerateRefreshToken jwt_facts.sampleCodec jwt.sampleJWT 1700000000000000000
    (lit "user123") (lit "user@example.com") (lit "admin").

(** The theorem on the access token, half a second after its issue. *)
Lemma access_token_opens_its_role_witness :
  exists claims,
    @AuthRequired jwt_facts.sampleCodec jwt.sampleJWT 1700000000500000000
      newResponseWriter (authorized (lit "Bearer " ++ sampleAccessToken)) None
    = Ok (newResponseWriter, Some (Some claims))
    /\ UserID claims = lit "user123" /\ Role claims = lit "admin"
    /\ RequireRole (lit "admin") newResponseWriter (Some claims)
       = (newResponseWriter, true)
    /\ rwStatus (fst (RequireRole (lit "user") newResponseWriter (Some claims)))
       = Some 403.
Proof.
  destruct (@access_token_opens_its_role jwt_facts.sampleCodec jwt.sampleJWT
              1700000000000000000 1700000000500000000
              (lit "user123") (lit "user@example.com") (lit "admin")
              newResponseWriter (authorized (lit "Bearer " ++ sampleAccessToken)) None)
    as (claims & Ha & Hu & Hr & Hok & Hother & _).
  - apply (bool_decide_unpack _); vm_compute; reflexivity.
  - apply (bool_decide_unpack _); vm_compute; reflexivity.
  - apply (bool_decide_unpack _); vm_compute; reflexivity.
  - lia.
  - vm_compute. reflexivity.
  - apply (bool_decide_unpack _); vm_compute; reflexivity.
  - apply HeaderGet_authorized.
  - reflexivity.
  - exists claims. split; [exact Ha|]. split; [exact Hu|]. split; [exact Hr|].
    split; [exact Hok|]. apply (Hother (lit "user")). discriminate.
Defined.

(** The theorem on the access token a second after its expiry, and on the
    refresh token half a second after its issue. *)
Lemma refused_tokens_witness :
  @AuthRequired jwt_facts.sampleCodec jwt.sampleJWT 1700000901000000000
    newResponseWriter (authorized (lit "Bearer " ++ sampleAccessToken)) None
  = Ok (respondWithError newResponseWriter 401 "Token expired" "TOKEN_EXPIRED", None)
  /\ @AuthRequired jwt_facts.sampleCodec jwt.sampleJWT 1700000000500000000
       newResponseWriter (authorized (lit "Bearer " ++ sampleRefreshToken)) None
     = Ok (respondWithError newResponseWriter 401 "Invalid token" "INVALID_TOKEN", None).
Proof.
  split.
  - apply (proj1 (proj2 (@refused_tokens jwt_facts.sampleCodec jwt.sampleJWT
                           1700000000000000000 1700000901000000000
                           (lit "user123") (lit "user@example.com") (lit "admin")
                           newResponseWriter
                           (authorized (lit "Bearer " ++ sampleAccessToken)) None
                           eq_refl))).
    + apply HeaderGet_authorized.
    + apply (bool_decide_unpack _); vm_compute; reflexivity.
    + vm_compute. discriminate.
  - apply (proj1 (proj2 (proj2 (@refused_tokens jwt_facts.sampleCodec jwt.sampleJWT
                           1700000000000000000 1700000000500000000
                           (lit "user123") (lit "user@example.com") (lit "admin")
                           newResponseWriter
                           (authorized (lit "Bearer " ++ sampleRefreshToken)) None
                           eq_refl)))).
    + apply HeaderGet_authorized.
    + apply (bool_decide_unpack _); vm_compute; reflexivity.
    + lia.
    + vm_compute. reflexivity.
Defined.

(** The equivalence on three headers: the token after Bearer gets through,
    the same after bearer in lower case or after two spaces does not. *)
Lemma bearer_token_required_witness :
  (exists claims,
      @AuthRequired jwt_facts.sampleCodec jwt.sampleJWT 1700000000500000000
        newResponseWriter (authorized (lit "Bearer " ++ sampleAccessToken)) None
      = Ok (newResponseWriter, Some (Some claims)))
  /\ (forall w' ctx',
        @AuthRequired jwt_facts.sampleCodec jwt.sampleJWT 1700000000500000000
          newResponseWriter (authorized (lit "bearer " ++ sampleAccessToken)) None
        <> Ok (w', Some ctx'))
  /\ (forall w' ctx',
        @AuthRequired jwt_facts.sampleCodec jwt.sampleJWT 1700000000500000000
          newResponseWriter (authorized (lit "Bearer  " ++ sampleAccessToken)) None
        <> Ok (w', Some ctx')).
Proof.
  split; [|split].
  - eexists. apply (@bearer_token_required jwt_facts.sampleCodec).
    split; [reflexivity|]. exists sampleAccessToken. eexists.
    split; [apply HeaderGet_authorized|].
    split; [apply (bool_decide_unpack _); vm_compute; reflexivity|].
    split; [|reflexivity].
    apply (@ValidateAccessToken_access jwt_facts.sampleCodec); [lia|].
    vm_compute. reflexivity.
  - intros w' ctx' Ha.
    apply (@bearer_token_required jwt_facts.sampleCodec) in Ha
      as (_ & token & claims & Hh & _).
    rewrite HeaderGet_authorized in Hh. discriminate.
  - intros w' ctx' Ha.
    apply (@bearer_token_required jwt_facts.sampleCodec) in Ha
      as (_ & token & claims & Hh & Hn & _).
    rewrite HeaderGet_authorized in Hh. injection Hh as <-.
    apply Hn. left.
Defined.

End handler_more.
